(** * simplify-react: update queue and work loop

    A shallow embedding of the reconciler's update queue
    (ReactUpdateQueue.ts) and of its work loop (ReactFiberWorkLoop.ts).

    JavaScript objects live in a store indexed by references, so that
    aliasing (an update reachable from two queues, a fiber and its
    alternate sharing structure) is modelled as the code has it.  Every
    function that mutates objects is a computation in a state-and-error
    monad over that store. *)

From Stdlib Require Import ZArith.
From stdpp Require Import gmap strings list fin_maps.

Local Open Scope Z_scope.

(** ** Values and objects *)

(** A reference to a heap-allocated JavaScript object. *)
Abbreviation ref := nat (only parsing).

(** The state values the update queue folds over: [null], [undefined], or
    a plain object with named fields. *)
Inductive JsVal :=
  | JNull
  | JUndefined
  | JObj (o : gmap string Z).

Global Instance JsVal_eq_dec : EqDecision JsVal.
Proof. solve_decision. Defined.

(** [x == null] of JavaScript: true of [null] and of [undefined]. *)
Definition loose_null (v : JsVal) : bool :=
  match v with
  | JNull | JUndefined => true
  | JObj _ => false
  end.

(** The own enumerable fields a source contributes to [assign]. *)
Definition own_props (v : JsVal) : gmap string Z :=
  match v with
  | JObj o => o
  | _ => ∅
  end.

(** Modelled from the spec: [assign] of packages/shared is not part of the
    sources; the spec describes the fold step as a shallow merge of the
    payload fields over the accumulated state, which is [Object.assign]:
    sources are copied left to right onto the target, later sources
    overwrite earlier ones, and [null]/[undefined] sources are skipped. *)
Definition assign (target : gmap string Z) (sources : list JsVal) : gmap string Z :=
  foldl (λ acc s, own_props s ∪ acc) target sources.

(** [Update<State>]: the optional [lane] field is never set nor read by the
    queue and is left out. *)
Record Update := mkUpdate {
  eventTime : Z;
  tag : nat;
  payload : JsVal;
  callback : option nat;
  next : option ref;
}.

Record SharedQueue := mkSharedQueue {
  pending : option ref;
  sq_lanes : Z;
}.

(** [UpdateQueue<State>]; [shared] is a reference: the shared queue is an
    object of its own. *)
Record UpdateQueue := mkUpdateQueue {
  baseState : JsVal;
  firstBaseUpdate : option ref;
  lastBaseUpdate : option ref;
  shared : ref;
  effects : option (list ref);
}.

(** The fields of [Fiber] that the two modules read or write. *)
Record Fiber := mkFiber {
  f_tag : nat;
  stateNode : option ref;
  return_ : option ref;
  sibling : option ref;
  alternate : option ref;
  lanes : Z;
  childLanes : Z;
  updateQueue : option ref;
  memoizedState : JsVal;
  pendingProps : JsVal;
  memoizedProps : JsVal;
}.

Global Instance Update_eq_dec : EqDecision Update.
Proof. solve_decision. Defined.
Global Instance SharedQueue_eq_dec : EqDecision SharedQueue.
Proof. solve_decision. Defined.
Global Instance UpdateQueue_eq_dec : EqDecision UpdateQueue.
Proof. solve_decision. Defined.
Global Instance Fiber_eq_dec : EqDecision Fiber.
Proof. solve_decision. Defined.

(** ** Outcomes *)

Inductive JsError :=
  | TypeError      (* a property read or written on [null] *)
  | Dangling       (* a reference outside the store: no JavaScript run has it *)
  | OutOfFuel.     (* the loop bound of the model ran out *)

Inductive result (A : Type) :=
  | Ok (a : A)
  | Throw (e : JsError).
Arguments Ok {A} a.
Arguments Throw {A} e.

Global Instance JsError_eq_dec : EqDecision JsError.
Proof. solve_decision. Defined.
Global Instance result_eq_dec {A} `{EqDecision A} : EqDecision (result A).
Proof. solve_decision. Defined.

(** State-and-error monad over a store [S]. *)
Definition M (S A : Type) : Type := S → result (A * S).

Definition ret {S A} (a : A) : M S A := λ s, Ok (a, s).
Definition bind {S A B} (m : M S A) (k : A → M S B) : M S B :=
  λ s, match m s with
       | Ok (a, s') => k a s'
       | Throw e => Throw e
       end.
Definition throw {S A} (e : JsError) : M S A := λ _, Throw e.
Definition get {S} : M S S := λ s, Ok (s, s).
Definition modify {S} (f : S → S) : M S unit := λ s, Ok (tt, f s).

Declare Scope js_scope.
Delimit Scope js_scope with js.
Notation "'let*' x ':=' m 'in' k" := (bind m (λ x, k))
  (at level 10, x pattern, m at level 100, k at level 200) : js_scope.
Notation "'do' m 'then' k" := (bind m (λ _, k))
  (at level 10, m at level 100, k at level 200) : js_scope.

(** Lift a lookup: a missing object is a dangling reference. *)
Definition deref {S A} (o : option A) : M S A :=
  match o with
  | Some a => ret a
  | None => throw Dangling
  end.

(** The store a computation ends in, when it does not throw. *)
Definition exec {S A} (m : M S A) (s : S) : option S :=
  match m s with
  | Ok (_, s') => Some s'
  | Throw _ => None
  end.

(** ** ReactUpdateQueue.ts *)

Module ReactUpdateQueue.

Local Open Scope js_scope.

(** The store of the update queue module. *)
Record Store := mkStore {
  fibers : gmap ref Fiber;
  queues : gmap ref UpdateQueue;
  shareds : gmap ref SharedQueue;
  updates : gmap ref Update;
}.

Global Instance Store_eq_dec : EqDecision Store.
Proof. solve_decision. Defined.

(** Modelled from the spec: [NoLanes] of ReactFiberLane is not part of the
    sources; the spec gives it as 0. *)
Definition NoLanes : Z := 0.
Definition UpdateState : nat := 0%nat.

(** *** Field reads and writes *)

Definition getFiber (r : ref) : M Store Fiber :=
  let* s := get in deref (fibers s !! r).
Definition getQueue (r : ref) : M Store UpdateQueue :=
  let* s := get in deref (queues s !! r).
Definition getShared (r : ref) : M Store SharedQueue :=
  let* s := get in deref (shareds s !! r).
Definition getUpdate (r : ref) : M Store Update :=
  let* s := get in deref (updates s !! r).

Definition putFiber (r : ref) (f : Fiber) : M Store unit :=
  modify (λ s, mkStore (<[r := f]> (fibers s)) (queues s) (shareds s) (updates s)).
Definition putQueue (r : ref) (q : UpdateQueue) : M Store unit :=
  modify (λ s, mkStore (fibers s) (<[r := q]> (queues s)) (shareds s) (updates s)).
Definition putShared (r : ref) (q : SharedQueue) : M Store unit :=
  modify (λ s, mkStore (fibers s) (queues s) (<[r := q]> (shareds s)) (updates s)).
Definition putUpdate (r : ref) (u : Update) : M Store unit :=
  modify (λ s, mkStore (fibers s) (queues s) (shareds s) (<[r := u]> (updates s))).

(** [u.next = n] *)
Definition set_next (u : ref) (n : option ref) : M Store unit :=
  let* o := getUpdate u in
  putUpdate u (mkUpdate (eventTime o) (tag o) (payload o) (callback o) n).

(** [sharedQueue.pending = p] *)
Definition set_pending (r : ref) (p : option ref) : M Store unit :=
  let* o := getShared r in
  putShared r (mkSharedQueue p (sq_lanes o)).

(** [queue.firstBaseUpdate = u] *)
Definition set_firstBaseUpdate (r : ref) (u : option ref) : M Store unit :=
  let* o := getQueue r in
  putQueue r (mkUpdateQueue (baseState o) u (lastBaseUpdate o) (shared o) (effects o)).

(** [queue.lastBaseUpdate = u] *)
Definition set_lastBaseUpdate (r : ref) (u : option ref) : M Store unit :=
  let* o := getQueue r in
  putQueue r (mkUpdateQueue (baseState o) (firstBaseUpdate o) u (shared o) (effects o)).

(** [queue.baseState = v] *)
Definition set_baseState (r : ref) (v : JsVal) : M Store unit :=
  let* o := getQueue r in
  putQueue r (mkUpdateQueue v (firstBaseUpdate o) (lastBaseUpdate o) (shared o) (effects o)).

(** [fiber.memoizedState = v] *)
Definition set_memoizedState (r : ref) (v : JsVal) : M Store unit :=
  let* o := getFiber r in
  putFiber r (mkFiber (f_tag o) (stateNode o) (return_ o) (sibling o) (alternate o)
                (lanes o) (childLanes o) (updateQueue o) v
                (pendingProps o) (memoizedProps o)).

(** [fiber.updateQueue = q] *)
Definition set_updateQueue (r : ref) (q : option ref) : M Store unit :=
  let* o := getFiber r in
  putFiber r (mkFiber (f_tag o) (stateNode o) (return_ o) (sibling o) (alternate o)
                (lanes o) (childLanes o) q (memoizedState o)
                (pendingProps o) (memoizedProps o)).

(** Allocation of a new object: the least reference above the domain. *)
Definition fresh {A} (m : gmap ref A) : ref :=
  S (map_fold (λ k _ acc, Nat.max k acc) 0%nat m).

(** *** initializeUpdateQueue *)
Definition initializeUpdateQueue (fiber : ref) : M Store ref :=
  let* f := getFiber fiber in
  let* s := get in
  let sq := fresh (shareds s) in
  let q := fresh (queues s) in
  do putShared sq (mkSharedQueue None NoLanes) then
  do putQueue q (mkUpdateQueue (memoizedState f) None None sq None) then
  do set_updateQueue fiber (Some q) then
  ret q.

(** *** createUpdate *)
Definition createUpdate : M Store ref :=
  let* s := get in
  let u := fresh (updates s) in
  do putUpdate u (mkUpdate 0 UpdateState JNull None None) then
  ret u.

(** *** enqueueUpdate *)
Definition enqueueUpdate (fiber update : ref) : M Store unit :=
  let* f := getFiber fiber in
  match updateQueue f with
  | None => ret tt
  | Some q =>
      let* updateQueue := getQueue q in
      let sharedQueue := shared updateQueue in
      let* sq := getShared sharedQueue in
      do match pending sq with
         | None => set_next update (Some update)
         | Some pending =>
             let* p := getUpdate pending in
             do set_next update (next p) then
             set_next pending (Some update)
         end then
      set_pending sharedQueue (Some update)
  end.

(** *** getStateFromUpdate

    The [switch] has the single case [UpdateState]; on any other tag the
    function falls off its end and returns [undefined]. *)
Definition getStateFromUpdate (workInProgress queue update : ref) (prevState : JsVal)
  : M Store JsVal :=
  let* u := getUpdate update in
  if decide (tag u = UpdateState) then
    let payload := payload u in
    let partialState := payload in
    if loose_null partialState then ret prevState
    else ret (JObj (assign ∅ [prevState; payload]))
  else ret JUndefined.

(** *** processUpdateQueue

    The first block (lines 105-150): detach the pending ring and hand it to
    the base lists.  It returns the values of the locals [firstBaseUpdate]
    and [lastBaseUpdate] that the second block reads. *)
Definition transferPending (workInProgress : ref) : M Store (ref * option ref * option ref) :=
  let* wip := getFiber workInProgress in
  match updateQueue wip with
  | None => throw TypeError
  | Some q =>
      let* queue := getQueue q in
      let firstBaseUpdate0 := firstBaseUpdate queue in
      let lastBaseUpdate0 := lastBaseUpdate queue in
      let* sq := getShared (shared queue) in
      let pendingQueue := pending sq in
      match pendingQueue with
      | None => ret (q, firstBaseUpdate0, lastBaseUpdate0)
      | Some lastPendingUpdate =>
          do set_pending (shared queue) None then
          let* lp := getUpdate lastPendingUpdate in
          let firstPendingUpdate := next lp in
          do set_next lastPendingUpdate None then
          let* firstBaseUpdate' :=
            match lastBaseUpdate0 with
            | None => ret firstPendingUpdate
            | Some l => let* lb := getUpdate l in ret (next lb)
            end in
          let lastBaseUpdate' := Some lastPendingUpdate in
          do match alternate wip with
          | None => ret tt
          | Some current =>
              let* cur := getFiber current in
              match updateQueue cur with
              | None => throw TypeError
              | Some currentQueue =>
                  let* cq := getQueue currentQueue in
                  let currentLastBaseUpdate := lastBaseUpdate cq in
                  if decide (currentLastBaseUpdate ≠ lastBaseUpdate') then
                    do match currentLastBaseUpdate with
                       | None => set_firstBaseUpdate currentQueue firstPendingUpdate
                       | Some c => set_next c firstPendingUpdate
                       end then
                    set_lastBaseUpdate currentQueue (Some lastPendingUpdate)
                  else ret tt
              end
          end then
          ret (q, firstBaseUpdate', lastBaseUpdate')
      end
  end.

(** The second block (lines 152-169): fold the head of the base list into
    the state and write the queue back. *)
Definition applyBaseUpdates (workInProgress queue : ref) (firstBaseUpdate : option ref)
  : M Store unit :=
  match firstBaseUpdate with
  | None => ret tt
  | Some update =>
      let* q := getQueue queue in
      let newState := baseState q in
      let newLastBaseUpdate : option ref := None in
      let newFirstBaseUpdate : option ref := None in
      let newBaseState := JNull in
      let* newState := getStateFromUpdate workInProgress queue update newState in
      let newBaseState :=
        if decide (newLastBaseUpdate = None) then newState else newBaseState in
      do set_baseState queue newBaseState then
      do set_firstBaseUpdate queue newFirstBaseUpdate then
      do set_lastBaseUpdate queue newLastBaseUpdate then
      set_memoizedState workInProgress newState
  end.

Definition processUpdateQueue (workInProgress : ref) : M Store unit :=
  let* (queue, firstBaseUpdate, _) := transferPending workInProgress in
  applyBaseUpdates workInProgress queue firstBaseUpdate.

(** A run of [enqueueUpdate] calls on one fiber, in list order. *)
Fixpoint enqueueUpdates (fiber : ref) (us : list ref) : M Store unit :=
  match us with
  | [] => ret tt
  | u :: us' => do enqueueUpdate fiber u then enqueueUpdates fiber us'
  end.

(** What the callers of the queue do [n] times over: create an update and
    enqueue it. *)
Fixpoint enqueueCreated (n : nat) (fiber : ref) : M Store (list ref) :=
  match n with
  | O => ret []
  | S n' =>
      let* update := createUpdate in
      do enqueueUpdate fiber update then
      let* rest := enqueueCreated n' fiber in
      ret (update :: rest)
  end.

(** *** The pending ring *)

(** [chain U l e]: in the update objects [U], each member of [l] links to
    the one after it, and the last one links to [e]. *)
Fixpoint chain (U : gmap ref Update) (l : list ref) (e : option ref) : Prop :=
  match l with
  | [] => True
  | u :: t =>
      next <$> U !! u = Some (from_option Some e (head t)) ∧ chain U t e
  end.

(** [ring s sq l]: the shared queue [sq] holds exactly the updates [l],
    oldest first, as a ring: [pending] is the last of them and the last
    links back to the first. *)
Definition ring (s : Store) (sq : ref) (l : list ref) : Prop :=
  ∃ o, shareds s !! sq = Some o ∧ pending o = last l ∧
       NoDup l ∧ chain (updates s) l (head l).

(** Follow [next] from [x] until [stop] is met, collecting the updates
    that are visited. *)
Fixpoint walk (U : gmap ref Update) (fuel : nat) (x stop : ref) : option (list ref) :=
  match fuel with
  | O => None
  | S n =>
      if decide (x = stop) then Some [x]
      else o ← U !! x; nx ← next o; (x ::.) <$> walk U n nx stop
  end.

(** The list a base queue holds: follow [next] from [x] to [null]. *)
Fixpoint to_null (U : gmap ref Update) (fuel : nat) (x : option ref) : option (list ref) :=
  match fuel, x with
  | _, None => Some []
  | O, Some _ => None
  | S n, Some r => o ← U !! r; (r ::.) <$> to_null U n (next o)
  end.

(** [appended_to s' cq cqueue first lastP]: in [s'] the list from [first]
    to [lastP] has been appended to the base list that the queue [cq] held
    when it was [cqueue]: after its old [lastBaseUpdate] when there was
    one, as its [firstBaseUpdate] otherwise; [lastP] is the new
    [lastBaseUpdate] and ends the list. *)
Definition appended_to (s' : Store) (cq : ref) (cqueue : UpdateQueue)
    (first : option ref) (lastP : ref) : Prop :=
  ∃ cqueue',
    queues s' !! cq = Some cqueue' ∧
    lastBaseUpdate cqueue' = Some lastP ∧
    next <$> updates s' !! lastP = Some None ∧
    match lastBaseUpdate cqueue with
    | None => firstBaseUpdate cqueue' = first
    | Some c =>
        firstBaseUpdate cqueue' = firstBaseUpdate cqueue ∧
        next <$> updates s' !! c = Some first
    end.

(** Computations that leave every shared queue as it is. *)
Definition keeps_shareds {A} (m : M Store A) : Prop :=
  ∀ s a s', m s = Ok (a, s') → shareds s' = shareds s.

(** *** Well-formed stores *)

(** A reference that is [null] or points into the store. *)
Definition allocated {A} (m : gmap ref A) (o : option ref) : Prop :=
  match o with
  | Some r => is_Some (m !! r)
  | None => True
  end.

Global Instance allocated_dec {A} (m : gmap ref A) o : Decision (allocated m o).
Proof. destruct o; simpl; apply _. Defined.

(** No object of the store refers to an object outside of it, as in every
    JavaScript heap. *)
Definition store_closed (s : Store) : Prop :=
  map_Forall (λ _ f, allocated (fibers s) (alternate f) ∧
                     allocated (queues s) (updateQueue f)) (fibers s) ∧
  map_Forall (λ _ q, is_Some (shareds s !! shared q) ∧
                     allocated (updates s) (firstBaseUpdate q) ∧
                     allocated (updates s) (lastBaseUpdate q)) (queues s) ∧
  map_Forall (λ _ sq, allocated (updates s) (pending sq)) (shareds s) ∧
  map_Forall (λ _ u, allocated (updates s) (next u)) (updates s).

Global Instance store_closed_dec s : Decision (store_closed s).
Proof. unfold store_closed. apply _. Defined.

End ReactUpdateQueue.

(** ** ReactFiberWorkLoop.ts *)

Module ReactFiberWorkLoop.

Import ReactUpdateQueue.
Local Open Scope js_scope.

(** *** Lanes *)

(** Modelled from the spec: the lane constants of ReactFiberLane are not
    part of the sources; the spec gives [NoLanes] as 0 and [SyncLane] as
    bit 0, and [NoLane] is the empty lane. *)
Definition NoLanes : Z := 0.
Definition NoLane : Z := 0.
Definition SyncLane : Z := 1.

(** Modelled from the spec: [mergeLanes] of ReactFiberLane is not part of
    the sources; the spec gives it as [mergeLanes(a, b) → a|b]. *)
Definition mergeLanes (a b : Z) : Z := Z.lor a b.

(** Modelled from the spec: [getHighestPriorityLane] of ReactFiberLane is
    not part of the sources; the spec gives it as the least-significant set
    bit of the lane set, or [NoLanes]. *)
Definition getHighestPriorityLane (lanes : Z) : Z := Z.land lanes (- lanes).

(** Modelled from the spec: the per-root lane bookkeeping that the Lane
    Model maintains ([pendingLanes], expired lanes, expiration times). *)
Record RootLanes := mkRootLanes {
  pendingLanes : Z;
  expiredLanes : Z;
  expirationTimes : list Z;
}.

(** [FiberRoot]: the fields the work loop reads or writes; the lane
    bookkeeping that only ReactFiberLane touches is grouped in [laneInfo]. *)
Record FiberRoot := mkFiberRoot {
  current : ref;
  finishedWork : option ref;
  finishedLanes : Z;
  callbackNode : option nat;
  callbackPriority : Z;
  laneInfo : RootLanes;
}.

(** *** The scheduler *)

(** Modelled from the spec: the priority bands of the cooperative-yield
    primitive (./Scheduler is not part of the sources). *)
Inductive SchedulerPriority :=
  | ImmediateSchedulerPriority
  | UserBlockingSchedulerPriority
  | NormalSchedulerPriority
  | IdleSchedulerPriority.

(** Calls that leave the module, in the order they are made. *)
Inductive Event :=
  | EvScheduleCallback (level : SchedulerPriority) (root : ref) (handle : nat)
  | EvCancelCallback (handle : nat)
  | EvScheduleSyncCallback (root : ref)
  | EvScheduleMicrotask
  | EvCollaborator (name : string) (target : ref).

Global Instance RootLanes_eq_dec : EqDecision RootLanes.
Proof. solve_decision. Defined.
Global Instance FiberRoot_eq_dec : EqDecision FiberRoot.
Proof. solve_decision. Defined.
Global Instance SchedulerPriority_eq_dec : EqDecision SchedulerPriority.
Proof. solve_decision. Defined.
Global Instance Event_eq_dec : EqDecision Event.
Proof. solve_decision. Defined.

(** The objects, the module-level variables of the work loop, and the
    trace of outgoing calls. *)
Record World := mkWorld {
  store : Store;
  roots : gmap ref FiberRoot;
  workInProgressRoot : option ref;
  workInProgress : option ref;
  currentEventTime : Z;
  workInProgressRootRenderLanes : Z;
  subtreeRenderLanes : Z;
  trace : list Event;
  next_handle : nat;
}.

Global Instance World_eq_dec : EqDecision World.
Proof. solve_decision. Defined.

(** The imports of the work loop that are not part of the sources. *)
Class Collaborators := {
  (* ReactWorkTags, ReactFiberLane *)
  HostRoot : nat;
  NoTimestamp : Z;
  getNextLanes : RootLanes → Z → Z;
  markRootUpdated : RootLanes → Z → Z → RootLanes;
  markStarvedLanesAsExpired : RootLanes → Z → RootLanes;
  markRootFinished : RootLanes → Z → RootLanes;
  includesBlockingLane : RootLanes → Z → bool;
  includesExpiredLane : RootLanes → Z → bool;
  includesSomeLane : Z → Z → bool;
  (* ReactEventPriorities *)
  DiscreteEventPriority : Z;
  ContinuousEventPriority : Z;
  DefaultEventPriority : Z;
  IdleEventPriority : Z;
  lanesToEventPriority : Z → Z;
  (* ReactFiber, ReactFiberBeginWork, ReactFiberCompleteWork,
     ReactFiberCommitWork *)
  createWorkInProgress : ref → JsVal → M World ref;
  beginWork : option ref → ref → Z → M World (option ref);
  completeWork : option ref → ref → M World (option ref);
  commitMutationEffects : ref → ref → M World unit;
}.

(** *** Reads and writes *)

Definition with_store (w : World) (s : Store) : World :=
  mkWorld s (roots w) (workInProgressRoot w) (workInProgress w) (currentEventTime w)
    (workInProgressRootRenderLanes w) (subtreeRenderLanes w) (trace w) (next_handle w).
Definition with_roots (w : World) (r : gmap ref FiberRoot) : World :=
  mkWorld (store w) r (workInProgressRoot w) (workInProgress w) (currentEventTime w)
    (workInProgressRootRenderLanes w) (subtreeRenderLanes w) (trace w) (next_handle w).
Definition with_workInProgressRoot (w : World) (r : option ref) : World :=
  mkWorld (store w) (roots w) r (workInProgress w) (currentEventTime w)
    (workInProgressRootRenderLanes w) (subtreeRenderLanes w) (trace w) (next_handle w).
Definition with_workInProgress (w : World) (f : option ref) : World :=
  mkWorld (store w) (roots w) (workInProgressRoot w) f (currentEventTime w)
    (workInProgressRootRenderLanes w) (subtreeRenderLanes w) (trace w) (next_handle w).
Definition with_currentEventTime (w : World) (t : Z) : World :=
  mkWorld (store w) (roots w) (workInProgressRoot w) (workInProgress w) t
    (workInProgressRootRenderLanes w) (subtreeRenderLanes w) (trace w) (next_handle w).
Definition with_workInProgressRootRenderLanes (w : World) (l : Z) : World :=
  mkWorld (store w) (roots w) (workInProgressRoot w) (workInProgress w) (currentEventTime w)
    l (subtreeRenderLanes w) (trace w) (next_handle w).
Definition with_subtreeRenderLanes (w : World) (l : Z) : World :=
  mkWorld (store w) (roots w) (workInProgressRoot w) (workInProgress w) (currentEventTime w)
    (workInProgressRootRenderLanes w) l (trace w) (next_handle w).
Definition with_trace (w : World) (t : list Event) (h : nat) : World :=
  mkWorld (store w) (roots w) (workInProgressRoot w) (workInProgress w) (currentEventTime w)
    (workInProgressRootRenderLanes w) (subtreeRenderLanes w) t h.

(** Run a computation of the update queue module on the objects. *)
Definition lift {A} (m : M Store A) : M World A :=
  λ w, match m (store w) with
       | Ok (a, s) => Ok (a, with_store w s)
       | Throw e => Throw e
       end.

Definition getFiberW (r : ref) : M World Fiber := lift (getFiber r).
Definition putFiberW (r : ref) (f : Fiber) : M World unit := lift (putFiber r f).

Definition getRoot (r : ref) : M World FiberRoot :=
  let* w := get in deref (roots w !! r).
Definition putRoot (r : ref) (o : FiberRoot) : M World unit :=
  modify (λ w, with_roots w (<[r := o]> (roots w))).

(** [fiber.lanes = v] *)
Definition set_lanes (r : ref) (v : Z) : M World unit :=
  let* o := getFiberW r in
  putFiberW r (mkFiber (f_tag o) (stateNode o) (return_ o) (sibling o) (alternate o)
                 v (childLanes o) (updateQueue o) (memoizedState o)
                 (pendingProps o) (memoizedProps o)).

(** [fiber.childLanes = v] *)
Definition set_childLanes (r : ref) (v : Z) : M World unit :=
  let* o := getFiberW r in
  putFiberW r (mkFiber (f_tag o) (stateNode o) (return_ o) (sibling o) (alternate o)
                 (lanes o) v (updateQueue o) (memoizedState o)
                 (pendingProps o) (memoizedProps o)).

(** [fiber.memoizedProps = v] *)
Definition set_memoizedProps (r : ref) (v : JsVal) : M World unit :=
  let* o := getFiberW r in
  putFiberW r (mkFiber (f_tag o) (stateNode o) (return_ o) (sibling o) (alternate o)
                 (lanes o) (childLanes o) (updateQueue o) (memoizedState o)
                 (pendingProps o) v).

(** [root.current = f] *)
Definition set_current (r : ref) (f : ref) : M World unit :=
  let* o := getRoot r in
  putRoot r (mkFiberRoot f (finishedWork o) (finishedLanes o) (callbackNode o)
               (callbackPriority o) (laneInfo o)).

(** [root.finishedWork = f] *)
Definition set_finishedWork (r : ref) (f : option ref) : M World unit :=
  let* o := getRoot r in
  putRoot r (mkFiberRoot (current o) f (finishedLanes o) (callbackNode o)
               (callbackPriority o) (laneInfo o)).

(** [root.finishedLanes = l] *)
Definition set_finishedLanes (r : ref) (l : Z) : M World unit :=
  let* o := getRoot r in
  putRoot r (mkFiberRoot (current o) (finishedWork o) l (callbackNode o)
               (callbackPriority o) (laneInfo o)).

(** [root.callbackNode = h] *)
Definition set_callbackNode (r : ref) (h : option nat) : M World unit :=
  let* o := getRoot r in
  putRoot r (mkFiberRoot (current o) (finishedWork o) (finishedLanes o) h
               (callbackPriority o) (laneInfo o)).

(** [root.callbackPriority = p] *)
Definition set_callbackPriority (r : ref) (p : Z) : M World unit :=
  let* o := getRoot r in
  putRoot r (mkFiberRoot (current o) (finishedWork o) (finishedLanes o) (callbackNode o)
               p (laneInfo o)).

(** A call into ReactFiberLane that updates the bookkeeping of [root]. *)
Definition update_laneInfo (r : ref) (f : RootLanes → RootLanes) : M World unit :=
  let* o := getRoot r in
  putRoot r (mkFiberRoot (current o) (finishedWork o) (finishedLanes o) (callbackNode o)
               (callbackPriority o) (f (laneInfo o))).

(** Modelled from the spec: the cooperative-yield primitive and the
    synchronous task queue are not part of the sources.  Each call is
    recorded in the trace; [scheduleCallback] returns a new handle. *)
Definition emit (e : Event) : M World unit :=
  modify (λ w, with_trace w (trace w ++ [e]) (next_handle w)).
Definition scheduleCallback (level : SchedulerPriority) (root : ref) : M World nat :=
  let* w := get in
  let h := next_handle w in
  do modify (λ w, with_trace w (trace w ++ [EvScheduleCallback level root h]) (S h)) then
  ret h.
Definition cancelCallback (h : nat) : M World unit := emit (EvCancelCallback h).
Definition scheduleSyncCallback (root : ref) : M World unit :=
  emit (EvScheduleSyncCallback root).
Definition scheduleMicrotask : M World unit := emit EvScheduleMicrotask.

Section work_loop.
Context `{C : Collaborators}.

(** [markRootUpdated(root, lane, eventTime)] *)
Definition markRootUpdated_ (root : ref) (lane eventTime : Z) : M World unit :=
  update_laneInfo root (λ li, markRootUpdated li lane eventTime).

(** [markStarvedLanesAsExpired(root, eventTime)] *)
Definition markStarvedLanesAsExpired_ (root : ref) (eventTime : Z) : M World unit :=
  update_laneInfo root (λ li, markStarvedLanesAsExpired li eventTime).

(** [markRootFinished(root, remainingLanes)] *)
Definition markRootFinished_ (root : ref) (remainingLanes : Z) : M World unit :=
  update_laneInfo root (λ li, markRootFinished li remainingLanes).

(** [getNextLanes(root, root === workInProgressRoot ?
    workInProgressRootRenderLanes : NoLanes)] *)
Definition nextLanesOf (root : ref) : M World Z :=
  let* w := get in
  let* r := getRoot root in
  ret (getNextLanes (laneInfo r)
         (if decide (Some root = workInProgressRoot w)
          then workInProgressRootRenderLanes w else NoLanes)).

(** The lanes that [ensureRootIsScheduled(root, t)] selects in world [w],
    where [r] is the root object on entry. *)
Definition scheduledLanes (w : World) (root : ref) (r : FiberRoot) (t : Z) : Z :=
  getNextLanes (markStarvedLanesAsExpired (laneInfo r) t)
    (if decide (Some root = workInProgressRoot w)
     then workInProgressRootRenderLanes w else NoLanes).

(** *** markUpdateLaneFromFiberToRoot

    The [while (parent !== null)] loop; [fuel] bounds its iterations. *)
Fixpoint bubbleChildLanes (fuel : nat) (lane : Z) (node : ref) (parent : option ref)
  : M World ref :=
  match parent with
  | None => ret node
  | Some p =>
      match fuel with
      | O => throw OutOfFuel
      | S fuel' =>
          let* pf := getFiberW p in
          do set_childLanes p (mergeLanes (childLanes pf) lane) then
          let* pf := getFiberW p in
          let alternate := alternate pf in
          do match alternate with
             | None => ret tt
             | Some a =>
                 let* af := getFiberW a in
                 set_childLanes a (mergeLanes (childLanes af) lane)
             end then
          let node := p in
          let* pf := getFiberW p in
          bubbleChildLanes fuel' lane node (return_ pf)
      end
  end.

Definition markUpdateLaneFromFiberToRoot (fuel : nat) (sourceFiber : ref) (lane : Z)
  : M World (option ref) :=
  let* sf := getFiberW sourceFiber in
  do set_lanes sourceFiber (mergeLanes (lanes sf) lane) then
  let* sf := getFiberW sourceFiber in
  let alternate := alternate sf in
  do match alternate with
     | None => ret tt
     | Some a =>
         let* af := getFiberW a in
         set_lanes a (mergeLanes (lanes af) lane)
     end then
  let* sf := getFiberW sourceFiber in
  let* node := bubbleChildLanes fuel lane sourceFiber (return_ sf) in
  let* nf := getFiberW node in
  if decide (f_tag nf = HostRoot) then ret (stateNode nf) else ret None.

(** *** ensureRootIsScheduled *)
Definition ensureRootIsScheduled (root : ref) (eventTime : Z) : M World unit :=
  let* r := getRoot root in
  let existingCallbackNode := callbackNode r in
  do markStarvedLanesAsExpired_ root eventTime then
  let* nextLanes := nextLanesOf root in
  if decide (nextLanes = NoLanes) then
    do match existingCallbackNode with
       | Some h => cancelCallback h
       | None => ret tt
       end then
    do set_callbackNode root None then
    set_callbackPriority root NoLane
  else
    let newCallbackPriority := getHighestPriorityLane nextLanes in
    let* r := getRoot root in
    let existingCallbackPriority := callbackPriority r in
    if decide (existingCallbackPriority = newCallbackPriority) then ret tt
    else
      do match existingCallbackNode with
         | Some h => cancelCallback h
         | None => ret tt
         end then
      let* newCallbackNode :=
        if decide (newCallbackPriority = SyncLane) then
          do scheduleSyncCallback root then
          do scheduleMicrotask then
          ret None
        else
          let p := lanesToEventPriority nextLanes in
          let schedulerPriorityLevel :=
            if decide (p = DiscreteEventPriority) then ImmediateSchedulerPriority
            else if decide (p = ContinuousEventPriority) then UserBlockingSchedulerPriority
            else if decide (p = DefaultEventPriority) then NormalSchedulerPriority
            else if decide (p = IdleEventPriority) then IdleSchedulerPriority
            else NormalSchedulerPriority in
          let* h := scheduleCallback schedulerPriorityLevel root in
          ret (Some h) in
      do set_callbackNode root newCallbackNode then
      set_callbackPriority root newCallbackPriority.

(** *** scheduleUpdateOnFiber

    Returns [null] when no root is found and [undefined] otherwise. *)
Definition scheduleUpdateOnFiber (fuel : nat) (fiber : ref) (lane eventTime : Z)
  : M World JsVal :=
  let* root := markUpdateLaneFromFiberToRoot fuel fiber lane in
  match root with
  | None => ret JNull
  | Some root =>
      do markRootUpdated_ root lane eventTime then
      do ensureRootIsScheduled root eventTime then
      ret JUndefined
  end.

(** *** The render loop *)

(** The [do ... while (completedWork !== null)] loop. *)
Fixpoint completeUnitOfWork (fuel : nat) (completedWork : ref) : M World unit :=
  match fuel with
  | O => throw OutOfFuel
  | S fuel' =>
      let* cf := getFiberW completedWork in
      let current := alternate cf in
      let returnFiber := return_ cf in
      let* next := completeWork current completedWork in
      match next with
      | Some n => modify (λ w, with_workInProgress w (Some n))
      | None =>
          let* cf := getFiberW completedWork in
          match sibling cf with
          | Some siblingFiber => modify (λ w, with_workInProgress w (Some siblingFiber))
          | None =>
              do modify (λ w, with_workInProgress w returnFiber) then
              match returnFiber with
              | None => ret tt
              | Some r => completeUnitOfWork fuel' r
              end
          end
      end
  end.

Definition performUnitOfWork (fuel : nat) (unitOfWork : ref) : M World unit :=
  let* uf := getFiberW unitOfWork in
  let current := alternate uf in
  let* w := get in
  let* next := beginWork current unitOfWork (subtreeRenderLanes w) in
  let* uf := getFiberW unitOfWork in
  do set_memoizedProps unitOfWork (pendingProps uf) then
  match next with
  | None => completeUnitOfWork fuel unitOfWork
  | Some n => modify (λ w, with_workInProgress w (Some n))
  end.

(** The [while (workInProgress !== null)] loop. *)
Fixpoint workLoopSync (fuel : nat) : M World unit :=
  let* w := get in
  match workInProgress w with
  | None => ret tt
  | Some unitOfWork =>
      match fuel with
      | O => throw OutOfFuel
      | S fuel' =>
          do performUnitOfWork fuel' unitOfWork then
          workLoopSync fuel'
      end
  end.

Definition prepareFreshStack (root : ref) (lanes : Z) : M World (option ref) :=
  do set_finishedWork root None then
  do set_finishedLanes root NoLanes then
  do modify (λ w, with_workInProgressRoot w (Some root)) then
  let* r := getRoot root in
  let* rootWorkInProgress := createWorkInProgress (current r) JNull in
  do modify (λ w, with_workInProgress w (Some rootWorkInProgress)) then
  do modify (λ w, with_subtreeRenderLanes w lanes) then
  do modify (λ w, with_workInProgressRootRenderLanes w lanes) then
  let* w := get in
  ret (workInProgressRoot w).

Definition renderRootSync (fuel : nat) (root : ref) (lanes : Z) : M World unit :=
  let* w := get in
  do (if decide (workInProgressRoot w ≠ Some root ∨
                 workInProgressRootRenderLanes w ≠ lanes)
      then do prepareFreshStack root lanes then ret tt
      else ret tt) then
  do workLoopSync fuel then
  do modify (λ w, with_workInProgressRoot w None) then
  modify (λ w, with_workInProgressRootRenderLanes w NoLanes).

(** [function renderRootConcurrent(root) {}] *)
Definition renderRootConcurrent (root : ref) : M World unit := ret tt.

(** *** Commit *)
Definition commitRootImpl (root : ref) : M World unit :=
  let* r := getRoot root in
  let finishedWork := finishedWork r in
  match finishedWork with
  | None => ret tt
  | Some finishedWork =>
      do set_finishedWork root None then
      do set_finishedLanes root NoLanes then
      do set_callbackNode root None then
      do set_callbackPriority root NoLane then
      let* fw := getFiberW finishedWork in
      let remainingLanes := mergeLanes (lanes fw) (childLanes fw) in
      do markRootFinished_ root remainingLanes then
      do modify (λ w, with_workInProgressRoot w None) then
      do modify (λ w, with_workInProgress w None) then
      do commitMutationEffects root finishedWork then
      set_current root finishedWork
  end.

Definition commitRoot (root : ref) : M World unit := commitRootImpl root.

Definition finishConcurrentRender (root : ref) : M World unit := commitRoot root.

(** *** Entry points of the scheduled work *)
Definition performSyncWorkOnRoot (fuel : nat) (root : ref) : M World JsVal :=
  let* r := getRoot root in
  let lanes := getNextLanes (laneInfo r) NoLanes in
  if negb (includesSomeLane lanes SyncLane) then ret JNull
  else
    do renderRootSync fuel root lanes then
    let* r := getRoot root in
    let* cur := getFiberW (current r) in
    let finishedWork := alternate cur in
    do set_finishedWork root finishedWork then
    ret JNull.

(** [shouldTimeSlice] of [performConcurrentWorkOnRoot]. *)
Definition shouldTimeSlice (li : RootLanes) (lanes : Z) (didTimeout : bool) : bool :=
  negb (includesBlockingLane li lanes) &&
  negb (includesExpiredLane li lanes) &&
  negb didTimeout.

Definition performConcurrentWorkOnRoot (fuel : nat) (root : ref) (didTimeout : bool)
  : M World JsVal :=
  do modify (λ w, with_currentEventTime w NoTimestamp) then
  let* lanes := nextLanesOf root in
  if decide (lanes = NoLanes) then ret JNull
  else
    let* r := getRoot root in
    do (if shouldTimeSlice (laneInfo r) lanes didTimeout
        then renderRootConcurrent root
        else renderRootSync fuel root lanes) then
    let* r := getRoot root in
    let* cur := getFiberW (current r) in
    let finishedWork := alternate cur in
    do set_finishedWork root finishedWork then
    do finishConcurrentRender root then
    ret JUndefined.

End work_loop.

(** *** Fiber trees and lane marks *)

(** [return_path F x anc top]: following [return] from [x] visits the
    ancestors [anc] in turn and stops at [top], whose [return] is [null]. *)
Fixpoint return_path (F : gmap ref Fiber) (x : ref) (anc : list ref) (top : ref) : Prop :=
  match anc with
  | [] => x = top ∧ return_ <$> F !! x = Some None
  | p :: anc' => return_ <$> F !! x = Some (Some p) ∧ return_path F p anc' top
  end.

(** Every [alternate] is an object of the store. *)
Definition alternates_allocated (F : gmap ref Fiber) : Prop :=
  ∀ x f a, F !! x = Some f → alternate f = Some a → is_Some (F !! a).

(** A fiber with its two lane fields replaced. *)
Definition with_lane_fields (f : Fiber) (l c : Z) : Fiber :=
  mkFiber (f_tag f) (stateNode f) (return_ f) (sibling f) (alternate f)
    l c (updateQueue f) (memoizedState f) (pendingProps f) (memoizedProps f).

(** [bumped lane F F']: [F'] is [F] except that [lane] has been merged into
    some [lanes] and [childLanes] fields. *)
Definition bumped (lane : Z) (F F' : gmap ref Fiber) : Prop :=
  ∀ x, match F !! x, F' !! x with
       | Some f, Some f' =>
           ∃ l c, f' = with_lane_fields f l c ∧
                  (l = lanes f ∨ l = mergeLanes (lanes f) lane) ∧
                  (c = childLanes f ∨ c = mergeLanes (childLanes f) lane)
       | None, None => True
       | _, _ => False
       end.

(** [lane] has been merged into the [childLanes], resp. [lanes], of [x]. *)
Definition child_done (lane : Z) (F F' : gmap ref Fiber) (x : ref) : Prop :=
  childLanes <$> F' !! x = (λ f, mergeLanes (childLanes f) lane) <$> F !! x.

Definition lanes_done (lane : Z) (F F' : gmap ref Fiber) (x : ref) : Prop :=
  lanes <$> F' !! x = (λ f, mergeLanes (lanes f) lane) <$> F !! x.

(** The world [w] with the fiber [r] overwritten. *)
Definition put_fiber (w : World) (r : ref) (f : Fiber) : World :=
  with_store w (mkStore (<[r := f]> (fibers (store w))) (queues (store w))
                  (shareds (store w)) (updates (store w))).

(** [w'] differs from [w] in fibers only: roots, module variables, trace
    and the other objects are the same. *)
Definition same_but_fibers (w w' : World) : Prop :=
  w' = with_store w (mkStore (fibers (store w')) (queues (store w))
                       (shareds (store w)) (updates (store w))).

(** Computations that change nothing but fibers. *)
Definition fibers_only {A} (m : M World A) : Prop :=
  ∀ w a w', m w = Ok (a, w') → same_but_fibers w w'.

(** The callback slot of a root is well formed when a callback is recorded
    only together with a priority. *)
Definition slot_wf (r : FiberRoot) : Prop :=
  callbackPriority r = NoLane → callbackNode r = None.

(** The calls of a trace that arm a callback. *)
Definition arming (e : Event) : bool :=
  match e with
  | EvScheduleCallback _ _ _ | EvScheduleSyncCallback _ => true
  | _ => false
  end.

Definition armed (tr : list Event) : list Event := List.filter arming tr.

End ReactFiberWorkLoop.

(** ** Sample objects

    Concrete stores and a small instance of the collaborators, on which the
    definitions above are run. *)

Module Sample.

Import ReactUpdateQueue ReactFiberWorkLoop.
Local Open Scope js_scope.

(** *** Update queues *)

Definition queue_fiber (q : option ref) (alt : option ref) (state : JsVal) : Fiber :=
  mkFiber 1 None None None alt 0 0 q state JNull JNull.

Definition detached (p : JsVal) : Update := mkUpdate 0 UpdateState p None None.

(** The example of the spec: a node with [baseState = {a:1}], an empty
    queue, and two detached updates with payloads [{b:2}] and [{a:3}]. *)
Definition spec_example : Store :=
  mkStore
    {[ 1%nat := queue_fiber (Some 1%nat) None (JObj {[ "a" := 1 ]}) ]}
    {[ 1%nat := mkUpdateQueue (JObj {[ "a" := 1 ]}) None None 1%nat None ]}
    {[ 1%nat := mkSharedQueue None 0 ]}
    {[ 1%nat := detached (JObj {[ "b" := 2 ]});
       2%nat := detached (JObj {[ "a" := 3 ]}) ]}.

Definition spec_example_run : M Store unit :=
  do enqueueUpdate 1%nat 1%nat then
  do enqueueUpdate 1%nat 2%nat then
  processUpdateQueue 1%nat.

(** A node whose base list holds update 10 and whose pending ring holds
    update 11. *)
Definition base_and_pending : Store :=
  mkStore
    {[ 1%nat := queue_fiber (Some 1%nat) None (JObj {[ "a" := 1 ]}) ]}
    {[ 1%nat := mkUpdateQueue (JObj {[ "a" := 1 ]}) (Some 10%nat) (Some 10%nat) 1%nat None ]}
    {[ 1%nat := mkSharedQueue (Some 11%nat) 0 ]}
    {[ 10%nat := mkUpdate 0 UpdateState (JObj {[ "x" := 1 ]}) None None;
       11%nat := mkUpdate 0 UpdateState (JObj {[ "y" := 2 ]}) None (Some 11%nat) ]}.

(** A node without an update queue. *)
Definition no_queue : Store :=
  mkStore {[ 1%nat := queue_fiber None None JNull ]} ∅ ∅ ∅.

(** A node (fiber 1) and its twin (fiber 2), each with a queue of its own
    over one shared pending ring that holds updates 1 and 2. *)
Definition twins : Store :=
  mkStore
    {[ 1%nat := queue_fiber (Some 1%nat) (Some 2%nat) (JObj {[ "a" := 1 ]});
       2%nat := queue_fiber (Some 2%nat) (Some 1%nat) (JObj {[ "a" := 1 ]}) ]}
    {[ 1%nat := mkUpdateQueue (JObj {[ "a" := 1 ]}) None None 1%nat None;
       2%nat := mkUpdateQueue (JObj {[ "a" := 1 ]}) None None 1%nat None ]}
    {[ 1%nat := mkSharedQueue (Some 2%nat) 0 ]}
    {[ 1%nat := mkUpdate 0 UpdateState (JObj {[ "b" := 2 ]}) None (Some 2%nat);
       2%nat := mkUpdate 0 UpdateState (JObj {[ "a" := 3 ]}) None (Some 1%nat) ]}.

(** A node (fiber 1) and its twin (fiber 2) that carry one and the same
    queue object, whose pending ring holds updates 1 and 2. *)
Definition shared_twins : Store :=
  mkStore
    {[ 1%nat := queue_fiber (Some 1%nat) (Some 2%nat) (JObj {[ "a" := 1 ]});
       2%nat := queue_fiber (Some 1%nat) (Some 1%nat) (JObj {[ "a" := 1 ]}) ]}
    {[ 1%nat := mkUpdateQueue (JObj {[ "a" := 1 ]}) None None 1%nat None ]}
    {[ 1%nat := mkSharedQueue (Some 2%nat) 0 ]}
    {[ 1%nat := mkUpdate 0 UpdateState (JObj {[ "b" := 2 ]}) None (Some 2%nat);
       2%nat := mkUpdate 0 UpdateState (JObj {[ "a" := 3 ]}) None (Some 1%nat) ]}.

(** *** A lane model and a stub reconciler *)

Definition sample_markRootUpdated (li : RootLanes) (lane eventTime : Z) : RootLanes :=
  mkRootLanes (Z.lor (pendingLanes li) lane) (expiredLanes li) (expirationTimes li).

Definition sample_markRootFinished (li : RootLanes) (remainingLanes : Z) : RootLanes :=
  mkRootLanes (Z.land (pendingLanes li) remainingLanes) (expiredLanes li)
    (expirationTimes li).

Definition sample_lanesToEventPriority (lanes : Z) : Z :=
  let lane := getHighestPriorityLane lanes in
  if bool_decide (lane = 0) then 536870912
  else if bool_decide (lane ≤ 1) then 1
  else if bool_decide (lane ≤ 4) then 4
  else if bool_decide (lane < 536870912) then 16
  else 536870912.

Definition sample_createWorkInProgress (current : ref) (pendingProps : JsVal) : M World ref :=
  let* cur := getFiberW current in
  match alternate cur with
  | Some a => ret a
  | None => throw TypeError
  end.

Definition sample_beginWork (current : option ref) (unitOfWork : ref) (lanes : Z)
  : M World (option ref) :=
  do emit (EvCollaborator "beginWork" unitOfWork) then ret None.

Definition sample_completeWork (current : option ref) (completedWork : ref)
  : M World (option ref) :=
  do emit (EvCollaborator "completeWork" completedWork) then ret None.

Definition sample_commitMutationEffects (root finishedWork : ref) : M World unit :=
  emit (EvCollaborator "commitMutationEffects" finishedWork).

Global Instance sample : Collaborators := {|
  HostRoot := 3%nat;
  NoTimestamp := -1;
  getNextLanes li wipLanes := getHighestPriorityLane (pendingLanes li);
  markRootUpdated := sample_markRootUpdated;
  markStarvedLanesAsExpired li currentTime := li;
  markRootFinished := sample_markRootFinished;
  includesBlockingLane li lanes := bool_decide (Z.land lanes 30 ≠ 0);
  includesExpiredLane li lanes := bool_decide (Z.land lanes (expiredLanes li) ≠ 0);
  includesSomeLane a b := bool_decide (Z.land a b ≠ 0);
  DiscreteEventPriority := 1;
  ContinuousEventPriority := 4;
  DefaultEventPriority := 16;
  IdleEventPriority := 536870912;
  lanesToEventPriority := sample_lanesToEventPriority;
  createWorkInProgress := sample_createWorkInProgress;
  beginWork := sample_beginWork;
  completeWork := sample_completeWork;
  commitMutationEffects := sample_commitMutationEffects;
|}.

Definition plain_fiber (tag : nat) (stateNode return_ alternate : option ref) : Fiber :=
  mkFiber tag stateNode return_ None alternate 0 0 None JNull JNull JNull.

(** A host root (fiber 1, twin 2) with a child 3 and a grandchild 4, and a
    detached subtree: fiber 6 under fiber 5, which is not a host root. *)
Definition tree : Store :=
  mkStore {[ 1%nat := plain_fiber 3 (Some 1%nat) None (Some 2%nat);
             2%nat := plain_fiber 3 (Some 1%nat) None (Some 1%nat);
             3%nat := plain_fiber 0 None (Some 1%nat) None;
             4%nat := plain_fiber 5 None (Some 3%nat) None;
             5%nat := plain_fiber 5 None None None;
             6%nat := plain_fiber 5 None (Some 5%nat) (Some 4%nat) ]}
    ∅ ∅ ∅.

Definition root_with (finished : option ref) (node : option nat) (priority pending : Z)
  : FiberRoot :=
  mkFiberRoot 1 finished 0 node priority (mkRootLanes pending 0 []).

Definition world_of (r : FiberRoot) : World :=
  mkWorld tree {[ 1%nat := r ]} None None 0 0 0 [] 0.

(** No callback armed, nothing pending. *)
Definition idle_world : World := world_of (root_with None None 0 0).

(** The world a computation ends in; the start world when it throws. *)
Definition run {A} (m : M World A) (w : World) : World :=
  match m w with
  | Ok (_, w') => w'
  | Throw _ => w
  end.

(** The world after a first [scheduleUpdateOnFiber] on fiber 4 at lane 16. *)
Definition once_scheduled : World :=
  Eval vm_compute in run (scheduleUpdateOnFiber 10 4%nat 16 100) idle_world.

(** The world in which a second such call enters [ensureRootIsScheduled]. *)
Definition second_marked : World :=
  Eval vm_compute in
    run (do markUpdateLaneFromFiberToRoot 10 4%nat 16 then
         markRootUpdated_ 1%nat 16 101) once_scheduled.

End Sample.

(** * More of the update queue and of the work loop *)

(** ** The fold of one update *)

Module QueueFacts.

Import ReactUpdateQueue.

(** The state that folding one update object into [prev] gives. *)
Definition folded (prev : JsVal) (u : Update) : JsVal :=
  if decide (tag u = UpdateState) then
    if loose_null (payload u) then prev
    else JObj (assign ∅ [prev; payload u])
  else JUndefined.

End QueueFacts.

(** ** Scheduling *)

Module WorkLoopFacts.

Import ReactUpdateQueue ReactFiberWorkLoop.
Local Open Scope js_scope.

Section defs.
Context `{C : Collaborators}.

(** The [switch] of [ensureRootIsScheduled] (lines 218-234): the scheduler
    priority for the event priority [p] of the selected lanes. *)
Definition schedulerPriorityLevel (p : Z) : SchedulerPriority :=
  if decide (p = DiscreteEventPriority) then ImmediateSchedulerPriority
  else if decide (p = ContinuousEventPriority) then UserBlockingSchedulerPriority
  else if decide (p = DefaultEventPriority) then NormalSchedulerPriority
  else if decide (p = IdleEventPriority) then IdleSchedulerPriority
  else NormalSchedulerPriority.

(** The [cancelCallback] call that [ensureRootIsScheduled] makes for the
    callback recorded in [r], if any. *)
Definition cancelled (r : FiberRoot) : list Event :=
  match callbackNode r with
  | Some h => [EvCancelCallback h]
  | None => []
  end.

(** *** requestEventTime

    The same in both revisions of the work loop.  [now] stands for the
    clock of ./Scheduler, which is not part of the sources: it may return
    anything. *)
Definition requestEventTime (now : World → Z) : M World Z :=
  let* w := get in
  if decide (currentEventTime w ≠ NoTimestamp) then ret (currentEventTime w)
  else
    do modify (λ w, with_currentEventTime w (now w)) then
    let* w := get in
    ret (currentEventTime w).

End defs.

(** The world in which the loop of a fresh render of [root] starts. *)
Definition fresh_stack (w : World) (root : ref) (r : FiberRoot) (a : ref) (lanes : Z)
  : World :=
  mkWorld (store w)
    (<[root := mkFiberRoot (current r) None NoLanes (callbackNode r)
                 (callbackPriority r) (laneInfo r)]> (roots w))
    (Some root) (Some a) (currentEventTime w) lanes lanes (trace w) (next_handle w).

End WorkLoopFacts.

(** ** Fiber trees

    The shape that the render loop walks: [return] and [sibling] links in
    the store, and the child that [beginWork] hands out. *)

Module FiberTree.

Import ReactUpdateQueue ReactFiberWorkLoop.

(** Sibling lists of fibers with their subtrees: [Fib r children rest] is
    the fiber [r], its children, and the siblings that follow it. *)
Inductive forest :=
  | Nil
  | Fib (r : ref) (children rest : forest).

Definition first (g : forest) : option ref :=
  match g with Nil => None | Fib r _ _ => Some r end.

Fixpoint refs (g : forest) : list ref :=
  match g with
  | Nil => []
  | Fib r c s => r :: refs c ++ refs s
  end.

(** The ancestors of a position, innermost first, each with the siblings
    that follow it. *)
Definition context := list (ref * forest).

Definition up (ctx : context) : option ref := fst <$> head ctx.

Definition context_refs (ctx : context) : list ref :=
  flat_map (λ e, refs (snd e)) ctx.

(** [unitOfWork.memoizedProps = unitOfWork.pendingProps] *)
Definition settle (f : Fiber) : Fiber :=
  mkFiber (f_tag f) (stateNode f) (return_ f) (sibling f) (alternate f)
    (lanes f) (childLanes f) (updateQueue f) (memoizedState f)
    (pendingProps f) (pendingProps f).

(** [F'] is [F] with the fibers of [X] settled. *)
Definition settled (X : list ref) (F F' : gmap ref Fiber) : Prop :=
  ∀ x, F' !! x = if decide (x ∈ X) then settle <$> F !! x else F !! x.

(** The world [w] after the calls [evs] went out and [workInProgress]
    became [wip]. *)
Definition moved (w : World) (evs : list Event) (wip : option ref) : World :=
  mkWorld (store w) (roots w) (workInProgressRoot w) wip (currentEventTime w)
    (workInProgressRootRenderLanes w) (subtreeRenderLanes w)
    (trace w ++ evs) (next_handle w).

(** [w'] is [w] after the fibers of [X] were settled, the calls [evs] went
    out and [workInProgress] became [wip]. *)
Definition rendered (X : list ref) (evs : list Event) (wip : option ref)
    (w w' : World) : Prop :=
  settled X (fibers (store w)) (fibers (store w')) ∧
  w' = moved (with_store w (mkStore (fibers (store w')) (queues (store w))
                              (shareds (store w)) (updates (store w)))) evs wip.

Section shape.
(** The child that [beginWork] hands out for a fiber, and the calls that
    [beginWork] and [completeWork] make for it. *)
Variable firstChild : ref → option ref.
Variables began completed : ref → list Event.

(** The forest [g] is laid out in [F] under the parent [p]: [return] and
    [sibling] of its fibers follow the forest, and so does [firstChild]. *)
Fixpoint laid (F : gmap ref Fiber) (p : option ref) (g : forest) : Prop :=
  match g with
  | Nil => True
  | Fib r c s =>
      (∃ f, F !! r = Some f ∧ return_ f = p ∧ sibling f = first s) ∧
      firstChild r = first c ∧
      laid F (Some r) c ∧
      laid F p s
  end.

Fixpoint laid_context (F : gmap ref Fiber) (ctx : context) : Prop :=
  match ctx with
  | [] => True
  | (p, s) :: ctx' =>
      (∃ f, F !! p = Some f ∧ return_ f = up ctx' ∧ sibling f = first s) ∧
      laid F (up ctx') s ∧
      laid_context F ctx'
  end.

(** Depth first: a fiber begins before its children, completes after
    them, and its siblings follow. *)
Fixpoint visit (g : forest) : list Event :=
  match g with
  | Nil => []
  | Fib r c s => began r ++ visit c ++ completed r ++ visit s
  end.

Definition unwind (ctx : context) : list Event :=
  flat_map (λ e, completed (fst e) ++ visit (snd e)) ctx.

(** Completing [u], whose following siblings are [s]: the calls made, and
    the position reached. *)
Fixpoint climb (ctx : context) (u : ref) (s : forest) : list Event * (forest * context) :=
  match s with
  | Fib _ _ _ => (completed u, (s, ctx))
  | Nil =>
      match ctx with
      | [] => (completed u, (Nil, []))
      | (p, sp) :: ctx' =>
          let '(evs, k) := climb ctx' p sp in (completed u ++ evs, k)
      end
  end.

(** One turn of the work loop at the fiber [r] with children [c] and
    following siblings [s]: the calls made after [beginWork], and the
    position reached. *)
Definition advance (ctx : context) (r : ref) (c s : forest)
  : list Event * (forest * context) :=
  match c with
  | Fib _ _ _ => ([], (c, (r, s) :: ctx))
  | Nil => climb ctx r s
  end.

End shape.
End FiberTree.

(** ** The earlier work loop

    The earlier revision of ReactFiberWorkLoop.ts, which follows
    ReactUpdateQueue.ts in the sources: scheduling an update there marks no
    lanes and always asks the scheduler for a callback of normal
    priority. *)

Module EarlierWorkLoop.

Import ReactUpdateQueue ReactFiberWorkLoop.
Local Open Scope js_scope.

Section earlier.
Context `{C : Collaborators}.

(** The [while (parent !== null)] loop of [markUpdateLaneFromFiberToRoot]
    (lines 260-263); [fuel] bounds its iterations. *)
Fixpoint climbToTop (fuel : nat) (node : ref) (parent : option ref) : M World ref :=
  match parent with
  | None => ret node
  | Some p =>
      match fuel with
      | O => throw OutOfFuel
      | S fuel' =>
          let node := p in
          let* pf := getFiberW p in
          climbToTop fuel' node (return_ pf)
      end
  end.

(** [markUpdateLaneFromFiberToRoot(sourceFiber)] (lines 256-269) *)
Definition markUpdateLaneFromFiberToRoot (fuel : nat) (sourceFiber : ref)
  : M World (option ref) :=
  let* sf := getFiberW sourceFiber in
  let* node := climbToTop fuel sourceFiber (return_ sf) in
  let* nf := getFiberW node in
  if decide (f_tag nf = HostRoot) then ret (stateNode nf) else ret None.

(** [ensureRootIsScheduled(root)] (lines 276-295); [NormalPriority] of
    SchedulerPriorities is [NormalSchedulerPriority] here. *)
Definition ensureRootIsScheduled (root : ref) : M World unit :=
  let schedulerPriorityLevel := NormalSchedulerPriority in
  let* newCallbackNode := scheduleCallback schedulerPriorityLevel root in
  set_callbackNode root (Some newCallbackNode).

(** [scheduleUpdateOnFiber(fiber, lane, eventTime?)] (lines 239-251):
    neither [lane] nor [eventTime] is used.  Returns [null] when no root is
    found and [undefined] otherwise. *)
Definition scheduleUpdateOnFiber (fuel : nat) (fiber : ref) (lane : Z)
    (eventTime : option Z) : M World JsVal :=
  let* root := markUpdateLaneFromFiberToRoot fuel fiber in
  match root with
  | None => ret JNull
  | Some root =>
      do ensureRootIsScheduled root then
      ret JUndefined
  end.

End earlier.

(** The world [w] after the earlier [ensureRootIsScheduled] ran on the
    root [root], whose object was [r]. *)
Definition scheduled (w : World) (root : ref) (r : FiberRoot) : World :=
  mkWorld (store w)
    (<[root := mkFiberRoot (current r) (finishedWork r) (finishedLanes r)
                 (Some (next_handle w)) (callbackPriority r) (laneInfo r)]> (roots w))
    (workInProgressRoot w) (workInProgress w) (currentEventTime w)
    (workInProgressRootRenderLanes w) (subtreeRenderLanes w)
    (trace w ++ [EvScheduleCallback NormalSchedulerPriority root (next_handle w)])
    (S (next_handle w)).

End EarlierWorkLoop.

(** ** More sample objects *)

Module Cases.

Import ReactUpdateQueue ReactFiberWorkLoop.
Local Open Scope js_scope.

(** A node with [baseState = {a:1}] whose pending ring holds the single
    update 1, with the given tag and payload. *)
Definition one_pending (tag : nat) (p : JsVal) : Store :=
  mkStore
    {[ 1%nat := Sample.queue_fiber (Some 1%nat) None (JObj {[ "a" := 1 ]}) ]}
    {[ 1%nat := mkUpdateQueue (JObj {[ "a" := 1 ]}) None None 1%nat None ]}
    {[ 1%nat := mkSharedQueue (Some 1%nat) 0 ]}
    {[ 1%nat := mkUpdate 0 tag p None (Some 1%nat) ]}.

(** A node (fiber 1) with a queue, whose twin (fiber 2) has none; the
    pending ring is [pend]. *)
Definition twin_without_queue (pend : option ref) : Store :=
  mkStore
    {[ 1%nat := Sample.queue_fiber (Some 1%nat) (Some 2%nat) JNull;
       2%nat := Sample.queue_fiber None (Some 1%nat) JNull ]}
    {[ 1%nat := mkUpdateQueue JNull None None 1%nat None ]}
    {[ 1%nat := mkSharedQueue pend 0 ]}
    {[ 1%nat := mkUpdate 0 UpdateState JNull None (Some 1%nat) ]}.

(** A node with [baseState = {a:1}] whose pending ring holds update 1
    with payload [{b:2}] and then update 2 with payload [{a:3}]. *)
Definition two_pending : Store :=
  mkStore
    {[ 1%nat := Sample.queue_fiber (Some 1%nat) None (JObj {[ "a" := 1 ]}) ]}
    {[ 1%nat := mkUpdateQueue (JObj {[ "a" := 1 ]}) None None 1%nat None ]}
    {[ 1%nat := mkSharedQueue (Some 2%nat) 0 ]}
    {[ 1%nat := mkUpdate 0 UpdateState (JObj {[ "b" := 2 ]}) None (Some 2%nat);
       2%nat := mkUpdate 0 UpdateState (JObj {[ "a" := 3 ]}) None (Some 1%nat) ]}.

(** A node with nothing pending whose base list holds update 10 with
    payload [{x:1}] and then update 11 with payload [{y:2}]. *)
Definition base_only : Store :=
  mkStore
    {[ 1%nat := Sample.queue_fiber (Some 1%nat) None (JObj {[ "a" := 1 ]}) ]}
    {[ 1%nat := mkUpdateQueue (JObj {[ "a" := 1 ]}) (Some 10%nat) (Some 11%nat) 1%nat None ]}
    {[ 1%nat := mkSharedQueue None 0 ]}
    {[ 10%nat := mkUpdate 0 UpdateState (JObj {[ "x" := 1 ]}) None (Some 11%nat);
       11%nat := mkUpdate 0 UpdateState (JObj {[ "y" := 2 ]}) None None ]}.

(** The clock of the samples. *)
Definition clock (w : World) : Z := 5.

(** [Sample.idle_world] outside of an event. *)
Definition no_event : World := with_currentEventTime Sample.idle_world (-1).

End Cases.

(** ** A reconciler that walks a tree already built *)

Module Walker.

Import ReactUpdateQueue ReactFiberWorkLoop FiberTree.
Local Open Scope js_scope.

(** The first child of each fiber of [tree]. *)
Definition firstChild (u : ref) : option ref :=
  match u with
  | 2%nat => Some 3%nat
  | 3%nat => Some 5%nat
  | _ => None
  end.

Definition began (u : ref) : list Event := [EvCollaborator "beginWork" u].
Definition completed (u : ref) : list Event := [EvCollaborator "completeWork" u].
Definition committed (root finishedWork : ref) : list Event :=
  [EvCollaborator "commitMutationEffects" finishedWork].

Definition walker_beginWork (current : option ref) (unitOfWork : ref) (lanes : Z)
  : M World (option ref) :=
  do emit (EvCollaborator "beginWork" unitOfWork) then ret (firstChild unitOfWork).

(** [Sample.sample] with [walker_beginWork] for [beginWork]. *)
Definition walker : Collaborators := {|
  HostRoot := 3%nat;
  NoTimestamp := -1;
  getNextLanes li wipLanes := getHighestPriorityLane (pendingLanes li);
  markRootUpdated := Sample.sample_markRootUpdated;
  markStarvedLanesAsExpired li currentTime := li;
  markRootFinished := Sample.sample_markRootFinished;
  includesBlockingLane li lanes := bool_decide (Z.land lanes 30 ≠ 0);
  includesExpiredLane li lanes := bool_decide (Z.land lanes (expiredLanes li) ≠ 0);
  includesSomeLane a b := bool_decide (Z.land a b ≠ 0);
  DiscreteEventPriority := 1;
  ContinuousEventPriority := 4;
  DefaultEventPriority := 16;
  IdleEventPriority := 536870912;
  lanesToEventPriority := Sample.sample_lanesToEventPriority;
  createWorkInProgress := Sample.sample_createWorkInProgress;
  beginWork := walker_beginWork;
  completeWork := Sample.sample_completeWork;
  commitMutationEffects := Sample.sample_commitMutationEffects;
|}.

Definition node (tag : nat) (stateNode return_ sibling alternate : option ref)
    (props : JsVal) : Fiber :=
  mkFiber tag stateNode return_ sibling alternate 0 0 None JNull props JNull.

(** The host root 1 and its twin 2, under which 3 and 4 are siblings and 5
    is the child of 3. *)
Definition tree : Store :=
  mkStore {[ 1%nat := node 3 (Some 1%nat) None None (Some 2%nat) JNull;
             2%nat := node 3 (Some 1%nat) None None (Some 1%nat) JNull;
             3%nat := node 5 None (Some 2%nat) (Some 4%nat) None (JObj {[ "id" := 3 ]});
             4%nat := node 5 None (Some 2%nat) None None (JObj {[ "id" := 4 ]});
             5%nat := node 6 None (Some 3%nat) None None (JObj {[ "id" := 5 ]}) ]}
    ∅ ∅ ∅.

Definition shape : forest :=
  Fib 2 (Fib 3 (Fib 5 Nil Nil) (Fib 4 Nil Nil)) Nil.

(** The root object with the given pending lanes. *)
Definition root_of (pending : Z) : FiberRoot :=
  mkFiberRoot 1 None 0 None 0 (mkRootLanes pending 0 []).

(** No render in progress. *)
Definition world (pending : Z) : World :=
  mkWorld tree {[ 1%nat := root_of pending ]} None None (-1) 0 0 [] 0.

(** A render that is about to begin fiber 2. *)
Definition rendering : World :=
  mkWorld tree {[ 1%nat := root_of 1 ]} (Some 1%nat) (Some 2%nat) (-1) 1 1 [] 0.

End Walker.

(** * Properties *)

Import ReactUpdateQueue ReactFiberWorkLoop.
Local Open Scope js_scope.

(** ** Running the monad *)

Lemma bind_Ok {S A B} (m : M S A) (k : A → M S B) s a s' :
  m s = Ok (a, s') → bind m k s = k a s'.
Proof. unfold bind. by intros ->. Qed.

Lemma bind_Throw {S A B} (m : M S A) (k : A → M S B) s e :
  m s = Throw e → bind m k s = Throw e.
Proof. unfold bind. by intros ->. Qed.

Lemma bind_inv {S A B} (m : M S A) (k : A → M S B) s r :
  bind m k s = Ok r → ∃ a s', m s = Ok (a, s') ∧ k a s' = Ok r.
Proof.
  unfold bind. destruct (m s) as [[a s']|e]; [|done]. intros H. by exists a, s'.
Qed.

(** ** The update queue *)

Section queue_steps.
Implicit Types (s : Store).

Lemma getFiber_Some s r f : fibers s !! r = Some f → getFiber r s = Ok (f, s).
Proof. unfold getFiber, bind, get, deref. by intros ->. Qed.

Lemma getQueue_Some s r q : queues s !! r = Some q → getQueue r s = Ok (q, s).
Proof. unfold getQueue, bind, get, deref. by intros ->. Qed.

Lemma getShared_Some s r q : shareds s !! r = Some q → getShared r s = Ok (q, s).
Proof. unfold getShared, bind, get, deref. by intros ->. Qed.

Lemma getUpdate_Some s r u : updates s !! r = Some u → getUpdate r s = Ok (u, s).
Proof. unfold getUpdate, bind, get, deref. by intros ->. Qed.

Lemma set_next_Some s r o n :
  updates s !! r = Some o →
  set_next r n s =
    Ok (tt, mkStore (fibers s) (queues s) (shareds s)
              (<[r := mkUpdate (eventTime o) (tag o) (payload o) (callback o) n]>
                 (updates s))).
Proof.
  intros H. unfold set_next. by rewrite (bind_Ok _ _ _ _ _ (getUpdate_Some _ _ _ H)).
Qed.

Lemma set_pending_Some s r o p :
  shareds s !! r = Some o →
  set_pending r p s =
    Ok (tt, mkStore (fibers s) (queues s)
              (<[r := mkSharedQueue p (sq_lanes o)]> (shareds s)) (updates s)).
Proof.
  intros H. unfold set_pending. by rewrite (bind_Ok _ _ _ _ _ (getShared_Some _ _ _ H)).
Qed.

Lemma set_firstBaseUpdate_Some s r o u :
  queues s !! r = Some o →
  set_firstBaseUpdate r u s =
    Ok (tt, mkStore (fibers s)
              (<[r := mkUpdateQueue (baseState o) u (lastBaseUpdate o) (shared o)
                        (effects o)]> (queues s))
              (shareds s) (updates s)).
Proof.
  intros H. unfold set_firstBaseUpdate.
  by rewrite (bind_Ok _ _ _ _ _ (getQueue_Some _ _ _ H)).
Qed.

Lemma set_lastBaseUpdate_Some s r o u :
  queues s !! r = Some o →
  set_lastBaseUpdate r u s =
    Ok (tt, mkStore (fibers s)
              (<[r := mkUpdateQueue (baseState o) (firstBaseUpdate o) u (shared o)
                        (effects o)]> (queues s))
              (shareds s) (updates s)).
Proof.
  intros H. unfold set_lastBaseUpdate.
  by rewrite (bind_Ok _ _ _ _ _ (getQueue_Some _ _ _ H)).
Qed.

Lemma set_baseState_Some s r o v :
  queues s !! r = Some o →
  set_baseState r v s =
    Ok (tt, mkStore (fibers s)
              (<[r := mkUpdateQueue v (firstBaseUpdate o) (lastBaseUpdate o) (shared o)
                        (effects o)]> (queues s))
              (shareds s) (updates s)).
Proof.
  intros H. unfold set_baseState. by rewrite (bind_Ok _ _ _ _ _ (getQueue_Some _ _ _ H)).
Qed.

Lemma set_memoizedState_Some s r o v :
  fibers s !! r = Some o →
  set_memoizedState r v s =
    Ok (tt, mkStore
              (<[r := mkFiber (f_tag o) (stateNode o) (return_ o) (sibling o) (alternate o)
                        (lanes o) (childLanes o) (updateQueue o) v
                        (pendingProps o) (memoizedProps o)]> (fibers s))
              (queues s) (shareds s) (updates s)).
Proof.
  intros H. unfold set_memoizedState.
  by rewrite (bind_Ok _ _ _ _ _ (getFiber_Some _ _ _ H)).
Qed.
End queue_steps.

(** *** Chains and rings *)

Section ring_facts.
Implicit Types (U : gmap nat Update) (l : list nat) (e : option nat).

Lemma chain_app U l1 l2 e :
  chain U (l1 ++ l2) e ↔ chain U l1 (from_option Some e (head l2)) ∧ chain U l2 e.
Proof.
  induction l1 as [|a l1 IH]; simpl.
  - tauto.
  - rewrite IH. destruct l1 as [|b l1]; simpl; tauto.
Qed.

Lemma chain_insert_notin U l e u o :
  u ∉ l → chain (<[u := o]> U) l e ↔ chain U l e.
Proof.
  induction l as [|a l IH]; simpl; [tauto|].
  intros Hu. apply not_elem_of_cons in Hu as [Hne Hu].
  rewrite lookup_insert_ne by done. rewrite IH by done. tauto.
Qed.

Lemma chain_allocated U l e u :
  chain U l e → u ∈ l → is_Some (U !! u).
Proof.
  induction l as [|a l IH]; simpl; intros Hc Hu.
  - by apply elem_of_nil in Hu.
  - destruct Hc as [Ha Hc]. apply elem_of_cons in Hu as [->|Hu]; [|by apply IH].
    destruct (U !! a); [by eexists|done].
Qed.

Lemma chain_last U l e p :
  chain U l e → last l = Some p → next <$> U !! p = Some e.
Proof.
  intros Hc Hl. apply last_Some in Hl as [l' ->].
  apply chain_app in Hc as [_ Hc]. simpl in Hc. by destruct Hc.
Qed.

Lemma walk_S U n x stop :
  walk U (S n) x stop =
    if decide (x = stop) then Some [x]
    else o ← U !! x; nx ← next o; (x ::.) <$> walk U n nx stop.
Proof. done. Qed.

Lemma chain_walk U l e h p :
  chain U l e → NoDup l → head l = Some h → last l = Some p →
  walk U (length l) h p = Some l.
Proof.
  revert h. induction l as [|a l IH]; intros h Hc Hnd Hh Hl; [done|].
  simpl in Hh. injection Hh as <-.
  change (length (a :: l)) with (S (length l)). rewrite walk_S.
  destruct l as [|b l].
  - simpl in Hl. injection Hl as <-. by rewrite decide_True.
  - apply NoDup_cons in Hnd as [Hnotin Hnd].
    change (last (a :: b :: l)) with (last (b :: l)) in Hl.
    rewrite decide_False; last first.
    { intros ->. apply Hnotin. by apply last_Some_elem_of. }
    destruct Hc as [Ha Hc]. simpl in Ha.
    destruct (U !! a) as [o|]; [|done]. simpl in Ha. injection Ha as Ha.
    cbn [mbind option_bind]. rewrite Ha. cbn [mbind option_bind].
    by rewrite (IH b Hc Hnd eq_refl Hl).
Qed.
End ring_facts.

(** One [enqueueUpdate] of an update that is not yet in the ring appends it
    to the ring. *)
Lemma enqueueUpdate_ring s f fiber q queue l u :
  fibers s !! f = Some fiber → updateQueue fiber = Some q →
  queues s !! q = Some queue →
  ring s (shared queue) l → u ∉ l → is_Some (updates s !! u) →
  ∃ s', enqueueUpdate f u s = Ok (tt, s') ∧
        ring s' (shared queue) (l ++ [u]) ∧
        fibers s' = fibers s ∧ queues s' = queues s ∧
        (∀ r, is_Some (updates s !! r) → is_Some (updates s' !! r)).
Proof.
  intros Hf Hq Hqueue (sq & Hsq & Hpend & Hnd & Hchain) Hu [uo Huo].
  unfold enqueueUpdate.
  rewrite (bind_Ok _ _ _ _ _ (getFiber_Some _ _ _ Hf)), Hq.
  rewrite (bind_Ok _ _ _ _ _ (getQueue_Some _ _ _ Hqueue)).
  rewrite (bind_Ok _ _ _ _ _ (getShared_Some _ _ _ Hsq)).
  destruct (last l) as [p|] eqn:Hlast.
  - rewrite Hpend.
    apply last_Some in Hlast as [l' ->].
    assert (Hp : is_Some (updates s !! p)).
    { eapply chain_allocated; [done|]. apply elem_of_app. right. by left. }
    destruct Hp as [po Hpo].
    assert (Hpu : p ≠ u).
    { intros ->. apply Hu, elem_of_app. right. by left. }
    assert (Hul' : u ∉ l').
    { intros Hin. apply Hu, elem_of_app. by left. }
    apply chain_app in Hchain as [Hc1 Hc2]. simpl in Hc2, Hc1. destruct Hc2 as [Hc2 _].
    rewrite Hpo in Hc2. simpl in Hc2. injection Hc2 as Hc2.
    erewrite bind_Ok; last first.
    { erewrite bind_Ok; [|by apply getUpdate_Some].
      erewrite bind_Ok; [|by apply set_next_Some].
      apply set_next_Some. simpl. by rewrite lookup_insert_ne. }
    erewrite set_pending_Some by done. simpl.
    eexists; split; [done|]. split; [|split; [done|split; [done|]]].
    + eexists. simpl. split; [by rewrite lookup_insert_eq|]. simpl.
      split; [by rewrite last_snoc|]. split.
      { apply NoDup_app. split; [done|]. split; [|apply NoDup_singleton].
        intros x Hx Hxu. apply list_elem_of_singleton in Hxu as ->. by apply Hu. }
      assert (Hhd : head ((l' ++ [p]) ++ [u]) = head (l' ++ [p])) by (by destruct l').
      rewrite Hhd. apply chain_app. simpl. split; [apply chain_app; simpl; split|].
      * rewrite !chain_insert_notin; [done|done|].
        apply NoDup_app in Hnd as (_ & Hx & _). intros Hin.
        by apply (Hx p Hin), list_elem_of_singleton.
      * by rewrite lookup_insert_eq.
      * rewrite lookup_insert_ne by done. rewrite lookup_insert_eq. simpl.
        by rewrite Hc2.
    + intros r [ro Hro]. simpl.
      destruct (decide (r = p)) as [->|]; [rewrite lookup_insert_eq; by eexists|].
      rewrite lookup_insert_ne by done.
      destruct (decide (r = u)) as [->|]; [rewrite lookup_insert_eq; by eexists|].
      rewrite lookup_insert_ne by done. by eexists.
  - rewrite Hpend. apply last_None in Hlast as ->.
    erewrite bind_Ok; [|by apply set_next_Some].
    erewrite set_pending_Some by done. simpl.
    eexists; split; [done|]. split; [|split; [done|split; [done|]]].
    + eexists. simpl. split; [by rewrite lookup_insert_eq|]. simpl.
      split; [done|]. split; [apply NoDup_singleton|].
      rewrite lookup_insert_eq. done.
    + intros r [ro Hro]. simpl.
      destruct (decide (r = u)) as [->|]; [rewrite lookup_insert_eq; by eexists|].
      rewrite lookup_insert_ne by done. by eexists.
Qed.

Lemma enqueueUpdates_ring us : ∀ s f fiber q queue l0,
  fibers s !! f = Some fiber → updateQueue fiber = Some q →
  queues s !! q = Some queue →
  ring s (shared queue) l0 → NoDup (l0 ++ us) →
  (∀ u, u ∈ us → is_Some (updates s !! u)) →
  ∃ s', enqueueUpdates f us s = Ok (tt, s') ∧ ring s' (shared queue) (l0 ++ us).
Proof.
  induction us as [|u us IH]; intros s f fiber q queue l0 Hf Hq Hqueue Hring Hnd Hus.
  - exists s. by rewrite app_nil_r.
  - destruct (enqueueUpdate_ring s f fiber q queue l0 u)
      as (s1 & Hrun & Hring1 & Hf1 & Hq1 & Hu1); try done.
    { apply NoDup_app in Hnd as (_ & Hnd & _). intros Hin. apply (Hnd u Hin). by left. }
    { apply Hus. by left. }
    destruct (IH s1 f fiber q queue (l0 ++ [u])) as (s2 & Hrun2 & Hring2).
    + by rewrite Hf1.
    + done.
    + by rewrite Hq1.
    + done.
    + by rewrite <-(assoc_L (++)).
    + intros v Hv. apply Hu1, Hus. by right.
    + exists s2. simpl. rewrite (bind_Ok _ _ _ _ _ Hrun).
      split; [done|]. by rewrite <-(assoc_L (++)) in Hring2.
Qed.

(** C5. The pending ring invariant is kept by [enqueueUpdate]: when the
    shared queue of a node holds the ring [l0] (empty after a processing
    pass) and the distinct update objects [us] are enqueued in turn, the
    calls succeed, the shared queue holds the ring [l0 ++ us],
    [shared.pending] is the update appended last, [pending.next] is the
    oldest update that has not been drained, and following [next] from
    there visits [l0 ++ us] in insertion order and ends at [pending]. *)
Theorem enqueueUpdate_keeps_pending_ring s f fiber q queue l0 us :
  fibers s !! f = Some fiber → updateQueue fiber = Some q →
  queues s !! q = Some queue →
  ring s (shared queue) l0 →
  NoDup (l0 ++ us) →
  (∀ u, u ∈ us → is_Some (updates s !! u)) →
  ∃ s' sq,
    enqueueUpdates f us s = Ok (tt, s') ∧
    ring s' (shared queue) (l0 ++ us) ∧
    shareds s' !! shared queue = Some sq ∧
    pending sq = last (l0 ++ us) ∧
    (us ≠ [] → pending sq = last us) ∧
    ∀ tail, pending sq = Some tail →
      ∃ oldest,
        head (l0 ++ us) = Some oldest ∧
        next <$> updates s' !! tail = Some (Some oldest) ∧
        walk (updates s') (length (l0 ++ us)) oldest tail = Some (l0 ++ us).
Proof.
  intros Hf Hq Hqueue Hring Hnd Hus.
  destruct (enqueueUpdates_ring us s f fiber q queue l0) as (s' & Hrun & Hring'); try done.
  pose proof Hring' as (sq & Hsq & Hpend & Hnd' & Hchain).
  exists s', sq. split; [done|]. split; [done|]. split; [done|]. split; [done|]. split.
  - intros Hne. rewrite Hpend. destruct us as [|u us _] using rev_ind; [done|].
    by rewrite (assoc_L (++)), !last_snoc.
  - intros tail Htail. rewrite Hpend in Htail.
    destruct (head (l0 ++ us)) as [oldest|] eqn:Hhd.
    + exists oldest. split; [done|]. split.
      * by apply (chain_last _ _ _ _ Hchain).
      * by apply (chain_walk _ _ _ _ _ Hchain).
    + apply head_None in Hhd. by rewrite Hhd in Htail.
Qed.

Lemma enqueueUpdate_keeps_pending_ring_witness :
  ∃ s', enqueueUpdates 1%nat [1; 2]%nat Sample.spec_example = Ok (tt, s') ∧
        ring s' 1%nat [1; 2]%nat.
Proof.
  destruct (enqueueUpdate_keeps_pending_ring Sample.spec_example 1%nat
              (Sample.queue_fiber (Some 1%nat) None (JObj {[ "a" := 1 ]})) 1%nat
              (mkUpdateQueue (JObj {[ "a" := 1 ]}) None None 1%nat None)
              [] [1; 2]%nat)
    as (s' & sq & Hrun & Hring & _).
  - reflexivity.
  - reflexivity.
  - reflexivity.
  - exists (mkSharedQueue None 0). split; [reflexivity|]. split; [reflexivity|].
    split; [constructor|exact I].
  - apply (bool_decide_unpack _). vm_compute. exact I.
  - apply Forall_forall. apply (bool_decide_unpack _). vm_compute. exact I.
  - exists s'. split; [exact Hrun|exact Hring].
Defined.

(** *** Created updates *)

Lemma fresh_above {A} (m : gmap nat A) k : is_Some (m !! k) → (k < fresh m)%nat.
Proof.
  unfold fresh. revert k.
  apply (map_fold_weak_ind (λ r m, ∀ k, is_Some (m !! k) → (k < S r)%nat)).
  - intros k [x Hx]. by rewrite lookup_empty in Hx.
  - intros i x m' r Hi IH k Hk.
    destruct (decide (k = i)) as [->|Hne]; [lia|].
    rewrite lookup_insert_ne in Hk by done. specialize (IH k Hk). lia.
Qed.

Lemma fresh_unallocated {A} (m : gmap nat A) : m !! fresh m = None.
Proof.
  destruct (m !! fresh m) eqn:H; [|done].
  assert (fresh m < fresh m)%nat by (apply fresh_above; by eexists). lia.
Qed.

(** A created update is a new object: it is in no ring. *)
Lemma createUpdate_new s sq l :
  ring s sq l →
  ∃ s', createUpdate s = Ok (fresh (updates s), s') ∧
        (fresh (updates s) ∉ l) ∧
        is_Some (updates s' !! fresh (updates s)) ∧
        fibers s' = fibers s ∧ queues s' = queues s ∧
        ring s' sq l.
Proof.
  intros (o & Hsq & Hpend & Hnd & Hchain).
  assert (Hnotin : fresh (updates s) ∉ l).
  { intros Hin. destruct (chain_allocated _ _ _ _ Hchain Hin) as [x Hx].
    by rewrite fresh_unallocated in Hx. }
  eexists. split; [unfold createUpdate, bind, get, putUpdate, modify, ret; reflexivity|].
  simpl. split; [done|].
  split; [rewrite lookup_insert_eq; by eexists|]. split; [done|]. split; [done|].
  exists o. simpl. split; [done|]. split; [done|]. split; [done|].
  by apply chain_insert_notin.
Qed.

(** Updates that are created and enqueued in turn always extend the ring:
    the distinctness that [enqueueUpdate] relies on holds by construction. *)
Lemma enqueueCreated_ring n : ∀ s f fiber q queue l0,
  fibers s !! f = Some fiber → updateQueue fiber = Some q →
  queues s !! q = Some queue →
  ring s (shared queue) l0 →
  ∃ s' us, enqueueCreated n f s = Ok (us, s') ∧ length us = n ∧
           ring s' (shared queue) (l0 ++ us).
Proof.
  induction n as [|n IH]; intros s f fiber q queue l0 Hf Hq Hqueue Hring.
  - exists s, []. by rewrite app_nil_r.
  - destruct (createUpdate_new s _ _ Hring) as (s1 & Hnew & Hnotin & Halloc & Hf1 & Hq1 & Hring1).
    destruct (enqueueUpdate_ring s1 f fiber q queue l0 (fresh (updates s)))
      as (s2 & Hrun & Hring2 & Hf2 & Hq2 & _); try done.
    { by rewrite Hf1. } { by rewrite Hq1. }
    destruct (IH s2 f fiber q queue (l0 ++ [fresh (updates s)]))
      as (s3 & us & Hrest & Hlen & Hring3); try done.
    { by rewrite Hf2, Hf1. } { by rewrite Hq2, Hq1. }
    exists s3, (fresh (updates s) :: us). simpl.
    rewrite (bind_Ok _ _ _ _ _ Hnew), (bind_Ok _ _ _ _ _ Hrun), (bind_Ok _ _ _ _ _ Hrest).
    split; [done|]. split; [by rewrite Hlen|].
    by rewrite <-(assoc_L (++)) in Hring3.
Qed.

(** *** Draining the ring *)

Section drain.

Lemma keeps_shareds_ret {A} (a : A) : keeps_shareds (ret a).
Proof. by intros s a' s' [= _ <-]. Qed.

Lemma keeps_shareds_throw {A} e : keeps_shareds (throw e : M Store A).
Proof. by intros s a s'. Qed.

Lemma keeps_shareds_bind {A B} (m : M Store A) (k : A → M Store B) :
  keeps_shareds m → (∀ a, keeps_shareds (k a)) → keeps_shareds (bind m k).
Proof.
  intros Hm Hk s b s' H. apply bind_inv in H as (a & s1 & H1 & H2).
  rewrite (Hk _ _ _ _ H2). by apply (Hm _ _ _ H1).
Qed.

Lemma keeps_shareds_deref {A} (f : Store → option A) :
  keeps_shareds (let* s := get in deref (f s)).
Proof.
  intros s a s'. unfold bind, get, deref. destruct (f s); [|done]. by intros [= _ <-].
Qed.

Lemma keeps_shareds_modify (f : Store → Store) :
  (∀ s, shareds (f s) = shareds s) → keeps_shareds (modify f).
Proof. intros Hf s a s' [= _ <-]. apply Hf. Qed.

Ltac keeps_shareds_step :=
  match goal with
  | |- keeps_shareds (bind _ _) => apply keeps_shareds_bind
  | |- ∀ _, keeps_shareds _ => intro
  | |- keeps_shareds (ret _) => apply keeps_shareds_ret
  | |- keeps_shareds (throw _) => apply keeps_shareds_throw
  | |- keeps_shareds (getFiber _) => apply keeps_shareds_deref
  | |- keeps_shareds (getQueue _) => apply keeps_shareds_deref
  | |- keeps_shareds (getUpdate _) => apply keeps_shareds_deref
  | |- keeps_shareds (putFiber _ _) => by apply keeps_shareds_modify
  | |- keeps_shareds (putQueue _ _) => by apply keeps_shareds_modify
  | |- keeps_shareds (putUpdate _ _) => by apply keeps_shareds_modify
  | |- keeps_shareds (set_next _ _) => unfold set_next
  | |- keeps_shareds (set_firstBaseUpdate _ _) => unfold set_firstBaseUpdate
  | |- keeps_shareds (set_lastBaseUpdate _ _) => unfold set_lastBaseUpdate
  | |- keeps_shareds (set_baseState _ _) => unfold set_baseState
  | |- keeps_shareds (set_memoizedState _ _) => unfold set_memoizedState
  | |- keeps_shareds (getStateFromUpdate _ _ _ _) => unfold getStateFromUpdate
  | |- keeps_shareds (match ?x with _ => _ end) => destruct x
  | |- keeps_shareds (let (_, _) := ?x in _) => destruct x
  end.

Lemma keeps_shareds_applyBaseUpdates wip q fb :
  keeps_shareds (applyBaseUpdates wip q fb).
Proof. unfold applyBaseUpdates. repeat keeps_shareds_step. Qed.

(** Whenever [processUpdateQueue] returns, the pending ring of the node is
    empty: the invariant holds again with no update in the ring. *)
Lemma processUpdateQueue_empties_ring s wip fiber q queue s' :
  fibers s !! wip = Some fiber → updateQueue fiber = Some q →
  queues s !! q = Some queue →
  processUpdateQueue wip s = Ok (tt, s') →
  ring s' (shared queue) [].
Proof.
  intros Hf Hq Hqueue Hrun. unfold processUpdateQueue in Hrun.
  apply bind_inv in Hrun as ([[q' fb] lb] & s1 & Hrun & Hfold).
  apply keeps_shareds_applyBaseUpdates in Hfold.
  unfold transferPending in Hrun.
  rewrite (bind_Ok _ _ _ _ _ (getFiber_Some _ _ _ Hf)), Hq in Hrun.
  rewrite (bind_Ok _ _ _ _ _ (getQueue_Some _ _ _ Hqueue)) in Hrun.
  apply bind_inv in Hrun as (sq & s0 & Hsq & Hrun).
  unfold getShared, bind, get, deref in Hsq.
  destruct (shareds s !! shared queue) as [sq'|] eqn:Hsq'; [|done].
  injection Hsq as -> <-.
  destruct (pending sq) as [lastP|] eqn:Hpend.
  - rewrite (bind_Ok _ _ _ _ _ (set_pending_Some _ _ _ _ Hsq')) in Hrun.
    assert (Hkeep : shareds s1 =
                    <[shared queue := mkSharedQueue None (sq_lanes sq)]> (shareds s)).
    { match type of Hrun with
      | ?m _ = Ok _ =>
          assert (Hk : keeps_shareds m) by (repeat keeps_shareds_step)
      end.
      by apply Hk in Hrun. }
    exists (mkSharedQueue None (sq_lanes sq)).
    rewrite Hfold, Hkeep, lookup_insert_eq.
    split; [done|]. split; [done|]. split; [constructor|done].
  - injection Hrun as _ _ _ <-. exists sq. rewrite Hfold.
    split; [done|]. split; [done|]. split; [constructor|done].
Qed.
End drain.

(** *** Closed stores *)

Lemma allocated_insert {A} (m : gmap nat A) o k v :
  allocated m o → allocated (<[k := v]> m) o.
Proof.
  destruct o as [r|]; simpl; [|done]. intros H.
  destruct (decide (k = r)) as [->|]; [rewrite lookup_insert_eq; by eexists|].
  by rewrite lookup_insert_ne.
Qed.

Section closed.
Variable s : Store.
Hypothesis Hclosed : store_closed s.

Lemma closed_fiber r f :
  fibers s !! r = Some f →
  allocated (fibers s) (alternate f) ∧ allocated (queues s) (updateQueue f).
Proof. destruct Hclosed as (H & _). apply (map_Forall_lookup_1 _ _ _ _ H). Qed.

Lemma closed_queue r q :
  queues s !! r = Some q →
  is_Some (shareds s !! shared q) ∧ allocated (updates s) (firstBaseUpdate q) ∧
  allocated (updates s) (lastBaseUpdate q).
Proof. destruct Hclosed as (_ & H & _). apply (map_Forall_lookup_1 _ _ _ _ H). Qed.

Lemma closed_shared r sq :
  shareds s !! r = Some sq → allocated (updates s) (pending sq).
Proof. destruct Hclosed as (_ & _ & H & _). apply (map_Forall_lookup_1 _ _ _ _ H). Qed.

Lemma closed_update r u :
  updates s !! r = Some u → allocated (updates s) (next u).
Proof. destruct Hclosed as (_ & _ & _ & H). apply (map_Forall_lookup_1 _ _ _ _ H). Qed.
End closed.

(** *** processUpdateQueue *)

(** The first block on a node that has a twin with a queue of its own. *)
Lemma transferPending_twin s wip fiber q queue sq lastP cur cfiber cq cqueue :
  store_closed s →
  fibers s !! wip = Some fiber → updateQueue fiber = Some q →
  queues s !! q = Some queue →
  shareds s !! shared queue = Some sq → pending sq = Some lastP →
  alternate fiber = Some cur → fibers s !! cur = Some cfiber →
  updateQueue cfiber = Some cq → queues s !! cq = Some cqueue →
  lastBaseUpdate cqueue ≠ Some lastP →
  ∃ lp s1 fb,
    updates s !! lastP = Some lp ∧
    transferPending wip s = Ok ((q, fb, Some lastP), s1) ∧
    fibers s1 = fibers s ∧
    pending <$> shareds s1 !! shared queue = Some None ∧
    allocated (updates s1) fb ∧
    queues s1 !! cq =
      Some (mkUpdateQueue (baseState cqueue)
              (match lastBaseUpdate cqueue with
               | None => next lp
               | Some _ => firstBaseUpdate cqueue
               end)
              (Some lastP) (shared cqueue) (effects cqueue)) ∧
    (∀ r, r ≠ cq → queues s1 !! r = queues s !! r) ∧
    (∀ c, lastBaseUpdate cqueue = Some c → next <$> updates s1 !! c = Some (next lp)) ∧
    next <$> updates s1 !! lastP = Some None.
Proof.
  intros Hcl Hwip Hq Hqueue Hsq Hpend Halt Hcur Hcq Hcqueue Hne.
  pose proof (closed_shared _ Hcl _ _ Hsq) as Hlp. rewrite Hpend in Hlp.
  destruct Hlp as [lp Hlp].
  pose proof (closed_update _ Hcl _ _ Hlp) as Hfirst.
  pose proof (closed_queue _ Hcl _ _ Hqueue) as (_ & _ & Hlast).
  pose proof (closed_queue _ Hcl _ _ Hcqueue) as (_ & _ & Hclast).
  set (lp' := mkUpdate (eventTime lp) (tag lp) (payload lp) (callback lp) None).
  set (U1 := <[lastP := lp']> (updates s)).
  set (s0 := mkStore (fibers s) (queues s)
               (<[shared queue := mkSharedQueue None (sq_lanes sq)]> (shareds s)) U1).
  (* the value of the local firstBaseUpdate after line 126 *)
  assert (∃ fb, (match lastBaseUpdate queue with
                 | None => ret (next lp)
                 | Some l => let* lb := getUpdate l in ret (next lb)
                 end : M Store (option nat)) s0 = Ok (fb, s0)
                ∧ allocated U1 fb) as (fb & Hfb & Hfballoc).
  { destruct (lastBaseUpdate queue) as [l|].
    - destruct (decide (l = lastP)) as [->|Hl].
      + exists None. split; [|done].
        erewrite bind_Ok; [|apply getUpdate_Some; apply lookup_insert_eq]. done.
      + destruct Hlast as [lb Hlb]. exists (next lb). split.
        * erewrite bind_Ok; [done|]. apply getUpdate_Some. simpl.
          unfold U1. rewrite lookup_insert_ne by done. exact Hlb.
        * apply allocated_insert. by apply (closed_update _ Hcl _ _ Hlb).
    - exists (next lp). split; [done|]. by apply allocated_insert. }
  exists lp. unfold transferPending.
  rewrite (bind_Ok _ _ _ _ _ (getFiber_Some _ _ _ Hwip)), Hq.
  rewrite (bind_Ok _ _ _ _ _ (getQueue_Some _ _ _ Hqueue)).
  rewrite (bind_Ok _ _ _ _ _ (getShared_Some _ _ _ Hsq)), Hpend.
  rewrite (bind_Ok _ _ _ _ _ (set_pending_Some _ _ _ _ Hsq)).
  erewrite bind_Ok; [|by apply getUpdate_Some].
  erewrite bind_Ok; [|by apply set_next_Some].
  cbn [fibers queues shareds updates]. fold lp' U1 s0.
  rewrite (bind_Ok _ _ _ _ _ Hfb), Halt. clear Hfb. subst s0.
  destruct (lastBaseUpdate cqueue) as [c|] eqn:Hc.
  - destruct Hclast as [co Hco].
    assert (Hcne : c ≠ lastP) by congruence.
    assert (HcU1 : U1 !! c = Some co) by (unfold U1; by rewrite lookup_insert_ne).
    erewrite bind_Ok; last first.
    { erewrite bind_Ok; [|by apply getFiber_Some]. rewrite Hcq.
      erewrite bind_Ok; [|by apply getQueue_Some]. cbv beta zeta. rewrite Hc.
      rewrite decide_True by done.
      erewrite bind_Ok; [|by apply set_next_Some].
      by apply set_lastBaseUpdate_Some. }
    eexists _, fb. split; [done|]. split; [done|]. cbn [fibers queues shareds updates].
    split; [done|]. split; [by rewrite lookup_insert_eq|].
    split; [by apply allocated_insert|].
    split; [by rewrite lookup_insert_eq|].
    split; [intros r Hr; by rewrite lookup_insert_ne|].
    split.
    + intros c' [= <-]. by rewrite lookup_insert_eq.
    + rewrite lookup_insert_ne by done. unfold U1. by rewrite lookup_insert_eq.
  - erewrite bind_Ok; last first.
    { erewrite bind_Ok; [|by apply getFiber_Some]. rewrite Hcq.
      erewrite bind_Ok; [|by apply getQueue_Some]. cbv beta zeta. rewrite Hc.
      rewrite decide_True by done.
      erewrite bind_Ok; [|by apply set_firstBaseUpdate_Some].
      apply set_lastBaseUpdate_Some. cbn [queues]. apply lookup_insert_eq. }
    eexists _, fb. split; [done|]. split; [done|]. cbn [fibers queues shareds updates].
    split; [done|]. split; [by rewrite lookup_insert_eq|].
    split; [done|].
    split; [by rewrite insert_insert_eq, lookup_insert_eq|].
    split; [intros r Hr; by rewrite !lookup_insert_ne|].
    split; [done|]. unfold U1. by rewrite lookup_insert_eq.
Qed.

Lemma getStateFromUpdate_total s wip q u prev o :
  updates s !! u = Some o →
  ∃ v, getStateFromUpdate wip q u prev s = Ok (v, s).
Proof.
  intros Hu. unfold getStateFromUpdate.
  rewrite (bind_Ok _ _ _ _ _ (getUpdate_Some _ _ _ Hu)).
  destruct (decide (tag o = UpdateState)); [|by eexists].
  destruct (loose_null (payload o)); by eexists.
Qed.

(** The second block writes the queue of the node and its memoized state,
    and nothing else. *)
Lemma applyBaseUpdates_frame s wip q fb fiber queue :
  fibers s !! wip = Some fiber →
  queues s !! q = Some queue →
  allocated (updates s) fb →
  ∃ s2, applyBaseUpdates wip q fb s = Ok (tt, s2) ∧
        updates s2 = updates s ∧ shareds s2 = shareds s ∧
        (∀ r, r ≠ q → queues s2 !! r = queues s !! r).
Proof.
  intros Hwip Hq Hfb. unfold applyBaseUpdates.
  destruct fb as [u|]; [|by exists s].
  destruct Hfb as [o Hu].
  rewrite (bind_Ok _ _ _ _ _ (getQueue_Some _ _ _ Hq)).
  destruct (getStateFromUpdate_total s wip q u (baseState queue) o Hu) as [v Hv].
  rewrite (bind_Ok _ _ _ _ _ Hv). rewrite decide_True by done.
  erewrite bind_Ok; [|by apply set_baseState_Some].
  erewrite bind_Ok; [|apply set_firstBaseUpdate_Some; cbn [queues]; apply lookup_insert_eq].
  erewrite bind_Ok; [|apply set_lastBaseUpdate_Some; cbn [queues]; apply lookup_insert_eq].
  erewrite set_memoizedState_Some by done.
  eexists. split; [done|]. cbn [fibers queues shareds updates].
  split; [done|]. split; [done|]. intros r Hr. by rewrite !lookup_insert_ne.
Qed.

(** C3, as the code has it.  Let a node have a non-null pending ring with
    tail [lastP], and an alternate [cur] whose queue [cq] is an object of
    its own, not the queue object [q] of the node (the two queues of lines
    131-135), and whose [lastBaseUpdate] differs from the node's
    [lastBaseUpdate] at the time of the comparison (line 141: by then the
    local [lastBaseUpdate] is the pending tail [lastP], line 127).  Then
    the first block of [processUpdateQueue] detaches the pending list, from
    [lastP.next] to [lastP], clears [shared.pending], and appends that same
    list to the base list of the alternate: [firstBaseUpdate] is set to its
    first update when that base list was empty, otherwise the old
    [lastBaseUpdate] links to it, and [lastBaseUpdate] is the pending tail.
    The whole call returns, and the alternate still holds the list, from
    the same first update to the same tail, in the store it returns. *)
Theorem processUpdateQueue_shares_pending_with_alternate
    s wip fiber q queue sq lastP cur cfiber cq cqueue :
  store_closed s →
  fibers s !! wip = Some fiber → updateQueue fiber = Some q →
  queues s !! q = Some queue →
  shareds s !! shared queue = Some sq → pending sq = Some lastP →
  alternate fiber = Some cur → fibers s !! cur = Some cfiber →
  updateQueue cfiber = Some cq → queues s !! cq = Some cqueue →
  cq ≠ q →
  lastBaseUpdate cqueue ≠ Some lastP →
  ∃ lp s1 fb s',
    updates s !! lastP = Some lp ∧
    transferPending wip s = Ok ((q, fb, Some lastP), s1) ∧
    pending <$> shareds s1 !! shared queue = Some None ∧
    appended_to s1 cq cqueue (next lp) lastP ∧
    processUpdateQueue wip s = Ok (tt, s') ∧
    pending <$> shareds s' !! shared queue = Some None ∧
    appended_to s' cq cqueue (next lp) lastP.
Proof.
  intros Hcl Hwip Hq Hqueue Hsq Hpend Halt Hcur Hcq Hcqueue Hqne Hne.
  destruct (transferPending_twin s wip fiber q queue sq lastP cur cfiber cq cqueue)
    as (lp & s1 & fb & Hlp & Hrun & Hfib & Hsh & Hfb & Hcq1 & Hother & Hlink & Hcut);
    try done.
  assert (Hq1 : is_Some (queues s1 !! q)).
  { rewrite Hother by done. by eexists. }
  destruct Hq1 as [queue1 Hq1].
  destruct (applyBaseUpdates_frame s1 wip q fb fiber queue1)
    as (s2 & Hrun2 & Hupd & Hshd & Hqs); try done.
  { by rewrite Hfib. }
  assert (Happ : appended_to s1 cq cqueue (next lp) lastP).
  { eexists. split; [exact Hcq1|]. split; [done|]. split; [done|].
    destruct (lastBaseUpdate cqueue) as [c|]; [|done]. split; [done|]. by apply Hlink. }
  exists lp, s1, fb, s2. split; [done|]. split; [done|]. split; [done|].
  split; [done|]. split.
  { unfold processUpdateQueue. by rewrite (bind_Ok _ _ _ _ _ Hrun). }
  split; [by rewrite Hshd|].
  destruct Happ as (cqueue' & H1 & H2 & H3 & H4).
  exists cqueue'. rewrite Hqs by done. rewrite Hupd. done.
Qed.

Lemma processUpdateQueue_shares_pending_with_alternate_witness :
  ∃ s' cqueue',
    processUpdateQueue 1%nat Sample.twins = Ok (tt, s') ∧
    queues s' !! 2%nat = Some cqueue' ∧
    firstBaseUpdate cqueue' = Some 1%nat ∧
    lastBaseUpdate cqueue' = Some 2%nat.
Proof.
  destruct (processUpdateQueue_shares_pending_with_alternate Sample.twins 1%nat
              (Sample.queue_fiber (Some 1%nat) (Some 2%nat) (JObj {[ "a" := 1 ]})) 1%nat
              (mkUpdateQueue (JObj {[ "a" := 1 ]}) None None 1%nat None)
              (mkSharedQueue (Some 2%nat) 0) 2%nat 2%nat
              (Sample.queue_fiber (Some 2%nat) (Some 1%nat) (JObj {[ "a" := 1 ]})) 2%nat
              (mkUpdateQueue (JObj {[ "a" := 1 ]}) None None 1%nat None))
    as (lp & s1 & fb & s' & Hlp & _ & _ & _ & Hrun & _ & Happ).
  - apply (bool_decide_unpack _). vm_compute. exact I.
  - reflexivity.
  - reflexivity.
  - reflexivity.
  - reflexivity.
  - reflexivity.
  - reflexivity.
  - reflexivity.
  - reflexivity.
  - reflexivity.
  - discriminate.
  - discriminate.
  - destruct Happ as (cqueue' & Hcq & Hlast & _ & Hfirst).
    exists s', cqueue'. split; [exact Hrun|]. split; [exact Hcq|].
    split; [|exact Hlast]. simpl in Hfirst. rewrite Hfirst.
    vm_compute in Hlp. injection Hlp as <-. reflexivity.
Defined.

(** C3, as stated, fails: on [Sample.shared_twins] the node has a non-null
    alternate whose queue has a [lastBaseUpdate] ([null]) other than the
    node's at the comparison (the pending tail, update 2), but that queue
    is the queue object of the node as well.  The first block appends the
    pending list to it, and the second block (lines 165-167) empties its
    base list again: when the call returns the twin has neither a base
    list nor a pending ring, and its memoized state is the old one, so
    both updates are lost to it. *)
Lemma processUpdateQueue_twin_with_shared_queue_loses_pending :
  ∃ s1 s',
    alternate <$> fibers Sample.shared_twins !! 1%nat = Some (Some 2%nat) ∧
    updateQueue <$> fibers Sample.shared_twins !! 2%nat = Some (Some 1%nat) ∧
    lastBaseUpdate <$> queues Sample.shared_twins !! 1%nat = Some None ∧
    transferPending 1%nat Sample.shared_twins
      = Ok ((1%nat, Some 1%nat, Some 2%nat), s1) ∧
    firstBaseUpdate <$> queues s1 !! 1%nat = Some (Some 1%nat) ∧
    lastBaseUpdate <$> queues s1 !! 1%nat = Some (Some 2%nat) ∧
    processUpdateQueue 1%nat Sample.shared_twins = Ok (tt, s') ∧
    updateQueue <$> fibers s' !! 2%nat = Some (Some 1%nat) ∧
    firstBaseUpdate <$> queues s' !! 1%nat = Some None ∧
    lastBaseUpdate <$> queues s' !! 1%nat = Some None ∧
    pending <$> shareds s' !! 1%nat = Some None ∧
    memoizedState <$> fibers s' !! 2%nat = Some (JObj {[ "a" := 1 ]}) ∧
    ¬ appended_to s' 1%nat (mkUpdateQueue (JObj {[ "a" := 1 ]}) None None 1%nat None)
        (Some 1%nat) 2%nat.
Proof.
  eexists. eexists.
  do 3 (split; [reflexivity|]).
  split; [vm_compute; reflexivity|].
  do 2 (split; [vm_compute; reflexivity|]).
  split; [vm_compute; reflexivity|].
  do 5 (split; [vm_compute; reflexivity|]).
  intros (cqueue' & Hcq & Hlast & _).
  vm_compute in Hcq. injection Hcq as <-. discriminate Hlast.
Qed.

(** C1. On the example of the spec (a node with [baseState = {a:1}] and the
    updates [{b:2}] then [{a:3}] enqueued), one call of [processUpdateQueue]
    folds the first update only: the memoized state is [{a:1, b:2}], not
    [{a:3, b:2}], and the second update is dropped, as it is left on neither
    the base list nor the pending ring.  The loop over the base list is the
    [TODO] of line 161. *)
Theorem processUpdateQueue_folds_first_update_only :
  ∃ s',
    exec Sample.spec_example_run Sample.spec_example = Some s' ∧
    memoizedState <$> fibers s' !! 1%nat = Some (JObj {[ "a" := 1; "b" := 2 ]}) ∧
    memoizedState <$> fibers s' !! 1%nat ≠ Some (JObj {[ "a" := 3; "b" := 2 ]}) ∧
    firstBaseUpdate <$> queues s' !! 1%nat = Some None ∧
    lastBaseUpdate <$> queues s' !! 1%nat = Some None ∧
    pending <$> shareds s' !! 1%nat = Some None.
Proof.
  eexists. split; [vm_compute; reflexivity|].
  split; [vm_compute; reflexivity|].
  split; [vm_compute; discriminate|].
  split; [vm_compute; reflexivity|].
  split; vm_compute; reflexivity.
Qed.

(** C2. On a node whose base list holds update 10 and whose pending ring
    holds update 11, the first block of [processUpdateQueue] clears
    [shared.pending] and cuts the ring, but does not splice: line 125 reads
    [lastBaseUpdate.next] into the local [firstBaseUpdate] where line 145
    (the same step on the alternate) writes it.  The local is [null], update
    10 still ends the base list, and after the call the queue still holds
    the base list [10] alone: update 11 is lost. *)
Theorem processUpdateQueue_does_not_splice_onto_base_list :
  ∃ s1 s',
    transferPending 1%nat Sample.base_and_pending = Ok ((1%nat, None, Some 11%nat), s1) ∧
    next <$> updates s1 !! 10%nat = Some None ∧
    processUpdateQueue 1%nat Sample.base_and_pending = Ok (tt, s') ∧
    pending <$> shareds s' !! 1%nat = Some None ∧
    firstBaseUpdate <$> queues s' !! 1%nat = Some (Some 10%nat) ∧
    lastBaseUpdate <$> queues s' !! 1%nat = Some (Some 10%nat) ∧
    to_null (updates s') 3 (Some 10%nat) = Some [10%nat] ∧
    memoizedState <$> fibers s' !! 1%nat = Some (JObj {[ "a" := 1 ]}).
Proof.
  eexists. eexists. split; [vm_compute; reflexivity|].
  split; [vm_compute; reflexivity|].
  split; [vm_compute; reflexivity|].
  split; [vm_compute; reflexivity|].
  split; [vm_compute; reflexivity|].
  split; [vm_compute; reflexivity|].
  split; vm_compute; reflexivity.
Qed.

(** Without a queue, line 107 reads a property of [null]. *)
Lemma processUpdateQueue_without_queue s wip f :
  fibers s !! wip = Some f → updateQueue f = None →
  processUpdateQueue wip s = Throw TypeError.
Proof.
  intros Hf Hq. unfold processUpdateQueue, transferPending.
  apply bind_Throw. by rewrite (bind_Ok _ _ _ _ _ (getFiber_Some _ _ _ Hf)), Hq.
Qed.

(** With a queue that holds no update, neither block does anything. *)
Lemma processUpdateQueue_nothing_queued s wip f q queue sq :
  fibers s !! wip = Some f → updateQueue f = Some q →
  queues s !! q = Some queue → firstBaseUpdate queue = None →
  shareds s !! shared queue = Some sq → pending sq = None →
  processUpdateQueue wip s = Ok (tt, s).
Proof.
  intros Hf Hq Hqueue Hfirst Hsq Hpend. unfold processUpdateQueue.
  erewrite bind_Ok; last first.
  { unfold transferPending.
    rewrite (bind_Ok _ _ _ _ _ (getFiber_Some _ _ _ Hf)), Hq.
    rewrite (bind_Ok _ _ _ _ _ (getQueue_Some _ _ _ Hqueue)).
    rewrite (bind_Ok _ _ _ _ _ (getShared_Some _ _ _ Hsq)), Hpend. reflexivity. }
  by rewrite Hfirst.
Qed.

(** C4 fails on the code.  On every node whose [updateQueue] is [null],
    [processUpdateQueue] does not return: it throws a [TypeError], reading
    [queue.firstBaseUpdate] of [null] at line 107.  On the same node
    [enqueueUpdate] has the guard of line 87 for the same missing queue: it
    returns and changes nothing, whatever update it is given. *)
Theorem processUpdateQueue_throws_without_queue s wip f :
  fibers s !! wip = Some f →
  updateQueue f = None →
  processUpdateQueue wip s = Throw TypeError ∧
  (¬ ∃ s', processUpdateQueue wip s = Ok (tt, s')) ∧
  ∀ u, enqueueUpdate wip u s = Ok (tt, s).
Proof.
  intros Hf Hq.
  pose proof (processUpdateQueue_without_queue s wip f Hf Hq) as Hthrow.
  split; [done|]. split.
  - intros [s' H]. by rewrite Hthrow in H.
  - intros u. unfold enqueueUpdate.
    by rewrite (bind_Ok _ _ _ _ _ (getFiber_Some _ _ _ Hf)), Hq.
Qed.

Lemma processUpdateQueue_throws_without_queue_witness :
  processUpdateQueue 1%nat Sample.no_queue = Throw TypeError ∧
  enqueueUpdate 1%nat 1%nat Sample.no_queue = Ok (tt, Sample.no_queue).
Proof.
  destruct (processUpdateQueue_throws_without_queue Sample.no_queue 1%nat
              (Sample.queue_fiber None None JNull))
    as (Hthrow & _ & Henqueue).
  - reflexivity.
  - reflexivity.
  - split; [exact Hthrow|apply Henqueue].
Defined.

(** ** The work loop *)

Section world_steps.
Context `{C : Collaborators}.
Implicit Types (w : World).

Lemma getRoot_Some w r o : roots w !! r = Some o → getRoot r w = Ok (o, w).
Proof. unfold getRoot, bind, get, deref. by intros ->. Qed.

Lemma putRoot_eq w r o : putRoot r o w = Ok (tt, with_roots w (<[r := o]> (roots w))).
Proof. done. Qed.

Lemma getFiberW_Some w r f : fibers (store w) !! r = Some f → getFiberW r w = Ok (f, w).
Proof.
  intros H. unfold getFiberW, lift, getFiber, bind, get, deref. rewrite H.
  by destruct w.
Qed.

Lemma update_laneInfo_Some w r o f :
  roots w !! r = Some o →
  update_laneInfo r f w =
    Ok (tt, with_roots w
              (<[r := mkFiberRoot (current o) (finishedWork o) (finishedLanes o)
                        (callbackNode o) (callbackPriority o) (f (laneInfo o))]>
                 (roots w))).
Proof.
  intros H. unfold update_laneInfo. by rewrite (bind_Ok _ _ _ _ _ (getRoot_Some _ _ _ H)).
Qed.

Lemma update_laneInfo_inv root f wm w :
  update_laneInfo root f wm = Ok (tt, w) →
  ∃ rm, roots wm !! root = Some rm ∧
        w = with_roots wm
              (<[root := mkFiberRoot (current rm) (finishedWork rm) (finishedLanes rm)
                           (callbackNode rm) (callbackPriority rm) (f (laneInfo rm))]>
                 (roots wm)).
Proof.
  intros H. unfold update_laneInfo in H. apply bind_inv in H as (rm & w1 & Hget & Hput).
  unfold getRoot, bind, get, deref in Hget.
  destruct (roots wm !! root) as [rm'|] eqn:Hrm; [|done].
  injection Hget as -> ->. rewrite putRoot_eq in Hput. injection Hput as <-.
  by exists rm.
Qed.

Lemma set_current_Some w r o f :
  roots w !! r = Some o →
  set_current r f w =
    Ok (tt, with_roots w
              (<[r := mkFiberRoot f (finishedWork o) (finishedLanes o)
                        (callbackNode o) (callbackPriority o) (laneInfo o)]> (roots w))).
Proof.
  intros H. unfold set_current. by rewrite (bind_Ok _ _ _ _ _ (getRoot_Some _ _ _ H)).
Qed.

Lemma set_finishedWork_Some w r o f :
  roots w !! r = Some o →
  set_finishedWork r f w =
    Ok (tt, with_roots w
              (<[r := mkFiberRoot (current o) f (finishedLanes o)
                        (callbackNode o) (callbackPriority o) (laneInfo o)]> (roots w))).
Proof.
  intros H. unfold set_finishedWork.
  by rewrite (bind_Ok _ _ _ _ _ (getRoot_Some _ _ _ H)).
Qed.

Lemma set_finishedLanes_Some w r o l :
  roots w !! r = Some o →
  set_finishedLanes r l w =
    Ok (tt, with_roots w
              (<[r := mkFiberRoot (current o) (finishedWork o) l
                        (callbackNode o) (callbackPriority o) (laneInfo o)]> (roots w))).
Proof.
  intros H. unfold set_finishedLanes.
  by rewrite (bind_Ok _ _ _ _ _ (getRoot_Some _ _ _ H)).
Qed.

Lemma set_callbackNode_Some w r o h :
  roots w !! r = Some o →
  set_callbackNode r h w =
    Ok (tt, with_roots w
              (<[r := mkFiberRoot (current o) (finishedWork o) (finishedLanes o)
                        h (callbackPriority o) (laneInfo o)]> (roots w))).
Proof.
  intros H. unfold set_callbackNode.
  by rewrite (bind_Ok _ _ _ _ _ (getRoot_Some _ _ _ H)).
Qed.

Lemma set_callbackPriority_Some w r o p :
  roots w !! r = Some o →
  set_callbackPriority r p w =
    Ok (tt, with_roots w
              (<[r := mkFiberRoot (current o) (finishedWork o) (finishedLanes o)
                        (callbackNode o) p (laneInfo o)]> (roots w))).
Proof.
  intros H. unfold set_callbackPriority.
  by rewrite (bind_Ok _ _ _ _ _ (getRoot_Some _ _ _ H)).
Qed.

Lemma set_lanes_Some w r o v :
  fibers (store w) !! r = Some o →
  set_lanes r v w =
    Ok (tt, put_fiber w r (with_lane_fields o v (childLanes o))).
Proof.
  intros H. unfold set_lanes. by rewrite (bind_Ok _ _ _ _ _ (getFiberW_Some _ _ _ H)).
Qed.

Lemma set_childLanes_Some w r o v :
  fibers (store w) !! r = Some o →
  set_childLanes r v w =
    Ok (tt, put_fiber w r (with_lane_fields o (lanes o) v)).
Proof.
  intros H. unfold set_childLanes.
  by rewrite (bind_Ok _ _ _ _ _ (getFiberW_Some _ _ _ H)).
Qed.

Lemma nextLanesOf_Some w r o :
  roots w !! r = Some o →
  nextLanesOf r w =
    Ok (getNextLanes (laneInfo o)
          (if decide (Some r = workInProgressRoot w)
           then workInProgressRootRenderLanes w else NoLanes), w).
Proof.
  intros H. unfold nextLanesOf, bind at 1, get.
  by rewrite (bind_Ok _ _ _ _ _ (getRoot_Some _ _ _ H)).
Qed.

Lemma getHighestPriorityLane_NoLanes : getHighestPriorityLane NoLanes = NoLane.
Proof. done. Qed.

(** *** ensureRootIsScheduled *)

(** The run with nothing to do. *)
Lemma ensureRootIsScheduled_nothing_to_do w root r t :
  roots w !! root = Some r →
  scheduledLanes w root r t = NoLanes →
  ensureRootIsScheduled root t w =
    Ok (tt, with_trace
              (with_roots w
                 (<[root := mkFiberRoot (current r) (finishedWork r) (finishedLanes r)
                              None NoLane
                              (markStarvedLanesAsExpired (laneInfo r) t)]> (roots w)))
              (trace w ++ match callbackNode r with
                          | Some h => [EvCancelCallback h]
                          | None => []
                          end)
              (next_handle w)).
Proof.
  intros Hr Hn. unfold ensureRootIsScheduled, scheduledLanes in *.
  rewrite (bind_Ok _ _ _ _ _ (getRoot_Some _ _ _ Hr)).
  unfold markStarvedLanesAsExpired_.
  rewrite (bind_Ok _ _ _ _ _ (update_laneInfo_Some _ _ _ _ Hr)).
  erewrite bind_Ok; [|apply nextLanesOf_Some; simpl; apply lookup_insert_eq].
  simpl. rewrite Hn. rewrite decide_True by done.
  destruct (callbackNode r) as [h|].
  - unfold bind at 1. simpl.
    erewrite bind_Ok; [|apply set_callbackNode_Some; simpl; apply lookup_insert_eq].
    erewrite set_callbackPriority_Some; [|simpl; apply lookup_insert_eq].
    simpl. unfold with_trace, with_roots. simpl. by rewrite !insert_insert_eq.
  - unfold bind at 1. simpl.
    erewrite bind_Ok; [|apply set_callbackNode_Some; simpl; apply lookup_insert_eq].
    erewrite set_callbackPriority_Some; [|simpl; apply lookup_insert_eq].
    simpl. unfold with_trace, with_roots. simpl. by rewrite !insert_insert_eq, app_nil_r.
Qed.

(** The run at the priority that is already recorded. *)
Lemma ensureRootIsScheduled_same_priority w root r t :
  roots w !! root = Some r →
  (scheduledLanes w root r t = NoLanes → callbackNode r = None) →
  getHighestPriorityLane (scheduledLanes w root r t) = callbackPriority r →
  ensureRootIsScheduled root t w =
    Ok (tt, with_roots w
              (<[root := mkFiberRoot (current r) (finishedWork r) (finishedLanes r)
                           (callbackNode r) (callbackPriority r)
                           (markStarvedLanesAsExpired (laneInfo r) t)]> (roots w))).
Proof.
  intros Hr Hwf Hp.
  destruct (decide (scheduledLanes w root r t = NoLanes)) as [Hn|Hn].
  - rewrite (ensureRootIsScheduled_nothing_to_do _ _ _ _ Hr Hn).
    rewrite Hn, getHighestPriorityLane_NoLanes in Hp.
    rewrite <-Hp, (Hwf Hn). unfold with_trace, with_roots. simpl.
    by rewrite app_nil_r.
  - unfold ensureRootIsScheduled, scheduledLanes in *.
    rewrite (bind_Ok _ _ _ _ _ (getRoot_Some _ _ _ Hr)).
    unfold markStarvedLanesAsExpired_.
    rewrite (bind_Ok _ _ _ _ _ (update_laneInfo_Some _ _ _ _ Hr)).
    erewrite bind_Ok; [|apply nextLanesOf_Some; simpl; apply lookup_insert_eq].
    simpl. rewrite decide_False by done.
    erewrite bind_Ok; [|apply getRoot_Some; simpl; apply lookup_insert_eq].
    simpl. by rewrite decide_True.
Qed.

(** C8. When the lanes that [ensureRootIsScheduled] computes are [NoLanes],
    the call returns after: cancelling the armed callback when
    [callbackNode] is non-null (the one outgoing call it makes), setting
    [callbackNode] to [null] and [callbackPriority] to [NoLane].  Apart from
    the lane bookkeeping of [markStarvedLanesAsExpired] nothing else
    changes: no callback is armed, no handle is allocated, and the render
    state ([workInProgress], [workInProgressRoot], the fibers) is as before. *)
Theorem ensureRootIsScheduled_no_lanes w root r t :
  roots w !! root = Some r →
  scheduledLanes w root r t = NoLanes →
  ∃ w',
    ensureRootIsScheduled root t w = Ok (tt, w') ∧
    roots w' =
      <[root := mkFiberRoot (current r) (finishedWork r) (finishedLanes r)
                  None NoLane (markStarvedLanesAsExpired (laneInfo r) t)]> (roots w) ∧
    trace w' = trace w ++ match callbackNode r with
                          | Some h => [EvCancelCallback h]
                          | None => []
                          end ∧
    armed (trace w') = armed (trace w) ∧
    next_handle w' = next_handle w ∧
    store w' = store w ∧
    workInProgress w' = workInProgress w ∧
    workInProgressRoot w' = workInProgressRoot w.
Proof.
  intros Hr Hn. eexists. split; [by apply ensureRootIsScheduled_nothing_to_do|].
  simpl. repeat split; try done.
  unfold armed. rewrite List.filter_app.
  destruct (callbackNode r); simpl; by rewrite app_nil_r.
Qed.
End world_steps.

Lemma ensureRootIsScheduled_no_lanes_witness :
  ∃ w',
    ensureRootIsScheduled 1%nat 100
      (Sample.world_of (Sample.root_with None (Some 7%nat) 16 0)) = Ok (tt, w') ∧
    trace w' = [EvCancelCallback 7] ∧
    callbackNode <$> roots w' !! 1%nat = Some None ∧
    callbackPriority <$> roots w' !! 1%nat = Some NoLane.
Proof.
  destruct (ensureRootIsScheduled_no_lanes
              (Sample.world_of (Sample.root_with None (Some 7%nat) 16 0)) 1%nat
              (Sample.root_with None (Some 7%nat) 16 0) 100)
    as (w' & Hrun & Hroots & Htrace & _).
  - reflexivity.
  - reflexivity.
  - exists w'. split; [exact Hrun|]. split; [exact Htrace|].
    rewrite Hroots. split; reflexivity.
Defined.

(** *** The callback slot *)

Lemma land_double a b : Z.land (2 * a) (2 * b) = 2 * Z.land a b.
Proof.
  apply Z.bits_inj'. intros n Hn. rewrite Z.land_spec.
  destruct (decide (n = 0)) as [->|Hne].
  - by rewrite !Z.testbit_even_0.
  - replace n with (Z.succ (n - 1)) by lia.
    by rewrite !Z.double_bits_succ, Z.land_spec.
Qed.

Lemma lowest_bit_pos p : Z.land (Z.pos p) (- Z.pos p) ≠ 0.
Proof.
  induction p as [p IH|p IH|].
  - intros H. assert (Hb : Z.testbit (Z.land (Z.pos p~1) (- Z.pos p~1)) 0 = true).
    { rewrite Z.land_spec, !Z.bit0_odd, Z.odd_opp. done. }
    by rewrite H in Hb.
  - change (Z.pos p~0) with (2 * Z.pos p).
    rewrite <-Z.mul_opp_r, land_double. lia.
  - done.
Qed.

Lemma getHighestPriorityLane_nonzero lanes :
  lanes ≠ NoLanes → getHighestPriorityLane lanes ≠ NoLane.
Proof.
  unfold getHighestPriorityLane, NoLanes, NoLane. intros H.
  destruct lanes as [|p|p]; [done|apply lowest_bit_pos|].
  rewrite Z.land_comm. change (- Z.neg p) with (Z.pos p).
  change (Z.neg p) with (- Z.pos p). apply lowest_bit_pos.
Qed.

Section slot.
Context `{C : Collaborators}.

Lemma set_callbackPriority_inv root p w w' :
  set_callbackPriority root p w = Ok (tt, w') →
  ∃ o, roots w' !! root =
         Some (mkFiberRoot (current o) (finishedWork o) (finishedLanes o)
                 (callbackNode o) p (laneInfo o)).
Proof.
  intros H. unfold set_callbackPriority in H.
  apply bind_inv in H as (o & w1 & _ & Hput).
  rewrite putRoot_eq in Hput. injection Hput as <-.
  exists o. simpl. by rewrite lookup_insert_eq.
Qed.

(** Whatever the root was, after [ensureRootIsScheduled] it records a
    callback only together with a priority. *)
Lemma ensureRootIsScheduled_slot_wf w root t w' :
  ensureRootIsScheduled root t w = Ok (tt, w') →
  ∃ r', roots w' !! root = Some r' ∧ slot_wf r'.
Proof.
  intros Hrun.
  destruct (roots w !! root) as [r|] eqn:Hr; last first.
  { unfold ensureRootIsScheduled, bind at 1, getRoot, bind, get, deref in Hrun.
    by rewrite Hr in Hrun. }
  destruct (decide (scheduledLanes w root r t = NoLanes)) as [Hn|Hn].
  { rewrite (ensureRootIsScheduled_nothing_to_do _ _ _ _ Hr Hn) in Hrun.
    injection Hrun as <-. eexists. simpl. by rewrite lookup_insert_eq. }
  pose proof (getHighestPriorityLane_nonzero _ Hn) as Hp.
  destruct (decide (callbackPriority r = getHighestPriorityLane (scheduledLanes w root r t)))
    as [Heq|Hne].
  { rewrite (ensureRootIsScheduled_same_priority w root r t Hr) in Hrun; [|done|done].
    injection Hrun as <-. eexists. simpl. rewrite lookup_insert_eq.
    split; [done|]. intros H. simpl in H. congruence. }
  unfold ensureRootIsScheduled, scheduledLanes in *.
  rewrite (bind_Ok _ _ _ _ _ (getRoot_Some _ _ _ Hr)) in Hrun.
  unfold markStarvedLanesAsExpired_ in Hrun.
  rewrite (bind_Ok _ _ _ _ _ (update_laneInfo_Some _ _ _ _ Hr)) in Hrun.
  erewrite bind_Ok in Hrun; [|apply nextLanesOf_Some; simpl; apply lookup_insert_eq].
  simpl in Hrun. rewrite decide_False in Hrun by done.
  erewrite bind_Ok in Hrun; [|apply getRoot_Some; simpl; apply lookup_insert_eq].
  simpl in Hrun. rewrite decide_False in Hrun by done.
  apply bind_inv in Hrun as (? & w1 & _ & Hrun).
  apply bind_inv in Hrun as (node & w2 & _ & Hrun).
  apply bind_inv in Hrun as (? & w3 & _ & Hrun).
  apply set_callbackPriority_inv in Hrun as (o & Ho).
  eexists. split; [exact Ho|]. intros H. simpl in H. done.
Qed.
End slot.

(** *** Commit *)

Section commit.
Context `{C : Collaborators}.
Implicit Types (w : World).

(** C7. With a non-null [root.finishedWork], [commitRootImpl] first brings
    the world to [w1]: [finishedWork], [finishedLanes], [callbackNode] and
    [callbackPriority] of the root are cleared, [markRootFinished] has been
    given the bitwise OR of [finishedWork.lanes] and
    [finishedWork.childLanes], and [workInProgressRoot] and [workInProgress]
    are [null], while [root.current] is still the old tree.  In [w1] it
    calls [commitMutationEffects(root, finishedWork)], and its last step is
    the assignment [root.current = finishedWork]. *)
Theorem commitRootImpl_publishes_last w root r fw fwf :
  roots w !! root = Some r →
  finishedWork r = Some fw →
  fibers (store w) !! fw = Some fwf →
  let remainingLanes := Z.lor (lanes fwf) (childLanes fwf) in
  let cleared :=
    mkFiberRoot (current r) None NoLanes None NoLane
      (markRootFinished (laneInfo r) remainingLanes) in
  let w1 :=
    with_workInProgress
      (with_workInProgressRoot (with_roots w (<[root := cleared]> (roots w))) None) None in
  commitRootImpl root w =
    (do commitMutationEffects root fw then set_current root fw) w1 ∧
  ∀ w2 r2,
    commitMutationEffects root fw w1 = Ok (tt, w2) →
    roots w2 !! root = Some r2 →
    commitRootImpl root w =
      Ok (tt, with_roots w2
                (<[root := mkFiberRoot fw (finishedWork r2) (finishedLanes r2)
                             (callbackNode r2) (callbackPriority r2) (laneInfo r2)]>
                   (roots w2))).
Proof.
  intros Hr Hfw Hfwf remainingLanes cleared w1.
  assert (Heq : commitRootImpl root w =
    (do commitMutationEffects root fw then set_current root fw) w1).
  { unfold commitRootImpl.
    rewrite (bind_Ok _ _ _ _ _ (getRoot_Some _ _ _ Hr)), Hfw.
    unfold markRootFinished_.
    erewrite bind_Ok; [|by apply set_finishedWork_Some].
    erewrite bind_Ok; [|apply set_finishedLanes_Some; simpl; apply lookup_insert_eq].
    erewrite bind_Ok; [|apply set_callbackNode_Some; simpl; apply lookup_insert_eq].
    erewrite bind_Ok; [|apply set_callbackPriority_Some; simpl; apply lookup_insert_eq].
    erewrite bind_Ok; [|apply getFiberW_Some; simpl; done].
    erewrite bind_Ok; [|apply update_laneInfo_Some; simpl; apply lookup_insert_eq].
    unfold bind at 1, modify at 1. unfold bind at 1, modify at 1.
    simpl. unfold w1, cleared, remainingLanes, mergeLanes, with_workInProgress,
      with_workInProgressRoot, with_roots. simpl.
    by rewrite !insert_insert_eq. }
  split; [done|].
  intros w2 r2 Hc Hr2. rewrite Heq.
  rewrite (bind_Ok _ _ _ _ _ Hc). by apply set_current_Some.
Qed.
End commit.

Lemma commitRootImpl_publishes_last_witness :
  ∃ w',
    commitRootImpl 1%nat (Sample.world_of (Sample.root_with (Some 2%nat) (Some 7%nat) 16 16))
      = Ok (tt, w') ∧
    current <$> roots w' !! 1%nat = Some 2%nat ∧
    trace w' = [EvCollaborator "commitMutationEffects" 2].
Proof.
  pose proof (commitRootImpl_publishes_last
                (Sample.world_of (Sample.root_with (Some 2%nat) (Some 7%nat) 16 16)) 1%nat
                (Sample.root_with (Some 2%nat) (Some 7%nat) 16 16) 2%nat
                (Sample.plain_fiber 3 (Some 1%nat) None (Some 1%nat))
                eq_refl eq_refl eq_refl) as [_ Hlast].
  eexists. split.
  - apply Hlast; reflexivity.
  - split; reflexivity.
Defined.

(** *** Marking lanes up to the root *)

Lemma mergeLanes_idemp a lane : mergeLanes (mergeLanes a lane) lane = mergeLanes a lane.
Proof. unfold mergeLanes. by rewrite <-Z.lor_assoc, Z.lor_diag. Qed.

Lemma bumped_refl lane F : bumped lane F F.
Proof.
  intros x. destruct (F !! x) as [f|]; [|done].
  exists (lanes f), (childLanes f). split; [by destruct f|]. by split; left.
Qed.

Lemma bumped_lookup lane F F' x f :
  bumped lane F F' → F !! x = Some f →
  ∃ l c, F' !! x = Some (with_lane_fields f l c) ∧
         (l = lanes f ∨ l = mergeLanes (lanes f) lane) ∧
         (c = childLanes f ∨ c = mergeLanes (childLanes f) lane).
Proof.
  intros Hb Hx. specialize (Hb x). rewrite Hx in Hb.
  destruct (F' !! x) as [f'|]; [|done].
  destruct Hb as (l & c & -> & Hl & Hc). by exists l, c.
Qed.

Lemma bumped_set_childLanes lane F F' x f' :
  bumped lane F F' → F' !! x = Some f' →
  bumped lane F
    (<[x := with_lane_fields f' (lanes f') (mergeLanes (childLanes f') lane)]> F').
Proof.
  intros Hb Hx y. destruct (decide (x = y)) as [<-|Hne].
  - rewrite lookup_insert_eq. specialize (Hb x). rewrite Hx in Hb.
    destruct (F !! x) as [f|]; [|done].
    destruct Hb as (l & c & -> & Hl & Hc).
    exists l, (mergeLanes (childLanes f) lane). split; [|split; [done|by right]].
    simpl. destruct Hc as [->| ->]; [done|]. by rewrite mergeLanes_idemp.
  - rewrite lookup_insert_ne by done. apply Hb.
Qed.

Lemma bumped_set_lanes lane F F' x f' :
  bumped lane F F' → F' !! x = Some f' →
  bumped lane F
    (<[x := with_lane_fields f' (mergeLanes (lanes f') lane) (childLanes f')]> F').
Proof.
  intros Hb Hx y. destruct (decide (x = y)) as [<-|Hne].
  - rewrite lookup_insert_eq. specialize (Hb x). rewrite Hx in Hb.
    destruct (F !! x) as [f|]; [|done].
    destruct Hb as (l & c & -> & Hl & Hc).
    exists (mergeLanes (lanes f) lane), c. split; [|split; [by right|done]].
    simpl. destruct Hl as [->| ->]; [done|]. by rewrite mergeLanes_idemp.
  - rewrite lookup_insert_ne by done. apply Hb.
Qed.

Lemma same_but_fibers_refl w : same_but_fibers w w.
Proof. unfold same_but_fibers. by destruct w as [[] ? ? ? ? ? ? ? ?]. Qed.

Lemma same_but_fibers_put w w' x f :
  same_but_fibers w w' → same_but_fibers w (put_fiber w' x f).
Proof.
  unfold same_but_fibers, put_fiber. intros ->. by destruct w as [[] ? ? ? ? ? ? ? ?].
Qed.

Lemma child_done_set_childLanes lane F F' x y f' :
  bumped lane F F' → F' !! y = Some f' → child_done lane F F' x →
  child_done lane F
    (<[y := with_lane_fields f' (lanes f') (mergeLanes (childLanes f') lane)]> F') x.
Proof.
  unfold child_done. intros Hb Hy Hx. destruct (decide (y = x)) as [->|Hne].
  - rewrite lookup_insert_eq. rewrite Hy in Hx. simpl in *.
    destruct (F !! x) as [f|]; [|done]. simpl in *. injection Hx as Hx.
    by rewrite Hx, mergeLanes_idemp.
  - by rewrite lookup_insert_ne.
Qed.

Lemma child_done_here lane F F' x f' :
  bumped lane F F' → F' !! x = Some f' →
  child_done lane F
    (<[x := with_lane_fields f' (lanes f') (mergeLanes (childLanes f') lane)]> F') x.
Proof.
  unfold child_done. intros Hb Hx. rewrite lookup_insert_eq. simpl.
  specialize (Hb x). rewrite Hx in Hb. destruct (F !! x) as [f|]; [|done].
  destruct Hb as (l & c & -> & _ & [->| ->]); simpl; [done|].
  by rewrite mergeLanes_idemp.
Qed.

Lemma lanes_done_set_childLanes lane F F' x y f' :
  F' !! y = Some f' → lanes_done lane F F' x →
  lanes_done lane F
    (<[y := with_lane_fields f' (lanes f') (mergeLanes (childLanes f') lane)]> F') x.
Proof.
  unfold lanes_done. intros Hy Hx. destruct (decide (y = x)) as [->|Hne].
  - rewrite lookup_insert_eq. by rewrite Hy in Hx.
  - by rewrite lookup_insert_ne.
Qed.

Lemma return_path_head F node anc top :
  return_path F node anc top → ∃ f, F !! node = Some f ∧ return_ f = head anc.
Proof.
  destruct anc as [|p anc]; simpl.
  - intros [_ H]. destruct (F !! node) as [f|]; [|done]. exists f. split; [done|].
    simpl in H. by injection H.
  - intros [H _]. destruct (F !! node) as [f|]; [|done]. exists f. split; [done|].
    simpl in H. by injection H.
Qed.

Section bubbling.
Context `{C : Collaborators}.

Lemma bubbleChildLanes_None fuel lane node w :
  bubbleChildLanes fuel lane node None w = Ok (node, w).
Proof. by destruct fuel. Qed.

Lemma bubbleChildLanes_ok lane F0 top w0 anc :
  alternates_allocated F0 →
  ∀ fuel node w,
    same_but_fibers w0 w →
    bumped lane F0 (fibers (store w)) →
    return_path F0 node anc top →
    (length anc ≤ fuel)%nat →
    ∃ w', bubbleChildLanes fuel lane node (head anc) w = Ok (top, w') ∧
          same_but_fibers w0 w' ∧
          bumped lane F0 (fibers (store w')) ∧
          (∀ a, a ∈ anc → child_done lane F0 (fibers (store w')) a) ∧
          (∀ x, child_done lane F0 (fibers (store w)) x →
                child_done lane F0 (fibers (store w')) x) ∧
          (∀ x, lanes_done lane F0 (fibers (store w)) x →
                lanes_done lane F0 (fibers (store w')) x).
Proof.
  intros Halloc. induction anc as [|p anc IH]; intros fuel node w Hsame Hb Hpath Hfuel.
  - simpl in Hpath. destruct Hpath as [-> _]. simpl. rewrite bubbleChildLanes_None.
    exists w. split; [done|]. split; [done|]. split; [done|].
    split; [|done]. intros a Ha. by apply elem_of_nil in Ha.
  - destruct fuel as [|fuel]; [simpl in Hfuel; lia|].
    simpl in Hpath. destruct Hpath as [_ Hpath].
    destruct (return_path_head _ _ _ _ Hpath) as (pf0 & Hp0 & Hret).
    destruct (bumped_lookup _ _ _ _ _ Hb Hp0) as (l & c & Hp & _ & _).
    cbn [head bubbleChildLanes].
    rewrite (bind_Ok _ _ _ _ _ (getFiberW_Some _ _ _ Hp)).
    rewrite (bind_Ok _ _ _ _ _ (set_childLanes_Some _ _ _ _ Hp)).
    set (pf1 := with_lane_fields _ _ _).
    set (w1 := put_fiber w p pf1).
    assert (Hb1 : bumped lane F0 (fibers (store w1))).
    { apply (bumped_set_childLanes _ _ _ _ _ Hb Hp). }
    assert (Hd1 : child_done lane F0 (fibers (store w1)) p).
    { apply (child_done_here _ _ _ _ _ Hb Hp). }
    assert (Hp1 : fibers (store w1) !! p = Some pf1) by apply lookup_insert_eq.
    rewrite (bind_Ok _ _ _ _ _ (getFiberW_Some _ _ _ Hp1)).
    assert (∃ w2, (match alternate pf1 with
                   | Some a => let* af := getFiberW a in
                               set_childLanes a (mergeLanes (childLanes af) lane)
                   | None => ret tt
                   end) w1 = Ok (tt, w2) ∧
                  same_but_fibers w0 w2 ∧ bumped lane F0 (fibers (store w2)) ∧
                  (∀ x, child_done lane F0 (fibers (store w1)) x →
                        child_done lane F0 (fibers (store w2)) x) ∧
                  (∀ x, lanes_done lane F0 (fibers (store w1)) x →
                        lanes_done lane F0 (fibers (store w2)) x))
      as (w2 & Hstep & Hsame2 & Hb2 & Hcd2 & Hld2).
    { destruct (alternate pf1) as [a|] eqn:Halt.
      - assert (Ha0 : is_Some (F0 !! a)) by (eapply Halloc; [exact Hp0|exact Halt]).
        destruct Ha0 as [af0 Ha0].
        destruct (bumped_lookup _ _ _ _ _ Hb1 Ha0) as (la & ca & Ha & _ & _).
        rewrite (bind_Ok _ _ _ _ _ (getFiberW_Some _ _ _ Ha)).
        rewrite (set_childLanes_Some _ _ _ _ Ha).
        eexists. split; [done|]. split.
        { by apply same_but_fibers_put, same_but_fibers_put. }
        split; [apply (bumped_set_childLanes _ _ _ _ _ Hb1 Ha)|]. split.
        + intros x Hx. by apply (child_done_set_childLanes _ _ _ _ _ _ Hb1 Ha).
        + intros x Hx. by apply (lanes_done_set_childLanes _ _ _ _ _ _ Ha).
      - exists w1. split; [done|]. split; [by apply same_but_fibers_put|]. done. }
    rewrite (bind_Ok _ _ _ _ _ Hstep).
    destruct (bumped_lookup _ _ _ _ _ Hb2 Hp0) as (l2 & c2 & Hp2 & _ & _).
    rewrite (bind_Ok _ _ _ _ _ (getFiberW_Some _ _ _ Hp2)).
    cbn [with_lane_fields return_]. rewrite Hret.
    destruct (IH fuel p w2 Hsame2 Hb2 Hpath) as (w' & Hrun & Hsame' & Hb' & Hanc & Hcd & Hld).
    { simpl in Hfuel. lia. }
    exists w'. split; [done|]. split; [done|]. split; [done|]. split; [|split].
    + intros a Ha. apply elem_of_cons in Ha as [->|Ha]; [|by apply Hanc].
      by apply Hcd, Hcd2.
    + intros x Hx. apply Hcd, Hcd2.
      by apply (child_done_set_childLanes _ _ _ _ _ _ Hb Hp).
    + intros x Hx. apply Hld, Hld2.
      by apply (lanes_done_set_childLanes _ _ _ _ _ _ Hp).
Qed.

Lemma lanes_done_set_lanes lane F F' x y f' :
  bumped lane F F' → F' !! y = Some f' → lanes_done lane F F' x →
  lanes_done lane F
    (<[y := with_lane_fields f' (mergeLanes (lanes f') lane) (childLanes f')]> F') x.
Proof.
  unfold lanes_done. intros Hb Hy Hx. destruct (decide (y = x)) as [->|Hne].
  - rewrite lookup_insert_eq. rewrite Hy in Hx. simpl in *.
    destruct (F !! x) as [f|]; [|done]. simpl in *. injection Hx as Hx.
    by rewrite Hx, mergeLanes_idemp.
  - by rewrite lookup_insert_ne.
Qed.

Lemma markUpdateLaneFromFiberToRoot_ok fuel f lane w anc top :
  alternates_allocated (fibers (store w)) →
  return_path (fibers (store w)) f anc top →
  (length anc ≤ fuel)%nat →
  ∃ w' tf,
    fibers (store w) !! top = Some tf ∧
    markUpdateLaneFromFiberToRoot fuel f lane w =
      Ok (if decide (f_tag tf = HostRoot) then stateNode tf else None, w') ∧
    same_but_fibers w w' ∧
    bumped lane (fibers (store w)) (fibers (store w')) ∧
    lanes_done lane (fibers (store w)) (fibers (store w')) f ∧
    (∀ a, a ∈ anc → child_done lane (fibers (store w)) (fibers (store w')) a).
Proof.
  intros Halloc Hpath Hfuel. set (F0 := fibers (store w)) in *.
  destruct (return_path_head _ _ _ _ Hpath) as (sf & Hsf & Hret).
  unfold markUpdateLaneFromFiberToRoot.
  rewrite (bind_Ok _ _ _ _ _ (getFiberW_Some _ _ _ Hsf)).
  rewrite (bind_Ok _ _ _ _ _ (set_lanes_Some _ _ _ _ Hsf)).
  set (sf1 := with_lane_fields _ _ _).
  set (w1 := put_fiber w f sf1).
  assert (Hb1 : bumped lane F0 (fibers (store w1))).
  { apply (bumped_set_lanes _ _ _ _ _ (bumped_refl lane F0) Hsf). }
  assert (Hd1 : lanes_done lane F0 (fibers (store w1)) f).
  { unfold lanes_done. simpl. rewrite lookup_insert_eq. fold F0. by rewrite Hsf. }
  assert (Hsf1 : fibers (store w1) !! f = Some sf1) by apply lookup_insert_eq.
  rewrite (bind_Ok _ _ _ _ _ (getFiberW_Some _ _ _ Hsf1)).
  assert (∃ w2, (match alternate sf1 with
                 | Some a => let* af := getFiberW a in
                             set_lanes a (mergeLanes (lanes af) lane)
                 | None => ret tt
                 end) w1 = Ok (tt, w2) ∧
                same_but_fibers w w2 ∧ bumped lane F0 (fibers (store w2)) ∧
                lanes_done lane F0 (fibers (store w2)) f)
    as (w2 & Hstep & Hsame2 & Hb2 & Hld2).
  { destruct (alternate sf1) as [a|] eqn:Halt.
    - assert (Ha0 : is_Some (F0 !! a)) by (eapply Halloc; [exact Hsf|exact Halt]).
      destruct Ha0 as [af0 Ha0].
      destruct (bumped_lookup _ _ _ _ _ Hb1 Ha0) as (la & ca & Ha & _ & _).
      rewrite (bind_Ok _ _ _ _ _ (getFiberW_Some _ _ _ Ha)).
      rewrite (set_lanes_Some _ _ _ _ Ha).
      eexists. split; [done|]. split.
      { apply same_but_fibers_put, same_but_fibers_put, same_but_fibers_refl. }
      split; [apply (bumped_set_lanes _ _ _ _ _ Hb1 Ha)|].
      by apply (lanes_done_set_lanes _ _ _ _ _ _ Hb1 Ha).
    - exists w1. split; [done|]. split; [|done].
      apply same_but_fibers_put, same_but_fibers_refl. }
  rewrite (bind_Ok _ _ _ _ _ Hstep).
  destruct (bumped_lookup _ _ _ _ _ Hb2 Hsf) as (l2 & c2 & Hsf2 & _ & _).
  rewrite (bind_Ok _ _ _ _ _ (getFiberW_Some _ _ _ Hsf2)).
  cbn [with_lane_fields return_]. rewrite Hret.
  destruct (bubbleChildLanes_ok lane F0 top w anc Halloc fuel f w2 Hsame2 Hb2 Hpath Hfuel)
    as (w' & Hrun & Hsame' & Hb' & Hanc & _ & Hld).
  rewrite (bind_Ok _ _ _ _ _ Hrun).
  assert (Htop : is_Some (F0 !! top)).
  { clear -Hpath. revert f Hpath. induction anc as [|p anc IH]; simpl; intros f.
    - intros [-> H]. by destruct (F0 !! top).
    - intros [_ H]. by apply (IH p). }
  destruct Htop as [tf Htop].
  destruct (bumped_lookup _ _ _ _ _ Hb' Htop) as (lt & ct & Htop' & _ & _).
  rewrite (bind_Ok _ _ _ _ _ (getFiberW_Some _ _ _ Htop')).
  exists w', tf. split; [done|]. split.
  { cbn [with_lane_fields f_tag stateNode]. by destruct (decide (f_tag tf = HostRoot)). }
  split; [done|]. split; [done|]. split; [by apply Hld|done].
Qed.


(** C10. When the chain of [return] links of a fiber ends at a node whose
    tag is not [HostRoot], [scheduleUpdateOnFiber] returns [null] (given
    loop fuel for the length of the chain).  The roots are untouched, so no
    root is marked updated; the trace and the handle counter are untouched,
    so no callback is armed, re-armed or cancelled; the module variables
    are untouched.  Yet the lane has been merged into [lanes] of the source
    fiber and into [childLanes] of each of its ancestors. *)
Theorem scheduleUpdateOnFiber_without_root fuel f lane eventTime w anc top tf :
  alternates_allocated (fibers (store w)) →
  return_path (fibers (store w)) f anc top →
  fibers (store w) !! top = Some tf →
  f_tag tf ≠ HostRoot →
  (length anc ≤ fuel)%nat →
  ∃ w',
    scheduleUpdateOnFiber fuel f lane eventTime w = Ok (JNull, w') ∧
    roots w' = roots w ∧ trace w' = trace w ∧ next_handle w' = next_handle w ∧
    same_but_fibers w w' ∧
    lanes <$> fibers (store w') !! f =
      (λ x, mergeLanes (lanes x) lane) <$> fibers (store w) !! f ∧
    (∀ a, a ∈ anc →
       childLanes <$> fibers (store w') !! a =
         (λ x, mergeLanes (childLanes x) lane) <$> fibers (store w) !! a).
Proof.
  intros Halloc Hpath Htop Htag Hfuel.
  destruct (markUpdateLaneFromFiberToRoot_ok fuel f lane w anc top Halloc Hpath Hfuel)
    as (w' & tf' & Htop' & Hrun & Hsame & _ & Hld & Hcd).
  rewrite Htop in Htop'. injection Htop' as <-.
  rewrite decide_False in Hrun by done.
  exists w'. unfold scheduleUpdateOnFiber. rewrite (bind_Ok _ _ _ _ _ Hrun).
  split; [done|].
  assert (Hw : roots w' = roots w ∧ trace w' = trace w ∧ next_handle w' = next_handle w).
  { pose proof Hsame as He. unfold same_but_fibers in He. by rewrite He. }
  destruct Hw as (? & ? & ?). by repeat split.
Qed.
End bubbling.

Lemma alternates_allocated_Forall (F : gmap nat Fiber) :
  map_Forall (λ _ f, allocated F (alternate f)) F → alternates_allocated F.
Proof.
  intros H x f a Hx Ha. pose proof (map_Forall_lookup_1 _ _ _ _ H Hx) as Hf.
  simpl in Hf. by rewrite Ha in Hf.
Qed.

Lemma scheduleUpdateOnFiber_without_root_witness :
  ∃ w',
    scheduleUpdateOnFiber 10 6%nat 16 100 Sample.idle_world = Ok (JNull, w') ∧
    roots w' = roots Sample.idle_world ∧
    trace w' = [] ∧
    lanes <$> fibers (store w') !! 6%nat = Some 16 ∧
    childLanes <$> fibers (store w') !! 5%nat = Some 16.
Proof.
  destruct (scheduleUpdateOnFiber_without_root 10 6%nat 16 100 Sample.idle_world
              [5%nat] 5%nat (Sample.plain_fiber 5 None None None))
    as (w' & Hrun & Hroots & Htrace & _ & _ & Hlanes & Hchild).
  - apply alternates_allocated_Forall. apply (bool_decide_unpack _). vm_compute. exact I.
  - repeat split; reflexivity.
  - reflexivity.
  - discriminate.
  - simpl. lia.
  - exists w'. split; [exact Hrun|]. split; [exact Hroots|]. split; [exact Htrace|].
    split; [exact Hlanes|]. apply Hchild. by left.
Defined.

(** *** What the walk to the root leaves alone *)

Lemma same_but_fibers_trans w1 w2 w3 :
  same_but_fibers w1 w2 → same_but_fibers w2 w3 → same_but_fibers w1 w3.
Proof.
  unfold same_but_fibers. intros H12 H23. rewrite H23. rewrite H12. by destruct w1 as [[] ? ? ? ? ? ? ? ?].
Qed.

Lemma fibers_only_ret {A} (a : A) : fibers_only (ret a).
Proof. intros w a' w' [= _ <-]. apply same_but_fibers_refl. Qed.

Lemma fibers_only_bind {A B} (m : M World A) (k : A → M World B) :
  fibers_only m → (∀ a, fibers_only (k a)) → fibers_only (bind m k).
Proof.
  intros Hm Hk w b w' H. apply bind_inv in H as (a & w1 & H1 & H2).
  eapply same_but_fibers_trans; [by eapply Hm|by eapply Hk].
Qed.

Lemma fibers_only_getFiberW r : fibers_only (getFiberW r).
Proof.
  intros w a w'. unfold getFiberW, lift, getFiber, bind, get, deref.
  destruct (fibers (store w) !! r); [|done]. intros [= _ <-].
  unfold same_but_fibers. by destruct w as [[] ? ? ? ? ? ? ? ?].
Qed.

Lemma fibers_only_putFiberW r f : fibers_only (putFiberW r f).
Proof.
  intros w a w'. unfold putFiberW, lift, putFiber, modify. intros [= _ <-].
  unfold same_but_fibers. by destruct w as [[] ? ? ? ? ? ? ? ?].
Qed.

Lemma fibers_only_set_lanes r v : fibers_only (set_lanes r v).
Proof.
  apply fibers_only_bind; [apply fibers_only_getFiberW|].
  intros a. apply fibers_only_putFiberW.
Qed.

Lemma fibers_only_set_childLanes r v : fibers_only (set_childLanes r v).
Proof.
  apply fibers_only_bind; [apply fibers_only_getFiberW|].
  intros a. apply fibers_only_putFiberW.
Qed.

Section frame.
Context `{C : Collaborators}.

Ltac fibers_only_step :=
  match goal with
  | |- fibers_only (bind _ _) => apply fibers_only_bind
  | |- ∀ _, fibers_only _ => intro
  | |- fibers_only (ret _) => apply fibers_only_ret
  | |- fibers_only (getFiberW _) => apply fibers_only_getFiberW
  | |- fibers_only (set_lanes _ _) => apply fibers_only_set_lanes
  | |- fibers_only (set_childLanes _ _) => apply fibers_only_set_childLanes
  | |- fibers_only (match ?x with _ => _ end) => destruct x
  end.

Lemma fibers_only_bubbleChildLanes fuel lane :
  ∀ node parent, fibers_only (bubbleChildLanes fuel lane node parent).
Proof.
  induction fuel as [|fuel IH]; intros node [p|]; simpl;
    try apply fibers_only_ret.
  - by intros w a w'.
  - repeat fibers_only_step. apply IH.
Qed.

Lemma fibers_only_markUpdateLaneFromFiberToRoot fuel f lane :
  fibers_only (markUpdateLaneFromFiberToRoot fuel f lane).
Proof.
  unfold markUpdateLaneFromFiberToRoot. repeat fibers_only_step.
  apply fibers_only_bubbleChildLanes.
Qed.
End frame.

(** *** Coalescing *)

Section coalescing.
Context `{C : Collaborators}.

(** C6. Let the highest-priority lane of the lanes that
    [ensureRootIsScheduled] computes equal the recorded [callbackPriority],
    on the path of lines 186-198 (some lane is selected) or, when no lane
    is selected, on a root that records no callback (as every root with a
    well-formed slot does when its priority is [NoLane], and
    [ensureRootIsScheduled] leaves every slot well formed).  Then
    the call returns with no outgoing call at all (nothing cancelled,
    nothing armed: the trace and the handle counter are those of [w]) and
    with [callbackNode] and [callbackPriority] unchanged; only the lane
    bookkeeping of [markStarvedLanesAsExpired] is written.  Hence a
    [scheduleUpdateOnFiber] call that reaches [ensureRootIsScheduled] in
    such a world, as a second call at the same lane does before any render
    pass, arms nothing: the callback armed by the first call stays the only
    one. *)
Theorem ensureRootIsScheduled_coalesces w root r t :
  roots w !! root = Some r →
  (scheduledLanes w root r t = NoLanes → callbackNode r = None) →
  getHighestPriorityLane (scheduledLanes w root r t) = callbackPriority r →
  let w' :=
    with_roots w
      (<[root := mkFiberRoot (current r) (finishedWork r) (finishedLanes r)
                   (callbackNode r) (callbackPriority r)
                   (markStarvedLanesAsExpired (laneInfo r) t)]> (roots w)) in
  ensureRootIsScheduled root t w = Ok (tt, w') ∧
  ∀ fuel fiber lane w0 wm,
    markUpdateLaneFromFiberToRoot fuel fiber lane w0 = Ok (Some root, wm) →
    markRootUpdated_ root lane t wm = Ok (tt, w) →
    scheduleUpdateOnFiber fuel fiber lane t w0 = Ok (JUndefined, w') ∧
    trace w' = trace w0 ∧
    next_handle w' = next_handle w0 ∧
    callbackNode <$> roots w' !! root = callbackNode <$> roots w0 !! root ∧
    callbackPriority <$> roots w' !! root = callbackPriority <$> roots w0 !! root.
Proof.
  intros Hr Hwf Hp w'.
  pose proof (ensureRootIsScheduled_same_priority w root r t Hr Hwf Hp) as Hrun.
  split; [exact Hrun|].
  intros fuel fiber lane w0 wm Hwalk Hmark.
  split.
  - unfold scheduleUpdateOnFiber.
    rewrite (bind_Ok _ _ _ _ _ Hwalk), (bind_Ok _ _ _ _ _ Hmark).
    by rewrite (bind_Ok _ _ _ _ _ Hrun).
  - apply fibers_only_markUpdateLaneFromFiberToRoot in Hwalk.
    apply update_laneInfo_inv in Hmark as (rm & Hrm & Hw).
    assert (Hroots : roots wm = roots w0 ∧ trace wm = trace w0 ∧
                     next_handle wm = next_handle w0).
    { unfold same_but_fibers in Hwalk. by rewrite Hwalk. }
    destruct Hroots as (Hroots & Htr & Hnh).
    assert (Hrrm : callbackNode r = callbackNode rm ∧
                   callbackPriority r = callbackPriority rm).
    { rewrite Hw in Hr. simpl in Hr. rewrite lookup_insert_eq in Hr.
      injection Hr as <-. done. }
    destruct Hrrm as [Hn Hpr].
    unfold w'. simpl. rewrite lookup_insert_eq. simpl.
    rewrite <-Hroots, Hrm. simpl. rewrite Hn, Hpr.
    rewrite Hw. simpl. by rewrite Htr, Hnh.
Qed.
End coalescing.

Lemma ensureRootIsScheduled_coalesces_witness :
  ∃ w',
    scheduleUpdateOnFiber 10 4%nat 16 101 Sample.once_scheduled = Ok (JUndefined, w') ∧
    trace w' = trace Sample.once_scheduled ∧
    armed (trace w') = [EvScheduleCallback NormalSchedulerPriority 1 0].
Proof.
  destruct (ensureRootIsScheduled_coalesces Sample.second_marked 1%nat
              (mkFiberRoot 1 None 0 (Some 0%nat) 16 (mkRootLanes 16 0 [])) 101)
    as [_ Hsecond].
  - reflexivity.
  - intros H. vm_compute in H. discriminate H.
  - reflexivity.
  - destruct (Hsecond 10%nat 4%nat 16 Sample.once_scheduled
                (Sample.run (markUpdateLaneFromFiberToRoot 10 4%nat 16)
                   Sample.once_scheduled))
      as (Hrun & Htrace & _).
    + vm_compute. reflexivity.
    + vm_compute. reflexivity.
    + eexists. split; [exact Hrun|]. split; [exact Htrace|].
      rewrite Htrace. reflexivity.
Defined.

(** *** The concurrent entry point *)

Section concurrent.
Context `{C : Collaborators}.

(** Slicing is chosen exactly when no blocking lane and no expired lane is
    selected and the callback did not time out. *)
Lemma shouldTimeSlice_true li lanes didTimeout :
  shouldTimeSlice li lanes didTimeout = true ↔
  includesBlockingLane li lanes = false ∧
  includesExpiredLane li lanes = false ∧
  didTimeout = false.
Proof.
  unfold shouldTimeSlice.
  destruct (includesBlockingLane li lanes), (includesExpiredLane li lanes), didTimeout;
    simpl; intuition congruence.
Qed.

(** When slicing is chosen, nothing is rendered: the call goes from the
    lane selection straight to reading [root.current.alternate] and to the
    commit, whatever the fuel and the reconciler are. *)
Lemma performConcurrentWorkOnRoot_sliced fuel w root r :
  roots w !! root = Some r →
  let lanes :=
    getNextLanes (laneInfo r)
      (if decide (Some root = workInProgressRoot w)
       then workInProgressRootRenderLanes w else NoLanes) in
  lanes ≠ NoLanes →
  shouldTimeSlice (laneInfo r) lanes false = true →
  performConcurrentWorkOnRoot fuel root false w =
    (let* r := getRoot root in
     let* cur := getFiberW (current r) in
     do set_finishedWork root (alternate cur) then
     do finishConcurrentRender root then
     ret JUndefined) (with_currentEventTime w NoTimestamp).
Proof.
  intros Hr lanes Hlanes Hslice. unfold performConcurrentWorkOnRoot.
  unfold bind at 1, modify at 1.
  erewrite bind_Ok; [|by apply nextLanesOf_Some].
  cbn [workInProgressRoot workInProgressRootRenderLanes with_currentEventTime].
  fold lanes. rewrite decide_False by done.
  erewrite bind_Ok; [|by apply getRoot_Some].
  rewrite Hslice. by unfold renderRootConcurrent, bind at 1, ret at 1.
Qed.
End concurrent.

(** C9. On a root with one pending lane that is neither blocking nor
    expired, called without [didTimeout], [performConcurrentWorkOnRoot]
    chooses to time-slice, and then renders nothing: neither [beginWork] nor
    [completeWork] is called and [workInProgress] is left [null],
    [renderRootConcurrent] being the empty function of line 296; the stale
    [root.current.alternate] is committed as it is.  With [didTimeout] the
    same call runs the synchronous loop. *)
Theorem performConcurrentWorkOnRoot_sliced_renders_nothing :
  let w := Sample.world_of (Sample.root_with None None 0 64) in
  shouldTimeSlice (mkRootLanes 64 0 []) 64 false = true ∧
  trace (Sample.run (performConcurrentWorkOnRoot 10 1%nat false) w) =
    [EvCollaborator "commitMutationEffects" 2] ∧
  workInProgress (Sample.run (performConcurrentWorkOnRoot 10 1%nat false) w) = None ∧
  current <$> roots (Sample.run (performConcurrentWorkOnRoot 10 1%nat false) w) !! 1%nat =
    Some 2%nat ∧
  trace (Sample.run (performConcurrentWorkOnRoot 10 1%nat true) w) =
    [EvCollaborator "beginWork" 2; EvCollaborator "completeWork" 2;
     EvCollaborator "commitMutationEffects" 2].
Proof. repeat split; vm_compute; reflexivity. Qed.

(** * More properties *)

Import QueueFacts WorkLoopFacts FiberTree.

(** ** One update through the queue *)

Section oldest.
Implicit Types (s : Store).

Lemma getStateFromUpdate_folded s wip q u prev o :
  updates s !! u = Some o →
  getStateFromUpdate wip q u prev s = Ok (folded prev o, s).
Proof.
  intros Hu. unfold getStateFromUpdate, folded.
  rewrite (bind_Ok _ _ _ _ _ (getUpdate_Some _ _ _ Hu)).
  destruct (decide (tag o = UpdateState)); [|done].
  by destruct (loose_null (payload o)).
Qed.

(** The call on a node without alternate and with an empty base list:
    the oldest pending update is folded, and the queue is left empty. *)
Lemma processUpdateQueue_oldest s wip f q queue sq lastP lp u uo :
  fibers s !! wip = Some f → updateQueue f = Some q → alternate f = None →
  queues s !! q = Some queue → lastBaseUpdate queue = None →
  shareds s !! shared queue = Some sq → pending sq = Some lastP →
  updates s !! lastP = Some lp → next lp = Some u →
  updates s !! u = Some uo →
  let v := folded (baseState queue) uo in
  processUpdateQueue wip s =
    Ok (tt, mkStore
              (<[wip := mkFiber (f_tag f) (stateNode f) (return_ f) (sibling f) (alternate f)
                          (lanes f) (childLanes f) (updateQueue f) v
                          (pendingProps f) (memoizedProps f)]> (fibers s))
              (<[q := mkUpdateQueue v None None (shared queue) (effects queue)]> (queues s))
              (<[shared queue := mkSharedQueue None (sq_lanes sq)]> (shareds s))
              (<[lastP := mkUpdate (eventTime lp) (tag lp) (payload lp) (callback lp) None]>
                 (updates s))).
Proof.
  intros Hf Hq Halt Hqueue Hlast Hsq Hpend Hlp Hnext Hu v.
  unfold processUpdateQueue.
  erewrite bind_Ok; last first.
  { unfold transferPending.
    rewrite (bind_Ok _ _ _ _ _ (getFiber_Some _ _ _ Hf)), Hq.
    rewrite (bind_Ok _ _ _ _ _ (getQueue_Some _ _ _ Hqueue)).
    rewrite (bind_Ok _ _ _ _ _ (getShared_Some _ _ _ Hsq)), Hpend.
    rewrite (bind_Ok _ _ _ _ _ (set_pending_Some _ _ _ _ Hsq)).
    erewrite bind_Ok; [|by apply getUpdate_Some].
    erewrite bind_Ok; [|by apply set_next_Some].
    rewrite Hlast, Halt, Hnext. reflexivity. }
  unfold applyBaseUpdates.
  erewrite bind_Ok; [|by apply getQueue_Some].
  set (lp' := mkUpdate _ _ _ _ None).
  assert (∃ uo', <[lastP := lp']> (updates s) !! u = Some uo' ∧
                 folded (baseState queue) uo' = v) as (uo' & Huo' & Hv).
  { destruct (decide (u = lastP)) as [->|Hne].
    - exists lp'. rewrite lookup_insert_eq. split; [done|].
      rewrite Hlp in Hu. by injection Hu as <-.
    - exists uo. by rewrite lookup_insert_ne. }
  erewrite bind_Ok; [|by apply getStateFromUpdate_folded].
  rewrite Hv, decide_True by done.
  erewrite bind_Ok; [|by apply set_baseState_Some].
  erewrite bind_Ok; [|apply set_firstBaseUpdate_Some; cbn [queues]; apply lookup_insert_eq].
  erewrite bind_Ok; [|apply set_lastBaseUpdate_Some; cbn [queues]; apply lookup_insert_eq].
  erewrite set_memoizedState_Some by done.
  cbn [fibers queues shareds updates baseState firstBaseUpdate lastBaseUpdate shared effects].
  by rewrite !insert_insert_eq.
Qed.
End oldest.

Lemma assign_two_lookup prev p k :
  assign ∅ [prev; JObj p] !! k =
    match p !! k with
    | Some x => Some x
    | None => own_props prev !! k
    end.
Proof.
  unfold assign. simpl. rewrite !lookup_union, lookup_empty.
  destruct (p !! k), (own_props prev !! k); done.
Qed.

(** X1. Round trip of one update.  On a node without alternate whose base
    list and pending ring are empty, [enqueueUpdate] of an [UpdateState]
    update with the object payload [p] followed by [processUpdateQueue]
    returns, leaves the pending ring and the base list empty, and sets
    [memoizedState] and [baseState] to one merged object: every field of
    [p] with the value [p] gives it, every other field of the old
    [baseState] unchanged. *)
Theorem enqueue_then_process_merges_payload s wip f q queue sq u uo p :
  fibers s !! wip = Some f → updateQueue f = Some q → alternate f = None →
  queues s !! q = Some queue → lastBaseUpdate queue = None →
  shareds s !! shared queue = Some sq → pending sq = None →
  updates s !! u = Some uo → tag uo = UpdateState → payload uo = JObj p →
  ∃ s' m,
    (do enqueueUpdate wip u then processUpdateQueue wip) s = Ok (tt, s') ∧
    memoizedState <$> fibers s' !! wip = Some (JObj m) ∧
    queues s' !! q = Some (mkUpdateQueue (JObj m) None None (shared queue) (effects queue)) ∧
    pending <$> shareds s' !! shared queue = Some None ∧
    ∀ k, m !! k = match p !! k with
                  | Some x => Some x
                  | None => own_props (baseState queue) !! k
                  end.
Proof.
  intros Hf Hq Halt Hqueue Hlast Hsq Hpend Hu Htag Hpay.
  set (uo1 := mkUpdate (eventTime uo) (tag uo) (payload uo) (callback uo) (Some u)).
  set (s1 := mkStore (fibers s) (queues s)
               (<[shared queue := mkSharedQueue (Some u) (sq_lanes sq)]> (shareds s))
               (<[u := uo1]> (updates s))).
  assert (Henq : enqueueUpdate wip u s = Ok (tt, s1)).
  { unfold enqueueUpdate.
    rewrite (bind_Ok _ _ _ _ _ (getFiber_Some _ _ _ Hf)), Hq.
    rewrite (bind_Ok _ _ _ _ _ (getQueue_Some _ _ _ Hqueue)).
    rewrite (bind_Ok _ _ _ _ _ (getShared_Some _ _ _ Hsq)), Hpend.
    erewrite bind_Ok; [|by apply set_next_Some].
    by erewrite set_pending_Some. }
  rewrite (bind_Ok _ _ _ _ _ Henq).
  rewrite (processUpdateQueue_oldest s1 wip f q queue
             (mkSharedQueue (Some u) (sq_lanes sq)) u uo1 u uo1); try done;
    try (unfold s1; cbn [shareds updates]; by rewrite lookup_insert_eq).
  unfold folded. cbn [tag payload uo1]. rewrite Htag, decide_True, Hpay by done.
  cbn [loose_null].
  eexists _, _. split; [done|]. cbn [fibers queues shareds updates].
  rewrite !lookup_insert_eq. cbn.
  split; [done|]. split; [done|]. split; [done|]. apply assign_two_lookup.
Qed.

(** X2. An [UpdateState] update whose payload is [null] or [undefined]
    changes no state: when the oldest pending update of a node (no
    alternate, empty base list) carries the tag [UpdateState] and such a
    payload, [processUpdateQueue] sets [memoizedState] to the old
    [baseState], keeps [baseState], and empties the ring and the base
    list. *)
Theorem processUpdateQueue_null_payload_keeps_baseState
    s wip f q queue sq lastP lp u uo :
  fibers s !! wip = Some f → updateQueue f = Some q → alternate f = None →
  queues s !! q = Some queue → lastBaseUpdate queue = None →
  shareds s !! shared queue = Some sq → pending sq = Some lastP →
  updates s !! lastP = Some lp → next lp = Some u →
  updates s !! u = Some uo →
  tag uo = UpdateState → loose_null (payload uo) = true →
  ∃ s',
    processUpdateQueue wip s = Ok (tt, s') ∧
    memoizedState <$> fibers s' !! wip = Some (baseState queue) ∧
    queues s' !! q =
      Some (mkUpdateQueue (baseState queue) None None (shared queue) (effects queue)) ∧
    pending <$> shareds s' !! shared queue = Some None.
Proof.
  intros Hf Hq Halt Hqueue Hlast Hsq Hpend Hlp Hnext Hu Htag Hnull.
  rewrite (processUpdateQueue_oldest s wip f q queue sq lastP lp u uo); try done.
  unfold folded. rewrite Htag, decide_True, Hnull by done.
  eexists. split; [done|]. cbn [fibers queues shareds updates].
  by rewrite !lookup_insert_eq.
Qed.

(** X3. [getStateFromUpdate] has a [case] for [UpdateState] only: on a
    node without alternate and with an empty base list, when the oldest
    pending update carries any other tag, [processUpdateQueue] returns
    with [memoizedState] and [baseState] both [undefined], whatever the old
    state and the payload are. *)
Theorem processUpdateQueue_other_tag_gives_undefined
    s wip f q queue sq lastP lp u uo :
  fibers s !! wip = Some f → updateQueue f = Some q → alternate f = None →
  queues s !! q = Some queue → lastBaseUpdate queue = None →
  shareds s !! shared queue = Some sq → pending sq = Some lastP →
  updates s !! lastP = Some lp → next lp = Some u →
  updates s !! u = Some uo →
  tag uo ≠ UpdateState →
  ∃ s',
    processUpdateQueue wip s = Ok (tt, s') ∧
    memoizedState <$> fibers s' !! wip = Some JUndefined ∧
    queues s' !! q =
      Some (mkUpdateQueue JUndefined None None (shared queue) (effects queue)) ∧
    pending <$> shareds s' !! shared queue = Some None.
Proof.
  intros Hf Hq Halt Hqueue Hlast Hsq Hpend Hlp Hnext Hu Htag.
  rewrite (processUpdateQueue_oldest s wip f q queue sq lastP lp u uo); try done.
  unfold folded. rewrite decide_False by done.
  eexists. split; [done|]. cbn [fibers queues shareds updates].
  by rewrite !lookup_insert_eq.
Qed.

(** X4. [current.updateQueue] is read without a check: on a node with a
    queue whose alternate has none, [processUpdateQueue] throws a
    [TypeError] as soon as an update is pending, and returns when none
    is. *)
Theorem processUpdateQueue_throws_on_alternate_without_queue
    s wip f q queue sq lastP cur cf :
  store_closed s →
  fibers s !! wip = Some f → updateQueue f = Some q →
  queues s !! q = Some queue →
  shareds s !! shared queue = Some sq →
  alternate f = Some cur → fibers s !! cur = Some cf → updateQueue cf = None →
  (pending sq = Some lastP → processUpdateQueue wip s = Throw TypeError) ∧
  (pending sq = None → ∃ s', processUpdateQueue wip s = Ok (tt, s')).
Proof.
  intros Hcl Hf Hq Hqueue Hsq Halt Hcur Hcq. split.
  - intros Hpend.
    pose proof (closed_shared _ Hcl _ _ Hsq) as Hlp. rewrite Hpend in Hlp.
    destruct Hlp as [lp Hlp].
    pose proof (closed_queue _ Hcl _ _ Hqueue) as (_ & _ & Hlast).
    unfold processUpdateQueue. apply bind_Throw. unfold transferPending.
    rewrite (bind_Ok _ _ _ _ _ (getFiber_Some _ _ _ Hf)), Hq.
    rewrite (bind_Ok _ _ _ _ _ (getQueue_Some _ _ _ Hqueue)).
    rewrite (bind_Ok _ _ _ _ _ (getShared_Some _ _ _ Hsq)), Hpend.
    rewrite (bind_Ok _ _ _ _ _ (set_pending_Some _ _ _ _ Hsq)).
    erewrite bind_Ok; [|by apply getUpdate_Some].
    erewrite bind_Ok; [|by apply set_next_Some].
    cbn [fibers queues shareds updates].
    set (s0 := mkStore _ _ _ _).
    assert (∃ fb, (match lastBaseUpdate queue with
                   | None => ret (next lp)
                   | Some l => let* lb := getUpdate l in ret (next lb)
                   end : M Store (option nat)) s0 = Ok (fb, s0)) as [fb Hfb].
    { destruct (lastBaseUpdate queue) as [l|]; [|by eexists].
      destruct Hlast as [lb Hlb].
      destruct (decide (l = lastP)) as [->|Hne].
      - eexists. erewrite bind_Ok; [done|]. apply getUpdate_Some, lookup_insert_eq.
      - exists (next lb). erewrite bind_Ok; [done|]. apply getUpdate_Some. simpl.
        rewrite lookup_insert_ne by done. exact Hlb. }
    rewrite (bind_Ok _ _ _ _ _ Hfb), Halt.
    apply bind_Throw.
    erewrite bind_Ok; [|by apply getFiber_Some]. by rewrite Hcq.
  - intros Hpend.
    pose proof (closed_queue _ Hcl _ _ Hqueue) as (_ & Hfirst & _).
    destruct (applyBaseUpdates_frame s wip q (firstBaseUpdate queue) f queue)
      as (s2 & Hrun & _); try done.
    exists s2. unfold processUpdateQueue.
    assert (Ht : transferPending wip s =
                 Ok ((q, firstBaseUpdate queue, lastBaseUpdate queue), s)).
    { unfold transferPending.
      rewrite (bind_Ok _ _ _ _ _ (getFiber_Some _ _ _ Hf)), Hq.
      rewrite (bind_Ok _ _ _ _ _ (getQueue_Some _ _ _ Hqueue)).
      by rewrite (bind_Ok _ _ _ _ _ (getShared_Some _ _ _ Hsq)), Hpend. }
    by rewrite (bind_Ok _ _ _ _ _ Ht).
Qed.

(** X5. [initializeUpdateQueue] on any fiber gives it a new queue over a
    new shared object: [baseState] is the fiber's [memoizedState], the base
    list and the pending ring are empty, and no other fiber, queue, shared
    object or update is touched.  Processing that queue at once returns
    and changes nothing. *)
Theorem initializeUpdateQueue_attaches_empty_queue s fiber f :
  fibers s !! fiber = Some f →
  ∃ q sq s',
    initializeUpdateQueue fiber s = Ok (q, s') ∧
    queues s !! q = None ∧ shareds s !! sq = None ∧
    fibers s' !! fiber =
      Some (mkFiber (f_tag f) (stateNode f) (return_ f) (sibling f) (alternate f)
              (lanes f) (childLanes f) (Some q) (memoizedState f)
              (pendingProps f) (memoizedProps f)) ∧
    queues s' !! q = Some (mkUpdateQueue (memoizedState f) None None sq None) ∧
    ring s' sq [] ∧
    (∀ r, r ≠ fiber → fibers s' !! r = fibers s !! r) ∧
    (∀ r, r ≠ q → queues s' !! r = queues s !! r) ∧
    (∀ r, r ≠ sq → shareds s' !! r = shareds s !! r) ∧
    updates s' = updates s ∧
    processUpdateQueue fiber s' = Ok (tt, s').
Proof.
  intros Hf. exists (fresh (queues s)), (fresh (shareds s)).
  eexists. split.
  { unfold initializeUpdateQueue.
    rewrite (bind_Ok _ _ _ _ _ (getFiber_Some _ _ _ Hf)).
    unfold bind at 1, get at 1. unfold bind at 1, putShared at 1, modify at 1.
    unfold bind at 1, putQueue at 1, modify at 1.
    unfold set_updateQueue.
    erewrite bind_Ok; [reflexivity|].
    erewrite bind_Ok; [reflexivity|]. by apply getFiber_Some. }
  cbn [fibers queues shareds updates].
  split; [apply fresh_unallocated|]. split; [apply fresh_unallocated|].
  split; [by rewrite lookup_insert_eq|]. split; [by rewrite lookup_insert_eq|].
  split.
  { eexists. cbn [shareds]. split; [by rewrite lookup_insert_eq|].
    split; [done|]. split; [constructor|done]. }
  split; [intros r Hr; by rewrite lookup_insert_ne|].
  split; [intros r Hr; by rewrite lookup_insert_ne|].
  split; [intros r Hr; by rewrite lookup_insert_ne|].
  split; [done|].
  eapply processUpdateQueue_nothing_queued; cbn [fibers queues shareds];
    try (by rewrite lookup_insert_eq); done.
Qed.

Lemma enqueueCreated_fresh n : ∀ s f fiber q queue l0,
  fibers s !! f = Some fiber → updateQueue fiber = Some q →
  queues s !! q = Some queue →
  ring s (shared queue) l0 →
  ∃ s' us, enqueueCreated n f s = Ok (us, s') ∧ length us = n ∧
           ring s' (shared queue) (l0 ++ us) ∧
           (∀ u, u ∈ us → updates s !! u = None) ∧
           (∀ r, is_Some (updates s !! r) → is_Some (updates s' !! r)).
Proof.
  induction n as [|n IH]; intros s f fiber q queue l0 Hf Hq Hqueue Hring.
  - exists s, []. rewrite app_nil_r. split; [done|]. split; [done|]. split; [done|].
    split; [|done]. intros u Hu. by apply elem_of_nil in Hu.
  - destruct (createUpdate_new s _ _ Hring)
      as (s1 & Hnew & Hnotin & Halloc & Hf1 & Hq1 & Hring1).
    assert (Hmono1 : ∀ r, is_Some (updates s !! r) → is_Some (updates s1 !! r)).
    { unfold createUpdate, bind, get, putUpdate, modify, ret in Hnew.
      injection Hnew as <-. intros r Hr. cbn [updates].
      destruct (decide (fresh (updates s) = r)) as [<-|Hne];
        [rewrite lookup_insert_eq; by eexists|by rewrite lookup_insert_ne]. }
    destruct (enqueueUpdate_ring s1 f fiber q queue l0 (fresh (updates s)))
      as (s2 & Hrun & Hring2 & Hf2 & Hq2 & Hmono2); try done.
    { by rewrite Hf1. } { by rewrite Hq1. }
    destruct (IH s2 f fiber q queue (l0 ++ [fresh (updates s)]))
      as (s3 & us & Hrest & Hlen & Hring3 & Hfresh & Hmono3); try done.
    { by rewrite Hf2, Hf1. } { by rewrite Hq2, Hq1. }
    exists s3, (fresh (updates s) :: us). simpl.
    rewrite (bind_Ok _ _ _ _ _ Hnew), (bind_Ok _ _ _ _ _ Hrun), (bind_Ok _ _ _ _ _ Hrest).
    split; [done|]. split; [by rewrite Hlen|].
    split; [by rewrite <-(assoc_L (++)) in Hring3|]. split.
    + intros u Hu. apply elem_of_cons in Hu as [->|Hu]; [apply fresh_unallocated|].
      specialize (Hfresh u Hu). destruct (updates s !! u) eqn:Hsu; [|done].
      assert (Hs2 : is_Some (updates s2 !! u)) by (apply Hmono2, Hmono1; by eexists).
      rewrite Hfresh in Hs2. by destruct Hs2.
    + intros r Hr. by apply Hmono3, Hmono2, Hmono1.
Qed.

(** X6. [createUpdate] followed by [enqueueUpdate], [n] times over, on a
    node whose pending ring holds [l0]: the [n] updates are new objects,
    the ring afterwards holds [l0] followed by them in creation order
    without repetition, [shared.pending] is the newest, and following
    [next] from the oldest comes back round through every one of them. *)
Theorem enqueueCreated_appends_new_updates n s f fiber q queue l0 :
  fibers s !! f = Some fiber → updateQueue fiber = Some q →
  queues s !! q = Some queue →
  ring s (shared queue) l0 →
  ∃ s' us sq,
    enqueueCreated n f s = Ok (us, s') ∧
    length us = n ∧
    NoDup (l0 ++ us) ∧
    (∀ u, u ∈ us → updates s !! u = None) ∧
    ring s' (shared queue) (l0 ++ us) ∧
    shareds s' !! shared queue = Some sq ∧
    pending sq = last (l0 ++ us) ∧
    ∀ tail, pending sq = Some tail →
      ∃ oldest,
        head (l0 ++ us) = Some oldest ∧
        walk (updates s') (length (l0 ++ us)) oldest tail = Some (l0 ++ us).
Proof.
  intros Hf Hq Hqueue Hring.
  destruct (enqueueCreated_fresh n s f fiber q queue l0)
    as (s' & us & Hrun & Hlen & Hring' & Hfresh & _); try done.
  pose proof Hring' as (sq & Hsq & Hpend & Hnd & Hchain).
  exists s', us, sq. repeat (split; [done|]).
  intros tail Htail. rewrite Hpend in Htail.
  destruct (head (l0 ++ us)) as [oldest|] eqn:Hhd.
  - exists oldest. split; [done|]. by apply (chain_walk _ _ _ _ _ Hchain).
  - apply head_None in Hhd. by rewrite Hhd in Htail.
Qed.

(** X7. Whenever [processUpdateQueue] returns on a node with a queue, the
    pending ring of that queue is empty: [shared.pending] is [null]. *)
Theorem processUpdateQueue_leaves_no_pending s wip fiber q queue s' :
  fibers s !! wip = Some fiber → updateQueue fiber = Some q →
  queues s !! q = Some queue →
  processUpdateQueue wip s = Ok (tt, s') →
  ring s' (shared queue) [] ∧
  pending <$> shareds s' !! shared queue = Some None.
Proof.
  intros Hf Hq Hqueue Hrun.
  pose proof (processUpdateQueue_empties_ring s wip fiber q queue s' Hf Hq Hqueue Hrun)
    as Hring.
  split; [done|]. destruct Hring as (o & Ho & Hp & _). rewrite Ho. simpl. by rewrite Hp.
Qed.

(** X22. However many updates are pending, one is folded.  On a node
    without alternate and with an empty base list whose pending ring holds
    [u] followed by [rest], [processUpdateQueue] returns with
    [memoizedState] and [baseState] equal to the fold of [u] alone into the
    old [baseState]; the base list and the ring are empty afterwards, so
    the updates of [rest] are reachable from the queue no more. *)
Theorem processUpdateQueue_folds_oldest_and_drops_rest s wip f q queue u uo rest :
  fibers s !! wip = Some f → updateQueue f = Some q → alternate f = None →
  queues s !! q = Some queue → lastBaseUpdate queue = None →
  ring s (shared queue) (u :: rest) →
  updates s !! u = Some uo →
  ∃ s',
    processUpdateQueue wip s = Ok (tt, s') ∧
    memoizedState <$> fibers s' !! wip = Some (folded (baseState queue) uo) ∧
    queues s' !! q =
      Some (mkUpdateQueue (folded (baseState queue) uo) None None
              (shared queue) (effects queue)) ∧
    ring s' (shared queue) [].
Proof.
  intros Hf Hq Halt Hqueue Hlast (sq & Hsq & Hpend & _ & Hchain) Hu.
  destruct (last (u :: rest)) as [lastP|] eqn:Hl;
    [|by apply last_None in Hl].
  pose proof (chain_last _ _ _ _ Hchain Hl) as Hnext.
  destruct (updates s !! lastP) as [lp|] eqn:Hlp; [|done].
  simpl in Hnext. injection Hnext as Hnext.
  eexists. split.
  { by eapply (processUpdateQueue_oldest s wip f q queue sq lastP lp u uo). }
  cbn [fibers queues shareds updates]. rewrite !lookup_insert_eq.
  split; [done|]. split; [done|].
  eexists. split; [apply lookup_insert_eq|]. split; [done|].
  split; [constructor|exact I].
Qed.

(** X23. With nothing pending and a base list that starts at [u],
    [processUpdateQueue] folds [u] into [baseState], stores the result as
    [memoizedState] and [baseState], and empties the base list, whatever
    followed [u] on it; no update, no shared queue and no other fiber or
    queue is written, and the alternate is not read. *)
Theorem processUpdateQueue_folds_head_of_base_list s wip f q queue sq u uo :
  fibers s !! wip = Some f → updateQueue f = Some q →
  queues s !! q = Some queue →
  shareds s !! shared queue = Some sq → pending sq = None →
  firstBaseUpdate queue = Some u →
  updates s !! u = Some uo →
  let v := folded (baseState queue) uo in
  processUpdateQueue wip s =
    Ok (tt, mkStore
              (<[wip := mkFiber (f_tag f) (stateNode f) (return_ f) (sibling f) (alternate f)
                          (lanes f) (childLanes f) (updateQueue f) v
                          (pendingProps f) (memoizedProps f)]> (fibers s))
              (<[q := mkUpdateQueue v None None (shared queue) (effects queue)]> (queues s))
              (shareds s) (updates s)).
Proof.
  intros Hf Hq Hqueue Hsq Hpend Hfirst Hu v.
  unfold processUpdateQueue.
  erewrite bind_Ok; last first.
  { unfold transferPending.
    rewrite (bind_Ok _ _ _ _ _ (getFiber_Some _ _ _ Hf)), Hq.
    rewrite (bind_Ok _ _ _ _ _ (getQueue_Some _ _ _ Hqueue)).
    rewrite (bind_Ok _ _ _ _ _ (getShared_Some _ _ _ Hsq)), Hpend.
    reflexivity. }
  rewrite Hfirst. unfold applyBaseUpdates.
  erewrite bind_Ok; [|by apply getQueue_Some].
  erewrite bind_Ok; [|by apply getStateFromUpdate_folded].
  rewrite decide_True by done.
  erewrite bind_Ok; [|by apply set_baseState_Some].
  erewrite bind_Ok; [|apply set_firstBaseUpdate_Some; cbn [queues]; apply lookup_insert_eq].
  erewrite bind_Ok; [|apply set_lastBaseUpdate_Some; cbn [queues]; apply lookup_insert_eq].
  erewrite set_memoizedState_Some by done.
  cbn [fibers queues shareds updates baseState firstBaseUpdate lastBaseUpdate shared effects].
  by rewrite !insert_insert_eq.
Qed.

Lemma enqueue_then_process_merges_payload_witness :
  ∃ s' m,
    (do enqueueUpdate 1%nat 1%nat then processUpdateQueue 1%nat) Sample.spec_example
      = Ok (tt, s') ∧
    memoizedState <$> fibers s' !! 1%nat = Some (JObj m) ∧
    m !! "a" = Some 1 ∧ m !! "b" = Some 2 ∧ m !! "c" = None.
Proof.
  destruct (enqueue_then_process_merges_payload Sample.spec_example 1%nat
              (Sample.queue_fiber (Some 1%nat) None (JObj {[ "a" := 1 ]})) 1%nat
              (mkUpdateQueue (JObj {[ "a" := 1 ]}) None None 1%nat None)
              (mkSharedQueue None 0) 1%nat
              (Sample.detached (JObj {[ "b" := 2 ]})) {[ "b" := 2 ]})
    as (s' & m & Hrun & Hstate & _ & _ & Hm);
    [reflexivity..|].
  exists s', m. split; [exact Hrun|]. split; [exact Hstate|].
  rewrite !Hm. repeat split; reflexivity.
Defined.

Lemma processUpdateQueue_null_payload_keeps_baseState_witness :
  ∃ s',
    processUpdateQueue 1%nat (Cases.one_pending UpdateState JNull) = Ok (tt, s') ∧
    memoizedState <$> fibers s' !! 1%nat = Some (JObj {[ "a" := 1 ]}).
Proof.
  destruct (processUpdateQueue_null_payload_keeps_baseState
              (Cases.one_pending UpdateState JNull) 1%nat
              (Sample.queue_fiber (Some 1%nat) None (JObj {[ "a" := 1 ]})) 1%nat
              (mkUpdateQueue (JObj {[ "a" := 1 ]}) None None 1%nat None)
              (mkSharedQueue (Some 1%nat) 0) 1%nat
              (mkUpdate 0 UpdateState JNull None (Some 1%nat)) 1%nat
              (mkUpdate 0 UpdateState JNull None (Some 1%nat)))
    as (s' & Hrun & Hstate & _);
    [reflexivity..|].
  exists s'. split; [exact Hrun|exact Hstate].
Defined.

Lemma processUpdateQueue_other_tag_gives_undefined_witness :
  ∃ s',
    processUpdateQueue 1%nat (Cases.one_pending 1 (JObj {[ "b" := 2 ]})) = Ok (tt, s') ∧
    memoizedState <$> fibers s' !! 1%nat = Some JUndefined.
Proof.
  destruct (processUpdateQueue_other_tag_gives_undefined
              (Cases.one_pending 1 (JObj {[ "b" := 2 ]})) 1%nat
              (Sample.queue_fiber (Some 1%nat) None (JObj {[ "a" := 1 ]})) 1%nat
              (mkUpdateQueue (JObj {[ "a" := 1 ]}) None None 1%nat None)
              (mkSharedQueue (Some 1%nat) 0) 1%nat
              (mkUpdate 0 1 (JObj {[ "b" := 2 ]}) None (Some 1%nat)) 1%nat
              (mkUpdate 0 1 (JObj {[ "b" := 2 ]}) None (Some 1%nat)))
    as (s' & Hrun & Hstate & _);
    [reflexivity..|discriminate|].
  exists s'. split; [exact Hrun|exact Hstate].
Defined.

Lemma processUpdateQueue_throws_on_alternate_without_queue_witness :
  processUpdateQueue 1%nat (Cases.twin_without_queue (Some 1%nat)) = Throw TypeError.
Proof.
  destruct (processUpdateQueue_throws_on_alternate_without_queue
              (Cases.twin_without_queue (Some 1%nat)) 1%nat
              (Sample.queue_fiber (Some 1%nat) (Some 2%nat) JNull) 1%nat
              (mkUpdateQueue JNull None None 1%nat None)
              (mkSharedQueue (Some 1%nat) 0) 1%nat 2%nat
              (Sample.queue_fiber None (Some 1%nat) JNull))
    as [Hthrow _].
  - apply (bool_decide_unpack _). vm_compute. exact I.
  - reflexivity.
  - reflexivity.
  - reflexivity.
  - reflexivity.
  - reflexivity.
  - reflexivity.
  - reflexivity.
  - apply Hthrow. reflexivity.
Defined.

Lemma initializeUpdateQueue_attaches_empty_queue_witness :
  ∃ q s',
    initializeUpdateQueue 1%nat Sample.no_queue = Ok (q, s') ∧
    updateQueue <$> fibers s' !! 1%nat = Some (Some q) ∧
    processUpdateQueue 1%nat s' = Ok (tt, s').
Proof.
  destruct (initializeUpdateQueue_attaches_empty_queue Sample.no_queue 1%nat
              (Sample.queue_fiber None None JNull))
    as (q & sq & s' & Hrun & _ & _ & Hf & _ & _ & _ & _ & _ & _ & Hproc).
  - reflexivity.
  - exists q, s'. split; [exact Hrun|]. split; [by rewrite Hf|exact Hproc].
Defined.

Lemma enqueueCreated_appends_new_updates_witness :
  ∃ s' us,
    enqueueCreated 3 1%nat Sample.twins = Ok (us, s') ∧
    length us = 3%nat ∧
    ring s' 1%nat ([1; 2]%nat ++ us).
Proof.
  destruct (enqueueCreated_appends_new_updates 3 Sample.twins 1%nat
              (Sample.queue_fiber (Some 1%nat) (Some 2%nat) (JObj {[ "a" := 1 ]})) 1%nat
              (mkUpdateQueue (JObj {[ "a" := 1 ]}) None None 1%nat None)
              [1; 2]%nat)
    as (s' & us & sq & Hrun & Hlen & _ & _ & Hring & _).
  - reflexivity.
  - reflexivity.
  - reflexivity.
  - exists (mkSharedQueue (Some 2%nat) 0). split; [reflexivity|]. split; [reflexivity|].
    split; [apply (bool_decide_unpack _); vm_compute; exact I|].
    repeat split; reflexivity.
  - exists s', us. split; [exact Hrun|]. split; [exact Hlen|exact Hring].
Defined.

Lemma processUpdateQueue_leaves_no_pending_witness :
  ∃ s',
    processUpdateQueue 1%nat Sample.twins = Ok (tt, s') ∧
    ring s' 1%nat [].
Proof.
  destruct (processUpdateQueue 1%nat Sample.twins) as [[[] s']|e] eqn:Hrun;
    [|vm_compute in Hrun; discriminate Hrun].
  destruct (processUpdateQueue_leaves_no_pending Sample.twins 1%nat
              (Sample.queue_fiber (Some 1%nat) (Some 2%nat) (JObj {[ "a" := 1 ]})) 1%nat
              (mkUpdateQueue (JObj {[ "a" := 1 ]}) None None 1%nat None) s')
    as [Hring _].
  - reflexivity.
  - reflexivity.
  - reflexivity.
  - exact Hrun.
  - exists s'. split; [reflexivity|exact Hring].
Defined.

Lemma processUpdateQueue_folds_oldest_and_drops_rest_witness :
  ∃ s',
    processUpdateQueue 1%nat Cases.two_pending = Ok (tt, s') ∧
    memoizedState <$> fibers s' !! 1%nat = Some (JObj {[ "a" := 1; "b" := 2 ]}) ∧
    ring s' 1%nat [].
Proof.
  destruct (processUpdateQueue_folds_oldest_and_drops_rest Cases.two_pending 1%nat
              (Sample.queue_fiber (Some 1%nat) None (JObj {[ "a" := 1 ]})) 1%nat
              (mkUpdateQueue (JObj {[ "a" := 1 ]}) None None 1%nat None)
              1%nat (mkUpdate 0 UpdateState (JObj {[ "b" := 2 ]}) None (Some 2%nat))
              [2%nat])
    as (s' & Hrun & Hstate & _ & Hring).
  - reflexivity.
  - reflexivity.
  - reflexivity.
  - reflexivity.
  - reflexivity.
  - exists (mkSharedQueue (Some 2%nat) 0). split; [reflexivity|]. split; [reflexivity|].
    split; [apply (bool_decide_unpack _); vm_compute; exact I|].
    repeat split; reflexivity.
  - reflexivity.
  - exists s'. split; [exact Hrun|]. split; [|exact Hring].
    rewrite Hstate. vm_compute. reflexivity.
Defined.

Lemma processUpdateQueue_folds_head_of_base_list_witness :
  ∃ s' queue',
    processUpdateQueue 1%nat Cases.base_only = Ok (tt, s') ∧
    memoizedState <$> fibers s' !! 1%nat = Some (JObj {[ "a" := 1; "x" := 1 ]}) ∧
    queues s' !! 1%nat = Some queue' ∧
    firstBaseUpdate queue' = None ∧ lastBaseUpdate queue' = None.
Proof.
  pose proof (processUpdateQueue_folds_head_of_base_list Cases.base_only 1%nat
                (Sample.queue_fiber (Some 1%nat) None (JObj {[ "a" := 1 ]})) 1%nat
                (mkUpdateQueue (JObj {[ "a" := 1 ]}) (Some 10%nat) (Some 11%nat) 1%nat None)
                (mkSharedQueue None 0) 10%nat
                (mkUpdate 0 UpdateState (JObj {[ "x" := 1 ]}) None (Some 11%nat))
                eq_refl eq_refl eq_refl eq_refl eq_refl eq_refl eq_refl) as Hrun.
  eexists _, _. split; [exact Hrun|].
  split; [vm_compute; reflexivity|]. split; [apply lookup_insert_eq|].
  split; reflexivity.
Defined.

(** ** Arming a callback *)

Section arming.
Context `{C : Collaborators}.
Implicit Types (w : World).

Lemma cancel_step w r :
  (match callbackNode r with
   | Some h => cancelCallback h
   | None => ret tt
   end) w = Ok (tt, with_trace w (trace w ++ cancelled r) (next_handle w)).
Proof.
  unfold cancelled. destruct (callbackNode r); [done|].
  unfold ret, with_trace. rewrite app_nil_r. by destruct w.
Qed.

(** The run that arms a synchronous pass. *)
Lemma sync_arming_run w root r t :
  roots w !! root = Some r →
  getHighestPriorityLane (scheduledLanes w root r t) = SyncLane →
  callbackPriority r ≠ SyncLane →
  ensureRootIsScheduled root t w =
    Ok (tt, with_trace
              (with_roots w
                 (<[root := mkFiberRoot (current r) (finishedWork r) (finishedLanes r)
                              None SyncLane
                              (markStarvedLanesAsExpired (laneInfo r) t)]> (roots w)))
              (trace w ++ cancelled r ++ [EvScheduleSyncCallback root; EvScheduleMicrotask])
              (next_handle w)).
Proof.
  intros Hr Hp Hne.
  assert (Hn : scheduledLanes w root r t ≠ NoLanes).
  { intros Hn. by rewrite Hn in Hp. }
  unfold ensureRootIsScheduled, scheduledLanes in *.
  rewrite (bind_Ok _ _ _ _ _ (getRoot_Some _ _ _ Hr)).
  unfold markStarvedLanesAsExpired_.
  rewrite (bind_Ok _ _ _ _ _ (update_laneInfo_Some _ _ _ _ Hr)).
  erewrite bind_Ok; [|apply nextLanesOf_Some; simpl; apply lookup_insert_eq].
  simpl. rewrite decide_False by done.
  erewrite bind_Ok; [|apply getRoot_Some; simpl; apply lookup_insert_eq].
  simpl. rewrite Hp. rewrite decide_False by done.
  rewrite (bind_Ok _ _ _ _ _ (cancel_step _ r)).
  rewrite decide_True by done.
  unfold bind at 1. unfold bind at 1. unfold bind at 1. simpl.
  erewrite bind_Ok; [|apply set_callbackNode_Some; simpl; apply lookup_insert_eq].
  erewrite set_callbackPriority_Some; [|simpl; apply lookup_insert_eq].
  simpl. unfold with_trace, with_roots. simpl.
  by rewrite !insert_insert_eq, <-!(assoc_L (++)).
Qed.

(** The run that arms a scheduler callback. *)
Lemma callback_arming_run w root r t :
  roots w !! root = Some r →
  let nextLanes := scheduledLanes w root r t in
  let p := getHighestPriorityLane nextLanes in
  nextLanes ≠ NoLanes → p ≠ SyncLane → callbackPriority r ≠ p →
  ensureRootIsScheduled root t w =
    Ok (tt, with_trace
              (with_roots w
                 (<[root := mkFiberRoot (current r) (finishedWork r) (finishedLanes r)
                              (Some (next_handle w)) p
                              (markStarvedLanesAsExpired (laneInfo r) t)]> (roots w)))
              (trace w ++ cancelled r ++
               [EvScheduleCallback (schedulerPriorityLevel (lanesToEventPriority nextLanes))
                  root (next_handle w)])
              (S (next_handle w))).
Proof.
  intros Hr nextLanes p Hn Hsync Hne. subst nextLanes p.
  unfold ensureRootIsScheduled, scheduledLanes in *.
  rewrite (bind_Ok _ _ _ _ _ (getRoot_Some _ _ _ Hr)).
  unfold markStarvedLanesAsExpired_.
  rewrite (bind_Ok _ _ _ _ _ (update_laneInfo_Some _ _ _ _ Hr)).
  erewrite bind_Ok; [|apply nextLanesOf_Some; simpl; apply lookup_insert_eq].
  simpl. rewrite decide_False by done.
  erewrite bind_Ok; [|apply getRoot_Some; simpl; apply lookup_insert_eq].
  simpl. rewrite decide_False by done.
  rewrite (bind_Ok _ _ _ _ _ (cancel_step _ r)).
  rewrite decide_False by done.
  unfold bind at 1. unfold bind at 1. unfold scheduleCallback, bind at 1, get at 1.
  unfold bind at 1. simpl.
  erewrite bind_Ok; [|apply set_callbackNode_Some; simpl; apply lookup_insert_eq].
  erewrite set_callbackPriority_Some; [|simpl; apply lookup_insert_eq].
  simpl. unfold with_trace, with_roots, schedulerPriorityLevel. simpl.
  by rewrite !insert_insert_eq, <-!(assoc_L (++)).
Qed.
End arming.

Section ensure_post.
Context `{C : Collaborators}.
Implicit Types (w : World).

(** X8. When the highest selected lane is [SyncLane] and the root is not
    already armed at that priority, [ensureRootIsScheduled] cancels the
    recorded callback if there is one, then calls [scheduleSyncCallback]
    and [scheduleMicrotask], in this order and nothing else; it asks the
    scheduler for no handle, and leaves [callbackNode = null] and
    [callbackPriority = SyncLane]. *)
Theorem ensureRootIsScheduled_arms_sync w root r t :
  roots w !! root = Some r →
  getHighestPriorityLane (scheduledLanes w root r t) = SyncLane →
  callbackPriority r ≠ SyncLane →
  ∃ w',
    ensureRootIsScheduled root t w = Ok (tt, w') ∧
    trace w' =
      trace w ++ cancelled r ++ [EvScheduleSyncCallback root; EvScheduleMicrotask] ∧
    next_handle w' = next_handle w ∧
    callbackNode <$> roots w' !! root = Some None ∧
    callbackPriority <$> roots w' !! root = Some SyncLane.
Proof.
  intros Hr Hp Hne. eexists.
  split; [by apply sync_arming_run|].
  simpl. rewrite lookup_insert_eq. done.
Qed.

(** X9. When lanes are selected, their highest lane [p] is not [SyncLane]
    and the root is armed at another priority (or not at all),
    [ensureRootIsScheduled] cancels the recorded callback if there is one
    and schedules exactly one new callback, at the scheduler priority of
    the lanes' event priority; the root records the new handle and [p]. *)
Theorem ensureRootIsScheduled_preempts w root r t :
  roots w !! root = Some r →
  let nextLanes := scheduledLanes w root r t in
  let p := getHighestPriorityLane nextLanes in
  nextLanes ≠ NoLanes → p ≠ SyncLane → callbackPriority r ≠ p →
  ∃ w',
    ensureRootIsScheduled root t w = Ok (tt, w') ∧
    trace w' =
      trace w ++ cancelled r ++
      [EvScheduleCallback (schedulerPriorityLevel (lanesToEventPriority nextLanes))
         root (next_handle w)] ∧
    next_handle w' = S (next_handle w) ∧
    callbackNode <$> roots w' !! root = Some (Some (next_handle w)) ∧
    callbackPriority <$> roots w' !! root = Some p.
Proof.
  intros Hr nextLanes p Hn Hsync Hne. eexists.
  split; [by apply callback_arming_run|].
  simpl. rewrite lookup_insert_eq. done.
Qed.

(** Every run on an existing root returns, and records the priority of the
    lanes it selected. *)
Lemma ensureRootIsScheduled_post w root r t :
  roots w !! root = Some r →
  ∃ w' r',
    ensureRootIsScheduled root t w = Ok (tt, w') ∧
    roots w' !! root = Some r' ∧
    callbackPriority r' = getHighestPriorityLane (scheduledLanes w root r t) ∧
    slot_wf r' ∧
    laneInfo r' = markStarvedLanesAsExpired (laneInfo r) t ∧
    current r' = current r ∧ finishedWork r' = finishedWork r ∧
    (∀ x, x ≠ root → roots w' !! x = roots w !! x) ∧
    store w' = store w ∧
    workInProgress w' = workInProgress w ∧
    workInProgressRoot w' = workInProgressRoot w ∧
    (length (armed (trace w')) ≤ S (length (armed (trace w))))%nat.
Proof.
  intros Hr.
  destruct (decide (scheduledLanes w root r t = NoLanes)) as [Hn|Hn].
  { eexists _, _. split; [by apply ensureRootIsScheduled_nothing_to_do|].
    simpl. rewrite lookup_insert_eq. split; [done|]. simpl.
    rewrite Hn. split; [done|]. split; [done|]. repeat (split; [done|]).
    split; [intros x Hx; by rewrite lookup_insert_ne|]. repeat (split; [done|]).
    unfold armed. rewrite List.filter_app, length_app.
    destruct (callbackNode r); simpl; lia. }
  pose proof (getHighestPriorityLane_nonzero _ Hn) as Hp.
  destruct (decide (callbackPriority r = getHighestPriorityLane (scheduledLanes w root r t)))
    as [Heq|Hne].
  { eexists _, _. split; [by apply ensureRootIsScheduled_same_priority|].
    simpl. rewrite lookup_insert_eq. split; [done|]. simpl.
    split; [done|]. split; [intros H; simpl in H; congruence|]. repeat (split; [done|]).
    split; [intros x Hx; by rewrite lookup_insert_ne|]. repeat (split; [done|]). lia. }
  destruct (decide (getHighestPriorityLane (scheduledLanes w root r t) = SyncLane))
    as [Hs|Hs].
  { eexists _, _. split; [apply sync_arming_run; [done|done|by rewrite <-Hs]|].
    simpl. rewrite lookup_insert_eq. split; [done|]. simpl.
    split; [done|]. split; [done|]. repeat (split; [done|]).
    split; [intros x Hx; by rewrite lookup_insert_ne|]. repeat (split; [done|]).
    unfold armed, cancelled. rewrite !List.filter_app, !length_app.
    destruct (callbackNode r); simpl; lia. }
  eexists _, _. split; [by apply callback_arming_run|].
  simpl. rewrite lookup_insert_eq. split; [done|]. simpl.
  split; [done|]. split; [intros H; simpl in H; congruence|]. repeat (split; [done|]).
  split; [intros x Hx; by rewrite lookup_insert_ne|]. repeat (split; [done|]).
  unfold armed, cancelled. rewrite !List.filter_app, !length_app.
  destruct (callbackNode r); simpl; lia.
Qed.

(** X10. [ensureRootIsScheduled] returns on every existing root.
    Afterwards [callbackPriority] is the highest selected lane, a callback
    handle is recorded only together with a priority, the lane bookkeeping
    is what [markStarvedLanesAsExpired] made of it, [current] and
    [finishedWork] of the root, every other root, all fibers and queues and
    the render in progress are untouched, and at most one callback was
    armed. *)
Theorem ensureRootIsScheduled_records_priority w root r t :
  roots w !! root = Some r →
  ∃ w' r',
    ensureRootIsScheduled root t w = Ok (tt, w') ∧
    roots w' !! root = Some r' ∧
    callbackPriority r' = getHighestPriorityLane (scheduledLanes w root r t) ∧
    slot_wf r' ∧
    laneInfo r' = markStarvedLanesAsExpired (laneInfo r) t ∧
    current r' = current r ∧ finishedWork r' = finishedWork r ∧
    (∀ x, x ≠ root → roots w' !! x = roots w !! x) ∧
    store w' = store w ∧
    workInProgress w' = workInProgress w ∧
    workInProgressRoot w' = workInProgressRoot w ∧
    (length (armed (trace w')) ≤ S (length (armed (trace w))))%nat.
Proof. apply ensureRootIsScheduled_post. Qed.
End ensure_post.

Lemma ensureRootIsScheduled_arms_sync_witness :
  ∃ w',
    ensureRootIsScheduled 1%nat 100 (Sample.world_of (Sample.root_with None (Some 7%nat) 16 17))
      = Ok (tt, w') ∧
    trace w' = [EvCancelCallback 7; EvScheduleSyncCallback 1; EvScheduleMicrotask] ∧
    callbackNode <$> roots w' !! 1%nat = Some None.
Proof.
  destruct (ensureRootIsScheduled_arms_sync
              (Sample.world_of (Sample.root_with None (Some 7%nat) 16 17)) 1%nat
              (Sample.root_with None (Some 7%nat) 16 17) 100)
    as (w' & Hrun & Htrace & _ & Hnode & _).
  - reflexivity.
  - reflexivity.
  - discriminate.
  - exists w'. split; [exact Hrun|]. split; [exact Htrace|exact Hnode].
Defined.

Lemma ensureRootIsScheduled_preempts_witness :
  ∃ w',
    ensureRootIsScheduled 1%nat 100 (Sample.world_of (Sample.root_with None (Some 7%nat) 64 80))
      = Ok (tt, w') ∧
    trace w' = [EvCancelCallback 7; EvScheduleCallback NormalSchedulerPriority 1 0] ∧
    callbackNode <$> roots w' !! 1%nat = Some (Some 0%nat) ∧
    callbackPriority <$> roots w' !! 1%nat = Some 16.
Proof.
  destruct (ensureRootIsScheduled_preempts
              (Sample.world_of (Sample.root_with None (Some 7%nat) 64 80)) 1%nat
              (Sample.root_with None (Some 7%nat) 64 80) 100)
    as (w' & Hrun & Htrace & _ & Hnode & Hprio).
  - reflexivity.
  - discriminate.
  - discriminate.
  - discriminate.
  - exists w'. split; [exact Hrun|]. split; [exact Htrace|]. split; [exact Hnode|exact Hprio].
Defined.

Lemma ensureRootIsScheduled_records_priority_witness :
  ∃ w' r',
    ensureRootIsScheduled 1%nat 100 (Sample.world_of (Sample.root_with None None 0 80))
      = Ok (tt, w') ∧
    roots w' !! 1%nat = Some r' ∧
    callbackPriority r' = 16.
Proof.
  destruct (ensureRootIsScheduled_records_priority
              (Sample.world_of (Sample.root_with None None 0 80)) 1%nat
              (Sample.root_with None None 0 80) 100)
    as (w' & r' & Hrun & Hr' & Hprio & _).
  - reflexivity.
  - exists w', r'. split; [exact Hrun|]. split; [exact Hr'|exact Hprio].
Defined.

(** ** Lanes on the path to the root *)

Section alternates.
Context `{C : Collaborators}.

(** The loop also marks the alternate of every ancestor. *)
Lemma bubbleChildLanes_alternates lane F0 top w0 anc :
  alternates_allocated F0 →
  ∀ fuel node w,
    same_but_fibers w0 w →
    bumped lane F0 (fibers (store w)) →
    return_path F0 node anc top →
    (length anc ≤ fuel)%nat →
    ∃ w', bubbleChildLanes fuel lane node (head anc) w = Ok (top, w') ∧
          ∀ a fa alt, a ∈ anc → F0 !! a = Some fa → alternate fa = Some alt →
                      child_done lane F0 (fibers (store w')) alt.
Proof.
  intros Halloc. induction anc as [|p anc IH]; intros fuel node w Hsame Hb Hpath Hfuel.
  - simpl in Hpath. destruct Hpath as [-> _]. simpl. rewrite bubbleChildLanes_None.
    exists w. split; [done|]. intros a fa alt Ha. by apply elem_of_nil in Ha.
  - destruct (bubbleChildLanes_ok lane F0 top w0 (p :: anc) Halloc fuel node w
                Hsame Hb Hpath Hfuel) as (w' & Hrun & _).
    exists w'. split; [done|].
    destruct fuel as [|fuel]; [simpl in Hfuel; lia|].
    simpl in Hpath. destruct Hpath as [_ Hpath].
    destruct (return_path_head _ _ _ _ Hpath) as (pf0 & Hp0 & Hret).
    destruct (bumped_lookup _ _ _ _ _ Hb Hp0) as (l & c & Hp & _ & _).
    cbn [head bubbleChildLanes] in Hrun.
    rewrite (bind_Ok _ _ _ _ _ (getFiberW_Some _ _ _ Hp)) in Hrun.
    rewrite (bind_Ok _ _ _ _ _ (set_childLanes_Some _ _ _ _ Hp)) in Hrun.
    set (pf1 := with_lane_fields _ _ _) in Hrun.
    set (w1 := put_fiber w p pf1) in Hrun.
    assert (Hb1 : bumped lane F0 (fibers (store w1))).
    { apply (bumped_set_childLanes _ _ _ _ _ Hb Hp). }
    assert (Hp1 : fibers (store w1) !! p = Some pf1) by apply lookup_insert_eq.
    rewrite (bind_Ok _ _ _ _ _ (getFiberW_Some _ _ _ Hp1)) in Hrun.
    assert (∃ w2, (match alternate pf1 with
                   | Some a => let* af := getFiberW a in
                               set_childLanes a (mergeLanes (childLanes af) lane)
                   | None => ret tt
                   end) w1 = Ok (tt, w2) ∧
                  same_but_fibers w0 w2 ∧ bumped lane F0 (fibers (store w2)) ∧
                  (∀ alt, alternate pf0 = Some alt →
                          child_done lane F0 (fibers (store w2)) alt))
      as (w2 & Hstep & Hsame2 & Hb2 & Halt2).
    { destruct (alternate pf1) as [a|] eqn:Halt.
      - assert (Ha0 : is_Some (F0 !! a)) by (eapply Halloc; [exact Hp0|exact Halt]).
        destruct Ha0 as [af0 Ha0].
        destruct (bumped_lookup _ _ _ _ _ Hb1 Ha0) as (la & ca & Ha & _ & _).
        rewrite (bind_Ok _ _ _ _ _ (getFiberW_Some _ _ _ Ha)).
        rewrite (set_childLanes_Some _ _ _ _ Ha).
        eexists. split; [done|]. split.
        { by apply same_but_fibers_put, same_but_fibers_put. }
        split; [apply (bumped_set_childLanes _ _ _ _ _ Hb1 Ha)|].
        intros alt Halt'. change (alternate pf1) with (alternate pf0) in Halt.
        rewrite Halt in Halt'. injection Halt' as <-.
        apply (child_done_here _ _ _ _ _ Hb1 Ha).
      - exists w1. split; [done|]. split; [by apply same_but_fibers_put|].
        split; [done|]. intros alt Halt'.
        change (alternate pf1) with (alternate pf0) in Halt. congruence. }
    rewrite (bind_Ok _ _ _ _ _ Hstep) in Hrun.
    destruct (bumped_lookup _ _ _ _ _ Hb2 Hp0) as (l2 & c2 & Hp2 & _ & _).
    rewrite (bind_Ok _ _ _ _ _ (getFiberW_Some _ _ _ Hp2)) in Hrun.
    cbn [with_lane_fields return_] in Hrun. rewrite Hret in Hrun.
    destruct (IH fuel p w2 Hsame2 Hb2 Hpath) as (w'' & Hrun' & Halts).
    { simpl in Hfuel. lia. }
    rewrite Hrun in Hrun'. injection Hrun' as <-.
    destruct (bubbleChildLanes_ok lane F0 top w0 anc Halloc fuel p w2
                Hsame2 Hb2 Hpath) as (w3 & Hrun3 & _ & _ & _ & Hmono & _).
    { simpl in Hfuel. lia. }
    rewrite Hrun in Hrun3. injection Hrun3 as <-.
    intros a fa alt Ha Hfa Hfalt.
    apply elem_of_cons in Ha as [->|Ha]; [|by eapply Halts].
    rewrite Hp0 in Hfa. injection Hfa as <-. by apply Hmono, Halt2.
Qed.
End alternates.

Section marks.
Context `{C : Collaborators}.

(** X11. [markUpdateLaneFromFiberToRoot] on a fiber with a finite [return]
    path: it returns the [stateNode] of the top fiber when that is a host
    root and [null] otherwise; the lane is merged into [lanes] of the
    source fiber and of its alternate, and into [childLanes] of every
    ancestor and of every ancestor's alternate; no lane bit is cleared
    anywhere and nothing but fibers changes. *)
Theorem markUpdateLaneFromFiberToRoot_marks_path_and_alternates
    fuel f lane w anc top tf :
  alternates_allocated (fibers (store w)) →
  return_path (fibers (store w)) f anc top →
  fibers (store w) !! top = Some tf →
  (length anc ≤ fuel)%nat →
  let F := fibers (store w) in
  ∃ w',
    markUpdateLaneFromFiberToRoot fuel f lane w =
      Ok (if decide (f_tag tf = HostRoot) then stateNode tf else None, w') ∧
    same_but_fibers w w' ∧
    bumped lane F (fibers (store w')) ∧
    lanes_done lane F (fibers (store w')) f ∧
    (∀ sf alt, F !! f = Some sf → alternate sf = Some alt →
               lanes_done lane F (fibers (store w')) alt) ∧
    (∀ a, a ∈ anc → child_done lane F (fibers (store w')) a) ∧
    (∀ a fa alt, a ∈ anc → F !! a = Some fa → alternate fa = Some alt →
                 child_done lane F (fibers (store w')) alt).
Proof.
  intros Halloc Hpath Htop Hfuel F.
  destruct (markUpdateLaneFromFiberToRoot_ok fuel f lane w anc top Halloc Hpath Hfuel)
    as (w' & tf' & Htop' & Hrun & Hsame & Hb & Hld & Hcd).
  rewrite Htop in Htop'. injection Htop' as <-.
  exists w'. repeat (split; [done|]).
  (* replay the call to reach the state before the loop *)
  fold F in Halloc, Hpath, Htop.
  destruct (return_path_head _ _ _ _ Hpath) as (sf & Hsf & Hret).
  unfold markUpdateLaneFromFiberToRoot in Hrun.
  rewrite (bind_Ok _ _ _ _ _ (getFiberW_Some _ _ _ Hsf)) in Hrun.
  rewrite (bind_Ok _ _ _ _ _ (set_lanes_Some _ _ _ _ Hsf)) in Hrun.
  set (sf1 := with_lane_fields _ _ _) in Hrun.
  set (w1 := put_fiber w f sf1) in Hrun.
  assert (Hb1 : bumped lane F (fibers (store w1))).
  { apply (bumped_set_lanes _ _ _ _ _ (bumped_refl lane F) Hsf). }
  assert (Hsf1 : fibers (store w1) !! f = Some sf1) by apply lookup_insert_eq.
  rewrite (bind_Ok _ _ _ _ _ (getFiberW_Some _ _ _ Hsf1)) in Hrun.
  assert (∃ w2, (match alternate sf1 with
                 | Some a => let* af := getFiberW a in
                             set_lanes a (mergeLanes (lanes af) lane)
                 | None => ret tt
                 end) w1 = Ok (tt, w2) ∧
                same_but_fibers w w2 ∧ bumped lane F (fibers (store w2)) ∧
                (∀ alt, alternate sf = Some alt →
                        lanes_done lane F (fibers (store w2)) alt))
    as (w2 & Hstep & Hsame2 & Hb2 & Halt2).
  { destruct (alternate sf1) as [a|] eqn:Halt.
    - assert (Ha0 : is_Some (F !! a)) by (eapply Halloc; [exact Hsf|exact Halt]).
      destruct Ha0 as [af0 Ha0].
      destruct (bumped_lookup _ _ _ _ _ Hb1 Ha0) as (la & ca & Ha & Hla & _).
      rewrite (bind_Ok _ _ _ _ _ (getFiberW_Some _ _ _ Ha)).
      rewrite (set_lanes_Some _ _ _ _ Ha).
      eexists. split; [done|]. split.
      { apply same_but_fibers_put, same_but_fibers_put, same_but_fibers_refl. }
      split; [apply (bumped_set_lanes _ _ _ _ _ Hb1 Ha)|].
      intros alt Halt'. change (alternate sf1) with (alternate sf) in Halt.
      rewrite Halt in Halt'. injection Halt' as <-.
      unfold lanes_done. cbn. rewrite lookup_insert_eq, Ha0. cbn.
      destruct Hla as [->| ->]; [done|]. by rewrite mergeLanes_idemp.
    - exists w1. split; [done|]. split; [apply same_but_fibers_put, same_but_fibers_refl|].
      split; [done|]. intros alt Halt'.
      change (alternate sf1) with (alternate sf) in Halt. congruence. }
  rewrite (bind_Ok _ _ _ _ _ Hstep) in Hrun.
  destruct (bumped_lookup _ _ _ _ _ Hb2 Hsf) as (l2 & c2 & Hsf2 & _ & _).
  rewrite (bind_Ok _ _ _ _ _ (getFiberW_Some _ _ _ Hsf2)) in Hrun.
  cbn [with_lane_fields return_] in Hrun. rewrite Hret in Hrun.
  destruct (bubbleChildLanes_ok lane F top w anc Halloc fuel f w2 Hsame2 Hb2 Hpath Hfuel)
    as (w3 & Hrun3 & _ & _ & _ & _ & Hmono).
  destruct (bubbleChildLanes_alternates lane F top w anc Halloc fuel f w2
              Hsame2 Hb2 Hpath Hfuel) as (w4 & Hrun4 & Halts).
  rewrite Hrun3 in Hrun4. injection Hrun4 as <-.
  rewrite (bind_Ok _ _ _ _ _ Hrun3) in Hrun.
  apply bind_inv in Hrun as (nf & w5 & Hget & Hret').
  apply fibers_only_getFiberW in Hget as Hw5.
  assert (w5 = w3) as ->.
  { unfold getFiberW, lift, getFiber, bind, get, deref in Hget.
    destruct (fibers (store w3) !! top); [|done]. injection Hget as _ <-. by destruct w3. }
  assert (w' = w3) as ->.
  { destruct (decide (f_tag nf = HostRoot)); by injection Hret' as _ <-. }
  split.
  - intros sf' alt Hsf' Halt'. rewrite Hsf in Hsf'. injection Hsf' as <-.
    by apply Hmono, Halt2.
  - split; [done|]. intros a fa alt Ha Hfa Hfalt. by eapply Halts.
Qed.
End marks.

Lemma markUpdateLaneFromFiberToRoot_marks_path_and_alternates_witness :
  ∃ w',
    markUpdateLaneFromFiberToRoot 10 4%nat 16 Sample.idle_world = Ok (Some 1%nat, w') ∧
    lanes <$> fibers (store w') !! 4%nat = Some 16 ∧
    childLanes <$> fibers (store w') !! 3%nat = Some 16 ∧
    childLanes <$> fibers (store w') !! 1%nat = Some 16 ∧
    childLanes <$> fibers (store w') !! 2%nat = Some 16.
Proof.
  destruct (markUpdateLaneFromFiberToRoot_marks_path_and_alternates 10 4%nat 16
              Sample.idle_world [3; 1]%nat 1%nat
              (Sample.plain_fiber 3 (Some 1%nat) None (Some 2%nat)))
    as (w' & Hrun & _ & _ & Hlanes & _ & Hchild & Halt).
  - apply alternates_allocated_Forall. apply (bool_decide_unpack _). vm_compute. exact I.
  - repeat split; reflexivity.
  - reflexivity.
  - simpl. lia.
  - exists w'. split; [exact Hrun|]. split; [exact Hlanes|].
    split; [apply Hchild; by left|].
    split; [apply Hchild; right; by left|].
    apply (Halt 1%nat (Sample.plain_fiber 3 (Some 1%nat) None (Some 2%nat)) 2%nat);
      [right; by left|reflexivity|reflexivity].
Defined.

(** ** Scheduling an update under a host root *)

Section reach.
Context `{C : Collaborators}.

(** X12. [scheduleUpdateOnFiber] on a fiber under a host root returns
    [undefined]; the root's lane bookkeeping has been through
    [markRootUpdated] and then [markStarvedLanesAsExpired], its
    [callbackPriority] is the highest lane that [getNextLanes] selects from
    that bookkeeping, at most one callback was armed, and the lane is
    merged into the source fiber's [lanes] and into [childLanes] of every
    ancestor. *)
Theorem scheduleUpdateOnFiber_schedules_root fuel f lane t w anc top tf root r :
  alternates_allocated (fibers (store w)) →
  return_path (fibers (store w)) f anc top →
  fibers (store w) !! top = Some tf →
  f_tag tf = HostRoot → stateNode tf = Some root →
  (length anc ≤ fuel)%nat →
  roots w !! root = Some r →
  ∃ w' r',
    scheduleUpdateOnFiber fuel f lane t w = Ok (JUndefined, w') ∧
    roots w' !! root = Some r' ∧
    laneInfo r' =
      markStarvedLanesAsExpired (markRootUpdated (laneInfo r) lane t) t ∧
    callbackPriority r' =
      getHighestPriorityLane
        (getNextLanes (laneInfo r')
           (if decide (Some root = workInProgressRoot w)
            then workInProgressRootRenderLanes w else NoLanes)) ∧
    slot_wf r' ∧
    current r' = current r ∧
    (length (armed (trace w')) ≤ S (length (armed (trace w))))%nat ∧
    lanes_done lane (fibers (store w)) (fibers (store w')) f ∧
    (∀ a, a ∈ anc → child_done lane (fibers (store w)) (fibers (store w')) a).
Proof.
  intros Halloc Hpath Htop Htag Hnode Hfuel Hr.
  destruct (markUpdateLaneFromFiberToRoot_ok fuel f lane w anc top Halloc Hpath Hfuel)
    as (wm & tf' & Htop' & Hrun & Hsame & _ & Hld & Hcd).
  rewrite Htop in Htop'. injection Htop' as <-.
  rewrite decide_True, Hnode in Hrun by done.
  assert (Hw : roots wm = roots w ∧ trace wm = trace w ∧
               workInProgressRoot wm = workInProgressRoot w ∧
               workInProgressRootRenderLanes wm = workInProgressRootRenderLanes w).
  { pose proof Hsame as He. unfold same_but_fibers in He. by rewrite He. }
  destruct Hw as (Hroots & Htr & Hwr & Hwl).
  assert (Hrm : roots wm !! root = Some r) by (by rewrite Hroots).
  pose proof (update_laneInfo_Some wm root r (λ li, markRootUpdated li lane t) Hrm) as Hmark.
  set (r1 := mkFiberRoot _ _ _ _ _ _) in Hmark.
  set (w1 := with_roots wm _) in Hmark.
  destruct (ensureRootIsScheduled_post w1 root r1 t) as
    (w' & r' & Hens & Hr' & Hprio & Hwf & Hli & Hcur & _ & _ & Hst & _ & _ & Harm).
  { apply lookup_insert_eq. }
  exists w', r'. split.
  { unfold scheduleUpdateOnFiber. rewrite (bind_Ok _ _ _ _ _ Hrun).
    unfold markRootUpdated_. rewrite (bind_Ok _ _ _ _ _ Hmark).
    by rewrite (bind_Ok _ _ _ _ _ Hens). }
  split; [done|]. split; [done|]. split.
  { rewrite Hprio, Hli. unfold scheduledLanes. cbn. by rewrite Hwr, Hwl. }
  split; [done|]. split; [done|]. split; [by rewrite <-Htr|].
  rewrite Hst. done.
Qed.
End reach.

Lemma scheduleUpdateOnFiber_schedules_root_witness :
  ∃ w' r',
    scheduleUpdateOnFiber 10 4%nat 16 100 Sample.idle_world = Ok (JUndefined, w') ∧
    roots w' !! 1%nat = Some r' ∧
    callbackPriority r' = 16 ∧
    pendingLanes (laneInfo r') = 16.
Proof.
  destruct (scheduleUpdateOnFiber_schedules_root 10 4%nat 16 100 Sample.idle_world
              [3; 1]%nat 1%nat (Sample.plain_fiber 3 (Some 1%nat) None (Some 2%nat))
              1%nat (Sample.root_with None None 0 0))
    as (w' & r' & Hrun & Hr' & Hinfo & Hprio & _).
  - apply alternates_allocated_Forall. apply (bool_decide_unpack _). vm_compute. exact I.
  - repeat split; reflexivity.
  - reflexivity.
  - reflexivity.
  - reflexivity.
  - simpl. lia.
  - reflexivity.
  - exists w', r'. split; [exact Hrun|]. split; [exact Hr'|].
    split; [rewrite Hprio, Hinfo; reflexivity|rewrite Hinfo; reflexivity].
Defined.

(** ** The render loop walks depth first *)

Lemma settle_idemp f : settle (settle f) = settle f.
Proof. done. Qed.

Lemma settled_nil F : settled [] F F.
Proof. intros x. rewrite decide_False; [done|]. apply not_elem_of_nil. Qed.

Lemma settled_trans X Y F F1 F2 :
  settled X F F1 → settled Y F1 F2 → settled (X ++ Y) F F2.
Proof.
  intros H1 H2 x. rewrite (H2 x), (H1 x).
  destruct (decide (x ∈ Y)) as [HY|HY], (decide (x ∈ X)) as [HX|HX],
    (decide (x ∈ X ++ Y)) as [HXY|HXY];
    rewrite elem_of_app in HXY; try done; try tauto.
  by destruct (F !! x).
Qed.

Lemma settled_links X F F' x f :
  settled X F F' → F !! x = Some f →
  ∃ f', F' !! x = Some f' ∧ return_ f' = return_ f ∧ sibling f' = sibling f ∧
        alternate f' = alternate f ∧ pendingProps f' = pendingProps f ∧
        lanes f' = lanes f ∧ childLanes f' = childLanes f.
Proof.
  intros H Hx. specialize (H x). rewrite Hx in H.
  destruct (decide (x ∈ X)); [exists (settle f)|exists f]; done.
Qed.


Lemma settled_insert F r f :
  F !! r = Some f → settled [r] F (<[r := settle f]> F).
Proof.
  intros Hr x. destruct (decide (x = r)) as [->|Hne].
  - rewrite lookup_insert_eq, decide_True, Hr; [done|]. by apply list_elem_of_singleton.
  - rewrite lookup_insert_ne, decide_False; [done| |done].
    by rewrite list_elem_of_singleton.
Qed.

Lemma rendered_trans X Y e1 e2 wip1 wip2 w w1 w2 :
  rendered X e1 wip1 w w1 → rendered Y e2 wip2 w1 w2 →
  rendered (X ++ Y) (e1 ++ e2) wip2 w w2.
Proof.
  intros [H1 E1] [H2 E2]. split; [by eapply settled_trans|].
  destruct w as [[] ? ? ? ? ? ? ? ?], w1 as [[] ? ? ? ? ? ? ? ?],
    w2 as [[] ? ? ? ? ? ? ? ?].
  unfold moved, with_store in *. simpl in *.
  injection E1 as -> -> -> -> -> -> -> -> -> -> ->.
  injection E2 as -> -> -> -> -> -> -> -> -> -> ->.
  by rewrite app_assoc.
Qed.

Section traversal.
Context `{C : Collaborators}.
Variable firstChild : ref → option ref.
Variables began completed : ref → list Event.

Hypothesis beginWork_walks : ∀ cur u l w,
  beginWork cur u l w = Ok (firstChild u, moved w (began u) (workInProgress w)).
Hypothesis completeWork_returns : ∀ cur u w,
  completeWork cur u w = Ok (None, moved w (completed u) (workInProgress w)).

Local Abbreviation laid := (laid firstChild).
Local Abbreviation laid_context := (laid_context firstChild).
Local Abbreviation visit := (visit began completed).
Local Abbreviation unwind := (unwind began completed).
Local Abbreviation climb := (climb completed).
Local Abbreviation advance := (advance completed).

Lemma laid_settled X F F' p g : settled X F F' → laid F p g → laid F' p g.
Proof.
  intros HS. revert p. induction g as [|r c IHc s IHs]; intros p; simpl; [done|].
  intros ((f & Hr & Hp & Hs) & Hfc & Hc & Hrest).
  destruct (settled_links _ _ _ _ _ HS Hr) as (f' & Hr' & Hp' & Hs' & _).
  split; [exists f'; by rewrite Hp', Hs'|]. auto.
Qed.

Lemma laid_context_settled X F F' ctx :
  settled X F F' → laid_context F ctx → laid_context F' ctx.
Proof.
  intros HS. induction ctx as [|[p s] ctx IH]; simpl; [done|].
  intros ((f & Hr & Hp & Hs) & Hl & Hctx).
  destruct (settled_links _ _ _ _ _ HS Hr) as (f' & Hr' & Hp' & Hs' & _).
  split; [exists f'; by rewrite Hp', Hs'|].
  split; [by eapply laid_settled|auto].
Qed.

(** The position that [climb] reaches continues the same traversal. *)
Lemma climb_spec F ctx : ∀ u s,
  laid F (up ctx) s → laid_context F ctx →
  let '(evs, (g', ctx')) := climb ctx u s in
  completed u ++ visit s ++ unwind ctx = evs ++ visit g' ++ unwind ctx' ∧
  refs s ++ context_refs ctx = refs g' ++ context_refs ctx' ∧
  laid F (up ctx') g' ∧ laid_context F ctx' ∧
  (length ctx' ≤ length ctx)%nat ∧
  (g' = Nil → ctx' = []).
Proof.
  induction ctx as [|[p sp] ctx IH]; intros u s Hl Hctx.
  - destruct s; simpl climb; cbv iota beta;
      (split; [done|]; split; [done|]; split; [exact Hl|]; split; [exact Hctx|];
       split; [lia|done]).
  - destruct s as [|r c s];
      [|simpl climb; cbv iota beta;
        split; [done|]; split; [done|]; split; [exact Hl|]; split; [exact Hctx|];
        split; [lia|done]].
    simpl climb. destruct Hctx as (_ & Hsp & Hctx).
    specialize (IH p sp Hsp Hctx).
    destruct (FiberTree.climb completed ctx p sp) as [evs [g' ctx']].
    destruct IH as (Ht & Hr & Hl' & Hc' & Hlen & Hnil).
    split; [|split; [done|]; split; [done|]; split; [done|];
             split; [simpl; lia|done]].
    change (unwind ((p, sp) :: ctx)) with ((completed p ++ visit sp) ++ unwind ctx).
    change (visit Nil) with (@nil Event).
    rewrite <-!app_assoc. simpl. by rewrite Ht.
Qed.

Lemma completeUnitOfWork_climbs ctx : ∀ u s fuel w f,
  fibers (store w) !! u = Some f →
  return_ f = up ctx → sibling f = first s →
  laid_context (fibers (store w)) ctx →
  (length ctx < fuel)%nat →
  completeUnitOfWork fuel u w =
    Ok (tt, moved w (fst (climb ctx u s)) (first (fst (snd (climb ctx u s))))).
Proof.
  induction ctx as [|[p sp] ctx IH]; intros u s fuel w f Hu Hret Hsib Hctx Hfuel;
    (destruct fuel as [|fuel]; [simpl in Hfuel; lia|]); simpl completeUnitOfWork;
    rewrite (bind_Ok _ _ _ _ _ (getFiberW_Some _ _ _ Hu));
    rewrite (bind_Ok _ _ _ _ _ (completeWork_returns _ _ _));
    (erewrite bind_Ok; [|by apply getFiberW_Some]);
    rewrite Hsib, Hret.
  - destruct s as [|r c s]; simpl.
    + unfold bind, modify. simpl. done.
    + unfold modify. done.
  - destruct s as [|r c s]; simpl.
    + unfold bind at 1, modify at 1. simpl.
      simpl in Hctx. destruct Hctx as ((pf & Hp & Hpr & Hps) & _ & Hctx).
      erewrite (IH p sp fuel _ pf); [| done | done | done | done | simpl in Hfuel; lia].
      destruct (FiberTree.climb completed ctx p sp) as [evs [g' ctx']]. simpl.
      unfold moved. simpl. by rewrite <-app_assoc.
    + unfold modify. done.
Qed.

Lemma advance_spec F ctx r c s :
  laid F (up ctx) (Fib r c s) → laid_context F ctx →
  let '(evs, (g', ctx')) := advance ctx r c s in
  visit (Fib r c s) ++ unwind ctx = (began r ++ evs) ++ visit g' ++ unwind ctx' ∧
  refs (Fib r c s) ++ context_refs ctx = [r] ++ refs g' ++ context_refs ctx' ∧
  laid F (up ctx') g' ∧ laid_context F ctx' ∧
  (length ctx' ≤ S (length ctx))%nat ∧
  (c = Nil → length ctx' ≤ length ctx)%nat ∧
  (g' = Nil → ctx' = []).
Proof.
  intros Hl Hctx. pose proof Hl as (Hr & Hfc & Hc & Hs).
  destruct c as [|r' c' s'].
  - unfold FiberTree.advance.
    pose proof (climb_spec F ctx r s Hs Hctx) as H.
    destruct (FiberTree.climb completed ctx r s) as [evs [g' ctx']].
    destruct H as (Ht & Hrefs & Hl' & Hc' & Hlen & Hnil).
    split; [|split; [|split; [done|]; split; [done|]; split; [lia|done]]].
    + simpl. rewrite <-!app_assoc. simpl. by rewrite <-Ht.
    + simpl. by rewrite Hrefs.
  - unfold FiberTree.advance. cbv iota beta.
    split; [|split; [|split; [done|]; split; [done|]; split; [simpl; lia|done]]].
    + change (unwind ((r, s) :: ctx)) with ((completed r ++ visit s) ++ unwind ctx).
      change (visit (Fib r (Fib r' c' s') s))
        with (began r ++ visit (Fib r' c' s') ++ completed r ++ visit s).
      by rewrite !app_nil_r, <-!app_assoc.
    + change (context_refs ((r, s) :: ctx)) with (refs s ++ context_refs ctx).
      change (refs (Fib r (Fib r' c' s') s)) with (r :: refs (Fib r' c' s') ++ refs s).
      simpl. by rewrite <-!app_assoc.
Qed.

Lemma set_memoizedProps_Some w r o v :
  fibers (store w) !! r = Some o →
  set_memoizedProps r v w =
    Ok (tt, put_fiber w r
              (mkFiber (f_tag o) (stateNode o) (return_ o) (sibling o) (alternate o)
                 (lanes o) (childLanes o) (updateQueue o) (memoizedState o)
                 (pendingProps o) v)).
Proof.
  intros H. unfold set_memoizedProps.
  by rewrite (bind_Ok _ _ _ _ _ (getFiberW_Some _ _ _ H)).
Qed.

Lemma performUnitOfWork_advances ctx r c s fuel w :
  laid (fibers (store w)) (up ctx) (Fib r c s) →
  laid_context (fibers (store w)) ctx →
  (length ctx < fuel)%nat →
  ∃ w', performUnitOfWork fuel r w = Ok (tt, w') ∧
        rendered [r] (began r ++ fst (advance ctx r c s))
          (first (fst (snd (advance ctx r c s)))) w w'.
Proof.
  intros Hl Hctx Hfuel. pose proof Hl as ((f & Hr & Hp & Hs) & Hfc & _).
  unfold performUnitOfWork.
  rewrite (bind_Ok _ _ _ _ _ (getFiberW_Some _ _ _ Hr)).
  unfold bind at 1, get at 1.
  rewrite (bind_Ok _ _ _ _ _ (beginWork_walks _ _ _ _)).
  erewrite bind_Ok; [|by apply getFiberW_Some].
  erewrite bind_Ok; [|by apply set_memoizedProps_Some].
  rewrite Hfc.
  pose proof (settled_insert _ _ _ Hr) as HS.
  destruct c as [|r' c' s']; simpl first at 1; cbv iota.
  - erewrite (completeUnitOfWork_climbs ctx r s fuel _ (settle f));
      [| apply lookup_insert_eq | done | done
       | by apply (laid_context_settled _ _ _ _ HS) | done].
    eexists. split; [done|]. split; [done|].
    unfold FiberTree.advance, moved, put_fiber, with_store. simpl.
    by rewrite <-app_assoc.
  - eexists. split; [done|]. split; [done|].
    unfold FiberTree.advance, moved, put_fiber, with_store, with_workInProgress. simpl.
    by rewrite app_nil_r.
Qed.

Lemma refs_nil g : refs g = [] → g = Nil.
Proof. by destruct g. Qed.

Lemma rendered_refl w : workInProgress w = None → rendered [] [] None w w.
Proof.
  intros H. split; [apply settled_nil|].
  destruct w as [[] ? ? ? ? ? ? ? ?]. simpl in *. subst.
  unfold moved, with_store. simpl. by rewrite app_nil_r.
Qed.

Lemma workLoopSync_from fuel : ∀ g ctx w,
  laid (fibers (store w)) (up ctx) g →
  laid_context (fibers (store w)) ctx →
  workInProgress w = first g →
  (g = Nil → ctx = []) →
  (2 * length (refs g ++ context_refs ctx) + length ctx ≤ fuel)%nat →
  ∃ w', workLoopSync fuel w = Ok (tt, w') ∧
        rendered (refs g ++ context_refs ctx) (visit g ++ unwind ctx) None w w'.
Proof.
  induction fuel as [|fuel IH]; intros g ctx w Hl Hctx Hwip Hnil Hfuel.
  - assert (g = Nil) as ->.
    { apply refs_nil. destruct (refs g); [done|simpl in Hfuel; lia]. }
    rewrite (Hnil eq_refl). exists w. simpl in Hwip.
    split; [|by apply rendered_refl].
    simpl. unfold bind, get. by rewrite Hwip.
  - destruct g as [|r c s].
    { rewrite (Hnil eq_refl). exists w. simpl in Hwip.
      split; [|by apply rendered_refl].
      simpl. unfold bind, get. by rewrite Hwip. }
    simpl in Hwip. simpl workLoopSync. unfold bind at 1, get at 1. rewrite Hwip.
    destruct (performUnitOfWork_advances ctx r c s fuel w Hl Hctx) as (w1 & Hrun & Hren).
    { simpl in Hfuel. lia. }
    rewrite (bind_Ok _ _ _ _ _ Hrun).
    pose proof (advance_spec _ ctx r c s Hl Hctx) as Hadv.
    destruct (FiberTree.advance completed ctx r c s) as [evs [g' ctx']].
    simpl in Hren.
    destruct Hadv as (Ht & Hrefs & Hl' & Hc' & Hlen & Hlen' & Hnil').
    pose proof Hren as [HS Hw1].
    destruct (IH g' ctx' w1) as (w' & Hloop & Hren').
    { by eapply laid_settled. }
    { by eapply laid_context_settled. }
    { by rewrite Hw1. }
    { done. }
    { apply (f_equal length) in Hrefs. rewrite !length_app in Hrefs.
      rewrite length_app in Hfuel. rewrite length_app.
      change (length (refs (Fib r c s))) with (S (length (refs c ++ refs s))) in *.
      change (length [r]) with 1%nat in Hrefs.
      destruct c; [specialize (Hlen' eq_refl); lia|lia]. }
    exists w'. split; [done|]. rewrite Ht, Hrefs.
    by eapply rendered_trans.
Qed.

End traversal.

(** ** Rendering and committing a root *)

Section loops.
Context `{C : Collaborators}.

Lemma workLoopSync_leaves_nothing fuel : ∀ w w',
  workLoopSync fuel w = Ok (tt, w') → workInProgress w' = None.
Proof.
  induction fuel as [|fuel IH]; intros w w' Hrun; simpl in Hrun;
    unfold bind at 1, get at 1 in Hrun;
    destruct (workInProgress w) as [u|] eqn:Hwip; try done.
  - by injection Hrun as <-.
  - apply bind_inv in Hrun as (? & w1 & _ & Hrun). by eapply IH.
  - by injection Hrun as <-.
Qed.

(** X13. Whenever [renderRootSync] returns, no render is in progress:
    [workInProgress] and [workInProgressRoot] are [null] and
    [workInProgressRootRenderLanes] is [NoLanes], whatever the reconciler
    did. *)
Theorem renderRootSync_leaves_no_render_in_progress fuel root lanes w w' :
  renderRootSync fuel root lanes w = Ok (tt, w') →
  workInProgress w' = None ∧
  workInProgressRoot w' = None ∧
  workInProgressRootRenderLanes w' = NoLanes.
Proof.
  intros Hrun. unfold renderRootSync in Hrun.
  apply bind_inv in Hrun as (w0 & w0' & _ & Hrun).
  apply bind_inv in Hrun as (? & w1 & _ & Hrun).
  apply bind_inv in Hrun as ([] & w2 & Hloop & Hrun).
  apply workLoopSync_leaves_nothing in Hloop.
  unfold bind, modify in Hrun. injection Hrun as <-. done.
Qed.
End loops.

Lemma renderRootSync_leaves_no_render_in_progress_witness :
  ∃ w',
    renderRootSync 10 1%nat 1 (Sample.world_of (Sample.root_with None None 0 1))
      = Ok (tt, w') ∧
    workInProgress w' = None ∧ workInProgressRoot w' = None.
Proof.
  destruct (renderRootSync 10 1%nat 1 (Sample.world_of (Sample.root_with None None 0 1)))
    as [[[] w']|e] eqn:Hrun; [|vm_compute in Hrun; discriminate Hrun].
  destruct (renderRootSync_leaves_no_render_in_progress 10 1%nat 1
              (Sample.world_of (Sample.root_with None None 0 1)) w' Hrun)
    as (Hwip & Hroot & _).
  exists w'. split; [reflexivity|]. split; [exact Hwip|exact Hroot].
Defined.

Section render.
Context `{C : Collaborators}.
Variable firstChild : ref → option ref.
Variables began completed : ref → list Event.
Variable committed : ref → ref → list Event.

Hypothesis beginWork_walks : ∀ cur u l w,
  beginWork cur u l w = Ok (firstChild u, moved w (began u) (workInProgress w)).
Hypothesis completeWork_returns : ∀ cur u w,
  completeWork cur u w = Ok (None, moved w (completed u) (workInProgress w)).
Hypothesis createWorkInProgress_reuses : ∀ cur f a w,
  fibers (store w) !! cur = Some f → alternate f = Some a →
  createWorkInProgress cur JNull w = Ok (a, w).

Local Abbreviation laid := (laid firstChild).
Local Abbreviation visit := (visit began completed).

(** X14. The render loop walks depth first.  With a reconciler whose
    [beginWork] hands out the first child of a fiber and whose
    [completeWork] returns [null], [workLoopSync] started at the first
    fiber of a forest laid out in the store returns with
    [workInProgress = null]; [beginWork] was called on every fiber before
    its children, [completeWork] on every fiber after them, siblings in
    order; every fiber of the forest has [memoizedProps = pendingProps],
    and nothing else has changed. *)
Theorem workLoopSync_visits_depth_first fuel g w :
  laid (fibers (store w)) None g →
  workInProgress w = first g →
  (2 * length (refs g) ≤ fuel)%nat →
  ∃ w', workLoopSync fuel w = Ok (tt, w') ∧
        workInProgress w' = None ∧
        trace w' = trace w ++ visit g ∧
        rendered (refs g) (visit g) None w w'.
Proof.
  intros Hl Hwip Hfuel.
  destruct (workLoopSync_from firstChild began completed beginWork_walks
              completeWork_returns fuel g [] w) as (w' & Hrun & Hren); try done.
  { simpl. rewrite app_nil_r. lia. }
  change (context_refs []) with (@nil ref) in Hren.
  change (FiberTree.unwind began completed []) with (@nil Event) in Hren.
  rewrite !app_nil_r in Hren.
  exists w'. split; [done|]. pose proof Hren as [HS ->]. done.
Qed.

Lemma prepareFreshStack_run w root r cf a lanes :
  roots w !! root = Some r →
  fibers (store w) !! current r = Some cf →
  alternate cf = Some a →
  prepareFreshStack root lanes w = Ok (Some root, fresh_stack w root r a lanes).
Proof.
  intros Hr Hcf Ha. unfold prepareFreshStack.
  erewrite bind_Ok; [|by apply set_finishedWork_Some].
  erewrite bind_Ok; [|apply set_finishedLanes_Some; simpl; apply lookup_insert_eq].
  unfold bind at 1, modify at 1.
  erewrite bind_Ok; [|apply getRoot_Some; simpl; apply lookup_insert_eq].
  erewrite bind_Ok; [|by eapply createWorkInProgress_reuses].
  unfold bind, modify, get, ret, fresh_stack. simpl.
  by rewrite insert_insert_eq.
Qed.

Lemma renderRootSync_fresh fuel root lanes w r cf a c :
  roots w !! root = Some r →
  fibers (store w) !! current r = Some cf →
  alternate cf = Some a →
  laid (fibers (store w)) None (Fib a c Nil) →
  workInProgressRoot w ≠ Some root →
  (2 * length (refs (Fib a c Nil)) ≤ fuel)%nat →
  ∃ w', renderRootSync fuel root lanes w = Ok (tt, w') ∧
        rendered (refs (Fib a c Nil)) (visit (Fib a c Nil)) None
          (with_workInProgressRootRenderLanes
             (with_workInProgressRoot (fresh_stack w root r a lanes) None) NoLanes) w'.
Proof.
  intros Hr Hcf Ha Hl Hfresh Hfuel.
  destruct (workLoopSync_from firstChild began completed beginWork_walks
              completeWork_returns fuel (Fib a c Nil) [] (fresh_stack w root r a lanes))
    as (w1 & Hloop & HS & Hw1); try done.
  { simpl. rewrite app_nil_r. simpl in Hfuel. lia. }
  eexists. split.
  { unfold renderRootSync. unfold bind at 1, get at 1.
    rewrite decide_True by (by left).
    rewrite (bind_Ok _ _ _ tt (fresh_stack w root r a lanes));
      [|by rewrite (bind_Ok _ _ _ _ _ (prepareFreshStack_run w root r cf a lanes Hr Hcf Ha))].
    rewrite (bind_Ok _ _ _ _ _ Hloop).
    unfold bind, modify. reflexivity. }
  change (context_refs []) with (@nil ref) in HS.
  change (FiberTree.unwind began completed []) with (@nil Event) in Hw1.
  rewrite app_nil_r in HS, Hw1.
  split; [exact HS|]. rewrite Hw1 at 1. reflexivity.
Qed.

Lemma rendered_fields X evs wip w w' :
  rendered X evs wip w w' →
  settled X (fibers (store w)) (fibers (store w')) ∧
  roots w' = roots w ∧
  trace w' = trace w ++ evs ∧
  workInProgress w' = wip ∧
  workInProgressRoot w' = workInProgressRoot w ∧
  workInProgressRootRenderLanes w' = workInProgressRootRenderLanes w ∧
  subtreeRenderLanes w' = subtreeRenderLanes w ∧
  currentEventTime w' = currentEventTime w ∧
  next_handle w' = next_handle w.
Proof. intros [HS ->]. done. Qed.

(** X15. [performSyncWorkOnRoot] on a root with a sync lane and no render in
    progress renders the alternate of [root.current] depth first and
    records it as [root.finishedWork]; it commits nothing:
    [root.current], the callback slot and the lane bookkeeping of the root
    are as before. *)
Theorem performSyncWorkOnRoot_renders_without_commit fuel root w r cf a c :
  roots w !! root = Some r →
  includesSomeLane (getNextLanes (laneInfo r) NoLanes) SyncLane = true →
  fibers (store w) !! current r = Some cf →
  alternate cf = Some a →
  laid (fibers (store w)) None (Fib a c Nil) →
  workInProgressRoot w ≠ Some root →
  (2 * length (refs (Fib a c Nil)) ≤ fuel)%nat →
  ∃ w',
    performSyncWorkOnRoot fuel root w = Ok (JNull, w') ∧
    roots w' =
      <[root := mkFiberRoot (current r) (Some a) NoLanes (callbackNode r)
                  (callbackPriority r) (laneInfo r)]> (roots w) ∧
    trace w' = trace w ++ visit (Fib a c Nil) ∧
    settled (refs (Fib a c Nil)) (fibers (store w)) (fibers (store w')) ∧
    workInProgress w' = None ∧
    workInProgressRoot w' = None ∧
    workInProgressRootRenderLanes w' = NoLanes.
Proof.
  intros Hr Hsync Hcf Ha Hl Hfresh Hfuel.
  destruct (renderRootSync_fresh fuel root (getNextLanes (laneInfo r) NoLanes)
              w r cf a c Hr Hcf Ha Hl Hfresh Hfuel) as (w1 & Hrender & Hren).
  apply rendered_fields in Hren as (HS & Hroots & Htr & Hwip & Hwr & Hwl & _).
  simpl in HS, Hroots, Htr, Hwr, Hwl.
  destruct (settled_links _ _ _ _ _ HS Hcf) as (cf' & Hcf' & _ & _ & Ha' & _).
  eexists. split.
  { unfold performSyncWorkOnRoot.
    rewrite (bind_Ok _ _ _ _ _ (getRoot_Some _ _ _ Hr)), Hsync.
    cbn [negb]. cbv iota.
    rewrite (bind_Ok _ _ _ _ _ Hrender).
    erewrite bind_Ok; [|apply getRoot_Some; rewrite Hroots; apply lookup_insert_eq].
    erewrite bind_Ok; [|apply getFiberW_Some; exact Hcf'].
    erewrite bind_Ok;
      [|apply set_finishedWork_Some; rewrite Hroots; apply lookup_insert_eq].
    reflexivity. }
  simpl. rewrite Hroots, insert_insert_eq, Ha', Ha. done.
Qed.

Hypothesis commitMutationEffects_logs : ∀ root fw w,
  commitMutationEffects root fw w =
    Ok (tt, moved w (committed root fw) (workInProgress w)).

Lemma commitRootImpl_run w root r fw fwf :
  roots w !! root = Some r →
  finishedWork r = Some fw →
  fibers (store w) !! fw = Some fwf →
  commitRootImpl root w =
    Ok (tt, mkWorld (store w)
              (<[root := mkFiberRoot fw None NoLanes None NoLane
                           (markRootFinished (laneInfo r)
                              (mergeLanes (lanes fwf) (childLanes fwf)))]> (roots w))
              None None (currentEventTime w) (workInProgressRootRenderLanes w)
              (subtreeRenderLanes w) (trace w ++ committed root fw) (next_handle w)).
Proof.
  intros Hr Hfw Hfwf. unfold commitRootImpl.
  rewrite (bind_Ok _ _ _ _ _ (getRoot_Some _ _ _ Hr)), Hfw.
  unfold markRootFinished_.
  erewrite bind_Ok; [|by apply set_finishedWork_Some].
  erewrite bind_Ok; [|apply set_finishedLanes_Some; simpl; apply lookup_insert_eq].
  erewrite bind_Ok; [|apply set_callbackNode_Some; simpl; apply lookup_insert_eq].
  erewrite bind_Ok; [|apply set_callbackPriority_Some; simpl; apply lookup_insert_eq].
  erewrite bind_Ok; [|apply getFiberW_Some; simpl; done].
  erewrite bind_Ok; [|apply update_laneInfo_Some; simpl; apply lookup_insert_eq].
  unfold bind at 1, modify at 1. unfold bind at 1, modify at 1.
  rewrite (bind_Ok _ _ _ _ _ (commitMutationEffects_logs _ _ _)).
  erewrite set_current_Some; [|simpl; apply lookup_insert_eq].
  unfold moved, with_roots. simpl. by rewrite !insert_insert_eq.
Qed.

(** X16. Committing twice is committing once.  With a [finishedWork] on the
    root, [commitRootImpl] returns with [current = finishedWork], the
    callback slot cleared and no render in progress, having called
    [commitMutationEffects] once; a second [commitRootImpl] right after it
    returns without any change. *)
Theorem commitRootImpl_second_commit_is_noop w root r fw fwf :
  roots w !! root = Some r →
  finishedWork r = Some fw →
  fibers (store w) !! fw = Some fwf →
  ∃ w' r',
    commitRootImpl root w = Ok (tt, w') ∧
    roots w' !! root = Some r' ∧
    current r' = fw ∧ finishedWork r' = None ∧
    callbackNode r' = None ∧ callbackPriority r' = NoLane ∧
    workInProgress w' = None ∧ workInProgressRoot w' = None ∧
    trace w' = trace w ++ committed root fw ∧
    commitRootImpl root w' = Ok (tt, w').
Proof.
  intros Hr Hfw Hfwf.
  eexists _, _. split; [by eapply commitRootImpl_run|].
  split; [simpl; apply lookup_insert_eq|].
  do 7 (split; [done|]).
  unfold commitRootImpl.
  erewrite bind_Ok; [|apply getRoot_Some; simpl; apply lookup_insert_eq].
  done.
Qed.

(** X17. A concurrent work run that does not slice renders and commits.
    With lanes selected, no render in progress and [shouldTimeSlice] false,
    [performConcurrentWorkOnRoot] walks the alternate of [root.current]
    depth first, then calls [commitMutationEffects], and returns with
    [root.current] swapped to that alternate, [finishedWork] and the
    callback slot cleared, [markRootFinished] applied with the alternate's
    [lanes | childLanes], and the event time reset. *)
Theorem performConcurrentWorkOnRoot_renders_and_commits
    fuel root didTimeout w r cf a fa c :
  roots w !! root = Some r →
  workInProgressRoot w ≠ Some root →
  let selected := getNextLanes (laneInfo r) NoLanes in
  selected ≠ NoLanes →
  shouldTimeSlice (laneInfo r) selected didTimeout = false →
  fibers (store w) !! current r = Some cf →
  alternate cf = Some a →
  fibers (store w) !! a = Some fa →
  laid (fibers (store w)) None (Fib a c Nil) →
  (2 * length (refs (Fib a c Nil)) ≤ fuel)%nat →
  ∃ w',
    performConcurrentWorkOnRoot fuel root didTimeout w = Ok (JUndefined, w') ∧
    roots w' =
      <[root := mkFiberRoot a None NoLanes None NoLane
                  (markRootFinished (laneInfo r)
                     (mergeLanes (lanes fa) (childLanes fa)))]> (roots w) ∧
    trace w' = trace w ++ visit (Fib a c Nil) ++ committed root a ∧
    settled (refs (Fib a c Nil)) (fibers (store w)) (fibers (store w')) ∧
    workInProgress w' = None ∧
    workInProgressRoot w' = None ∧
    workInProgressRootRenderLanes w' = NoLanes ∧
    currentEventTime w' = NoTimestamp.
Proof.
  intros Hr Hfresh lanes0 Hlanes Hslice Hcf Ha Hfa Hl Hfuel.
  set (w0 := with_currentEventTime w NoTimestamp).
  destruct (renderRootSync_fresh fuel root lanes0 w0 r cf a c Hr Hcf Ha Hl Hfresh Hfuel)
    as (w1 & Hrender & Hren).
  apply rendered_fields in Hren as (HS & Hroots & Htr & Hwip & Hwr & Hwl & _ & Ht & _).
  simpl in HS, Hroots, Htr, Hwr, Hwl, Ht.
  destruct (settled_links _ _ _ _ _ HS Hcf) as (cf' & Hcf' & _ & _ & Ha' & _).
  destruct (settled_links _ _ _ _ _ HS Hfa) as (fa' & Hfa' & _ & _ & _ & _ & Hla & Hcl).
  eexists. split.
  { unfold performConcurrentWorkOnRoot.
    unfold bind at 1, modify at 1. fold w0.
    erewrite bind_Ok; [|by apply nextLanesOf_Some].
    cbn [workInProgressRoot w0 with_currentEventTime].
    rewrite (decide_False (P := Some root = workInProgressRoot w)) by done.
    fold lanes0. rewrite (decide_False (P := lanes0 = NoLanes)) by done.
    erewrite bind_Ok; [|by apply getRoot_Some].
    rewrite Hslice.
    rewrite (bind_Ok _ _ _ _ _ Hrender).
    erewrite bind_Ok; [|apply getRoot_Some; rewrite Hroots; apply lookup_insert_eq].
    erewrite bind_Ok; [|apply getFiberW_Some; exact Hcf'].
    erewrite bind_Ok;
      [|apply set_finishedWork_Some; rewrite Hroots; apply lookup_insert_eq].
    unfold finishConcurrentRender, commitRoot.
    erewrite bind_Ok;
      [|eapply commitRootImpl_run;
        [simpl; apply lookup_insert_eq|simpl; by rewrite Ha', Ha|exact Hfa']].
    reflexivity. }
  simpl. rewrite Hroots, !insert_insert_eq, Htr, Hla, Hcl, Ht, <-app_assoc. done.
Qed.

End render.

Lemma walker_begins cur u l w :
  beginWork (Collaborators := Walker.walker) cur u l w =
    Ok (Walker.firstChild u, moved w (Walker.began u) (workInProgress w)).
Proof. reflexivity. Qed.

Lemma walker_completes cur u w :
  completeWork (Collaborators := Walker.walker) cur u w =
    Ok (None, moved w (Walker.completed u) (workInProgress w)).
Proof. reflexivity. Qed.

Lemma walker_reuses cur f a w :
  fibers (store w) !! cur = Some f → alternate f = Some a →
  createWorkInProgress (Collaborators := Walker.walker) cur JNull w = Ok (a, w).
Proof.
  intros Hf Ha. simpl. unfold Sample.sample_createWorkInProgress.
  by rewrite (bind_Ok _ _ _ _ _ (getFiberW_Some _ _ _ Hf)), Ha.
Qed.

Lemma walker_commits root fw w :
  commitMutationEffects (Collaborators := Walker.walker) root fw w =
    Ok (tt, moved w (Walker.committed root fw) (workInProgress w)).
Proof. reflexivity. Qed.

Lemma walker_laid : laid Walker.firstChild (fibers Walker.tree) None Walker.shape.
Proof. simpl. repeat split; eexists; (split; [reflexivity|]); split; reflexivity. Qed.

Lemma workLoopSync_visits_depth_first_witness :
  ∃ w',
    workLoopSync (C := Walker.walker) 8 Walker.rendering = Ok (tt, w') ∧
    workInProgress w' = None ∧
    trace w' =
      [EvCollaborator "beginWork" 2; EvCollaborator "beginWork" 3;
       EvCollaborator "beginWork" 5; EvCollaborator "completeWork" 5;
       EvCollaborator "completeWork" 3; EvCollaborator "beginWork" 4;
       EvCollaborator "completeWork" 4; EvCollaborator "completeWork" 2].
Proof.
  destruct (workLoopSync_visits_depth_first (C := Walker.walker)
              Walker.firstChild Walker.began Walker.completed
              walker_begins walker_completes 8 Walker.shape Walker.rendering)
    as (w' & Hrun & Hwip & Htrace & _).
  - exact walker_laid.
  - reflexivity.
  - simpl. lia.
  - exists w'. split; [exact Hrun|]. split; [exact Hwip|exact Htrace].
Defined.

Lemma performSyncWorkOnRoot_renders_without_commit_witness :
  ∃ w' r',
    performSyncWorkOnRoot (C := Walker.walker) 8 1%nat (Walker.world 1) = Ok (JNull, w') ∧
    roots w' !! 1%nat = Some r' ∧
    current r' = 1%nat ∧ finishedWork r' = Some 2%nat ∧
    length (trace w') = 8%nat ∧
    memoizedProps <$> fibers (store w') !! 5%nat = Some (JObj {[ "id" := 5 ]}).
Proof.
  destruct (performSyncWorkOnRoot_renders_without_commit (C := Walker.walker)
              Walker.firstChild Walker.began Walker.completed
              walker_begins walker_completes walker_reuses
              8 1%nat (Walker.world 1) (Walker.root_of 1)
              (Walker.node 3 (Some 1%nat) None None (Some 2%nat) JNull) 2%nat
              (Fib 3 (Fib 5 Nil Nil) (Fib 4 Nil Nil)))
    as (w' & Hrun & Hroots & Htrace & Hsettled & _).
  - reflexivity.
  - reflexivity.
  - reflexivity.
  - reflexivity.
  - exact walker_laid.
  - discriminate.
  - simpl. lia.
  - eexists w', _. split; [exact Hrun|].
    split; [rewrite Hroots; apply lookup_insert_eq|].
    split; [reflexivity|]. split; [reflexivity|].
    split; [rewrite Htrace; reflexivity|].
    rewrite (Hsettled 5%nat). reflexivity.
Defined.

Lemma sample_commits root fw w :
  commitMutationEffects (Collaborators := Sample.sample) root fw w =
    Ok (tt, moved w (Walker.committed root fw) (workInProgress w)).
Proof. reflexivity. Qed.

Lemma commitRootImpl_second_commit_is_noop_witness :
  ∃ w',
    commitRootImpl 1%nat (Sample.world_of (Sample.root_with (Some 2%nat) (Some 7%nat) 16 16))
      = Ok (tt, w') ∧
    commitRootImpl 1%nat w' = Ok (tt, w') ∧
    trace w' = [EvCollaborator "commitMutationEffects" 2].
Proof.
  destruct (commitRootImpl_second_commit_is_noop Walker.committed sample_commits
              (Sample.world_of (Sample.root_with (Some 2%nat) (Some 7%nat) 16 16)) 1%nat
              (Sample.root_with (Some 2%nat) (Some 7%nat) 16 16) 2%nat
              (Sample.plain_fiber 3 (Some 1%nat) None (Some 1%nat)))
    as (w' & r' & Hrun & _ & _ & _ & _ & _ & _ & _ & Htrace & Hagain).
  - reflexivity.
  - reflexivity.
  - reflexivity.
  - exists w'. split; [exact Hrun|]. split; [exact Hagain|exact Htrace].
Defined.

Lemma performConcurrentWorkOnRoot_renders_and_commits_witness :
  ∃ w' r',
    performConcurrentWorkOnRoot (C := Walker.walker) 8 1%nat false (Walker.world 16)
      = Ok (JUndefined, w') ∧
    roots w' !! 1%nat = Some r' ∧
    current r' = 2%nat ∧ finishedWork r' = None ∧
    length (trace w') = 9%nat ∧
    last (trace w') = Some (EvCollaborator "commitMutationEffects" 2).
Proof.
  destruct (performConcurrentWorkOnRoot_renders_and_commits (C := Walker.walker)
              Walker.firstChild Walker.began Walker.completed Walker.committed
              walker_begins walker_completes walker_reuses walker_commits
              8 1%nat false (Walker.world 16) (Walker.root_of 16)
              (Walker.node 3 (Some 1%nat) None None (Some 2%nat) JNull) 2%nat
              (Walker.node 3 (Some 1%nat) None None (Some 1%nat) JNull)
              (Fib 3 (Fib 5 Nil Nil) (Fib 4 Nil Nil)))
    as (w' & Hrun & Hroots & Htrace & _).
  - reflexivity.
  - discriminate.
  - discriminate.
  - reflexivity.
  - reflexivity.
  - reflexivity.
  - reflexivity.
  - exact walker_laid.
  - simpl. lia.
  - eexists w', _. split; [exact Hrun|].
    split; [rewrite Hroots; apply lookup_insert_eq|].
    split; [reflexivity|]. split; [reflexivity|].
    rewrite Htrace. split; reflexivity.
Defined.

(** ** The event time *)

Section event_time.
Context `{C : Collaborators}.

(** X18. Within one event every [requestEventTime] gives the same time:
    once a call has returned a time other than [NoTimestamp], the next
    call returns that time again and changes nothing, whatever the clock
    says by then. *)
Theorem requestEventTime_is_stable now now' w t w' :
  requestEventTime now w = Ok (t, w') →
  t ≠ NoTimestamp →
  requestEventTime now' w' = Ok (t, w').
Proof.
  unfold requestEventTime, bind at 1, get at 1. intros Hrun Ht.
  destruct (decide (currentEventTime w ≠ NoTimestamp)) as [Hset|Hunset].
  - injection Hrun as <- <-. unfold bind, get. by rewrite decide_True.
  - unfold bind, modify, get, ret in Hrun. simpl in Hrun. injection Hrun as <- <-.
    unfold bind, get. simpl. by rewrite decide_True.
Qed.

(** X19. A concurrent work run that finds no lanes returns [null] having
    reset the event time only, so the next [requestEventTime] reads the
    clock again. *)
Theorem performConcurrentWorkOnRoot_idle_clears_event_time
    fuel root didTimeout now w r :
  roots w !! root = Some r →
  getNextLanes (laneInfo r)
    (if decide (Some root = workInProgressRoot w)
     then workInProgressRootRenderLanes w else NoLanes) = NoLanes →
  let w0 := with_currentEventTime w NoTimestamp in
  performConcurrentWorkOnRoot fuel root didTimeout w = Ok (JNull, w0) ∧
  requestEventTime now w0 = Ok (now w0, with_currentEventTime w (now w0)).
Proof.
  intros Hr Hnone w0. split.
  - unfold performConcurrentWorkOnRoot. unfold bind at 1, modify at 1. fold w0.
    erewrite bind_Ok; [|by apply nextLanesOf_Some].
    cbn [workInProgressRoot workInProgressRootRenderLanes w0 with_currentEventTime].
    rewrite Hnone. by rewrite decide_True.
  - unfold requestEventTime, bind, get, modify, ret. simpl.
    rewrite decide_False; [done|]. by intros H.
Qed.
End event_time.

Lemma requestEventTime_is_stable_witness :
  requestEventTime Cases.clock Cases.no_event
    = Ok (5, with_currentEventTime Cases.no_event 5) ∧
  requestEventTime (λ _, 9) (with_currentEventTime Cases.no_event 5)
    = Ok (5, with_currentEventTime Cases.no_event 5).
Proof.
  split; [reflexivity|].
  apply (requestEventTime_is_stable Cases.clock (λ _, 9) Cases.no_event 5
           (with_currentEventTime Cases.no_event 5)).
  - reflexivity.
  - discriminate.
Defined.

Lemma performConcurrentWorkOnRoot_idle_clears_event_time_witness :
  performConcurrentWorkOnRoot 10 1%nat false Sample.idle_world
    = Ok (JNull, Cases.no_event) ∧
  requestEventTime Cases.clock Cases.no_event
    = Ok (5, with_currentEventTime Sample.idle_world 5).
Proof.
  destruct (performConcurrentWorkOnRoot_idle_clears_event_time 10 1%nat false Cases.clock
              Sample.idle_world (Sample.root_with None None 0 0))
    as [Hrun Hnext].
  - reflexivity.
  - reflexivity.
  - split; [exact Hrun|exact Hnext].
Defined.

(** ** The earlier work loop *)

Section earlier_facts.
Context `{C : Collaborators}.

Lemma climbToTop_path fuel w : ∀ anc node top,
  return_path (fibers (store w)) node anc top →
  (length anc ≤ fuel)%nat →
  ∃ f, fibers (store w) !! node = Some f ∧
       EarlierWorkLoop.climbToTop fuel node (return_ f) w = Ok (top, w).
Proof.
  induction fuel as [|fuel IH]; intros anc node top Hpath Hfuel.
  - destruct anc; [|simpl in Hfuel; lia]. destruct Hpath as [-> Hret].
    destruct (fibers (store w) !! top) as [f|] eqn:Hf; [|done].
    simpl in Hret. injection Hret as Hret.
    exists f. split; [done|]. by rewrite Hret.
  - destruct anc as [|p anc].
    + destruct Hpath as [-> Hret].
      destruct (fibers (store w) !! top) as [f|] eqn:Hf; [|done].
      simpl in Hret. injection Hret as Hret.
      exists f. split; [done|]. by rewrite Hret.
    + destruct Hpath as [Hret Hpath].
      destruct (fibers (store w) !! node) as [f|] eqn:Hf; [|done].
      simpl in Hret. injection Hret as Hret.
      exists f. split; [done|]. rewrite Hret.
      destruct (IH anc p top Hpath) as (pf & Hp & Hclimb); [simpl in Hfuel; lia|].
      simpl. by rewrite (bind_Ok _ _ _ _ _ (getFiberW_Some _ _ _ Hp)).
Qed.

Lemma earlier_markUpdateLaneFromFiberToRoot_run fuel f w anc top tf :
  return_path (fibers (store w)) f anc top →
  fibers (store w) !! top = Some tf →
  (length anc ≤ fuel)%nat →
  EarlierWorkLoop.markUpdateLaneFromFiberToRoot fuel f w =
    Ok (if decide (f_tag tf = HostRoot) then stateNode tf else None, w).
Proof.
  intros Hpath Htop Hfuel.
  destruct (climbToTop_path fuel w anc f top Hpath Hfuel) as (sf & Hf & Hclimb).
  unfold EarlierWorkLoop.markUpdateLaneFromFiberToRoot.
  rewrite (bind_Ok _ _ _ _ _ (getFiberW_Some _ _ _ Hf)).
  rewrite (bind_Ok _ _ _ _ _ Hclimb).
  rewrite (bind_Ok _ _ _ _ _ (getFiberW_Some _ _ _ Htop)).
  by destruct (decide (f_tag tf = HostRoot)).
Qed.

Lemma earlier_ensureRootIsScheduled_run w root r :
  roots w !! root = Some r →
  EarlierWorkLoop.ensureRootIsScheduled root w =
    Ok (tt, EarlierWorkLoop.scheduled w root r).
Proof.
  intros Hr. unfold EarlierWorkLoop.ensureRootIsScheduled, scheduleCallback.
  unfold bind at 1. unfold bind at 1, get at 1. unfold bind at 1, modify at 1.
  unfold ret at 1.
  by erewrite set_callbackNode_Some.
Qed.

Lemma earlier_scheduleUpdateOnFiber_run fuel f lane t w anc top tf root r :
  return_path (fibers (store w)) f anc top →
  fibers (store w) !! top = Some tf →
  f_tag tf = HostRoot → stateNode tf = Some root →
  (length anc ≤ fuel)%nat →
  roots w !! root = Some r →
  EarlierWorkLoop.scheduleUpdateOnFiber fuel f lane t w =
    Ok (JUndefined, EarlierWorkLoop.scheduled w root r).
Proof.
  intros Hpath Htop Htag Hnode Hfuel Hr.
  unfold EarlierWorkLoop.scheduleUpdateOnFiber.
  rewrite (bind_Ok _ _ _ _ _
             (earlier_markUpdateLaneFromFiberToRoot_run fuel f w anc top tf Hpath Htop Hfuel)).
  rewrite decide_True, Hnode by done.
  by rewrite (bind_Ok _ _ _ _ _ (earlier_ensureRootIsScheduled_run w root r Hr)).
Qed.

(** X20. In the earlier work loop every update under a host root asks the
    scheduler for one more callback of normal priority: two calls in a row
    arm two callbacks, cancel none, leave all fibers and queues untouched,
    and the root keeps the newest handle only. *)
Theorem earlier_scheduleUpdateOnFiber_never_coalesces
    fuel f f' lane lane' t t' w anc anc' top tf root r :
  return_path (fibers (store w)) f anc top →
  return_path (fibers (store w)) f' anc' top →
  fibers (store w) !! top = Some tf →
  f_tag tf = HostRoot → stateNode tf = Some root →
  (length anc ≤ fuel)%nat → (length anc' ≤ fuel)%nat →
  roots w !! root = Some r →
  ∃ w' r',
    (do EarlierWorkLoop.scheduleUpdateOnFiber fuel f lane t then
     EarlierWorkLoop.scheduleUpdateOnFiber fuel f' lane' t') w = Ok (JUndefined, w') ∧
    trace w' =
      trace w ++ [EvScheduleCallback NormalSchedulerPriority root (next_handle w);
                  EvScheduleCallback NormalSchedulerPriority root (S (next_handle w))] ∧
    roots w' !! root = Some r' ∧
    callbackNode r' = Some (S (next_handle w)) ∧
    callbackPriority r' = callbackPriority r ∧
    laneInfo r' = laneInfo r ∧
    store w' = store w.
Proof.
  intros Hpath Hpath' Htop Htag Hnode Hfuel Hfuel' Hr.
  rewrite (bind_Ok _ _ _ _ _
             (earlier_scheduleUpdateOnFiber_run fuel f lane t w anc top tf root r
                Hpath Htop Htag Hnode Hfuel Hr)).
  erewrite (earlier_scheduleUpdateOnFiber_run fuel f' lane' t' _ anc' top tf root);
    [|exact Hpath'|exact Htop|exact Htag|exact Hnode|exact Hfuel'
     |simpl; apply lookup_insert_eq].
  eexists _, _. split; [done|]. simpl.
  split; [by rewrite <-app_assoc|].
  split; [apply lookup_insert_eq|]. done.
Qed.

(** X21. Under a top fiber that is no host root the earlier
    [scheduleUpdateOnFiber] returns [null] and changes nothing. *)
Theorem earlier_scheduleUpdateOnFiber_without_host_root fuel f lane t w anc top tf :
  return_path (fibers (store w)) f anc top →
  fibers (store w) !! top = Some tf →
  f_tag tf ≠ HostRoot →
  (length anc ≤ fuel)%nat →
  EarlierWorkLoop.scheduleUpdateOnFiber fuel f lane t w = Ok (JNull, w).
Proof.
  intros Hpath Htop Htag Hfuel.
  unfold EarlierWorkLoop.scheduleUpdateOnFiber.
  rewrite (bind_Ok _ _ _ _ _
             (earlier_markUpdateLaneFromFiberToRoot_run fuel f w anc top tf Hpath Htop Hfuel)).
  by rewrite decide_False.
Qed.

End earlier_facts.


Lemma earlier_scheduleUpdateOnFiber_never_coalesces_witness :
  ∃ w',
    (do EarlierWorkLoop.scheduleUpdateOnFiber 10 4%nat 16 (Some 100) then
     EarlierWorkLoop.scheduleUpdateOnFiber 10 3%nat 16 None) Sample.idle_world
      = Ok (JUndefined, w') ∧
    trace w' = [EvScheduleCallback NormalSchedulerPriority 1 0;
                EvScheduleCallback NormalSchedulerPriority 1 1] ∧
    store w' = store Sample.idle_world.
Proof.
  destruct (earlier_scheduleUpdateOnFiber_never_coalesces 10 4%nat 3%nat
              16 16 (Some 100) None Sample.idle_world [3; 1]%nat [1%nat] 1%nat
              (Sample.plain_fiber 3 (Some 1%nat) None (Some 2%nat))
              1%nat (Sample.root_with None None 0 0))
    as (w' & r' & Hrun & Htrace & _ & _ & _ & _ & Hstore).
  - repeat split; reflexivity.
  - repeat split; reflexivity.
  - reflexivity.
  - reflexivity.
  - reflexivity.
  - simpl. lia.
  - simpl. lia.
  - reflexivity.
  - exists w'. split; [exact Hrun|]. split; [exact Htrace|exact Hstore].
Defined.

Lemma earlier_scheduleUpdateOnFiber_without_host_root_witness :
  EarlierWorkLoop.scheduleUpdateOnFiber 10 6%nat 16 None Sample.idle_world
    = Ok (JNull, Sample.idle_world).
Proof.
  apply (earlier_scheduleUpdateOnFiber_without_host_root 10 6%nat 16 None Sample.idle_world
           [5%nat] 5%nat (Sample.plain_fiber 5 None None None)).
  - repeat split; reflexivity.
  - reflexivity.
  - discriminate.
  - simpl. lia.
Defined.
